(** * Auction engine: bid arbitration, anti-sniping and finalisation

    A shallow embedding of

      - [src/services/auctionService.js]  (class [AuctionService], the
        socket path: [placeBid], [endAuction], [checkAuctionStatus], ...)
      - [src/backend/routes/bids.js]      (the REST handlers [POST /] and
        [GET /auction/:auctionId])
      - [src/middleware/auth.js]          (the gates [authorize] and
        [adminAuth])

    over a relational store that follows the schema and the pool kept in
    [src/config/database.js].

    Conventions of the model.

      - Tables are lists of rows in insertion order; an SQL statement is a
        function on the rows selected by its WHERE clause. The server runs
        in strict mode: a value out of the range of its column, and a text
        that is not a number bound to a numeric column, are refused.
      - BIGINT and INT columns are [Z], DECIMAL columns are [Q], TIMESTAMP
        columns and JavaScript dates are [Z] milliseconds. The pool is
        opened with [bigNumberStrings]: a BIGINT or DECIMAL column reaches
        JavaScript as its decimal text, so [+] on it concatenates, [>=]
        between two of them compares the texts, and [*], [/] and a
        comparison with a number convert the text with ToNumber.
      - A JavaScript number is the rational it holds. [round] is the
        rounding of an IEEE 754 double (53 bits, ties to even; the range of
        the exponent is not modelled), [fmul], [fdiv] and [fadd] are the
        rounded operations, [Math.ceil] and [Math.floor] are [Qceiling] and
        [Qfloor]. A number a caller passes ([amount], [maxAmount],
        [newBidAmount]) is given by the integer it holds.
      - JavaScript exceptions are the [Throw] outcome of the monad [M];
        effects performed before a throw persist, and [rollback] restores
        the tables saved at [beginTransaction] until [commit]. A helper
        whose body has no failing case here ([getAuctionDetails],
        [createNotification], the notify functions) is written without its
        try/catch.
      - A call runs to its end before the next one starts: the awaits of
        one handler are not interleaved with another handler.
      - Every clock reading a call makes is an explicit argument. *)

From Stdlib Require Import ZArith QArith Qround List Bool Lia String Ascii.
From Stdlib Require Import Lqa.
Import ListNotations.
Open Scope Z_scope.

(* ------------------------------------------------------------------ *)
(** ** JavaScript numbers and texts *)

(** [String(n)] for an integer, which is also the text the pool returns
    for a BIGINT column. (Above 2^53 JavaScript prints the shortest digits
    that read back as the same double; the digits of the integer are those
    up to there.) *)
Definition digit (n : Z) : ascii := ascii_of_nat (48 + Z.to_nat n).

Fixpoint digits (fuel : nat) (n : Z) : string :=
  match fuel with
  | O => EmptyString
  | S fuel' =>
      String.append (if n <? 10 then EmptyString else digits fuel' (n / 10))
                    (String (digit (n mod 10)) EmptyString)
  end.

Definition toString (n : Z) : string :=
  if n <? 0 then String "-" (digits (S (Z.to_nat (Z.log2 (- n)))) (- n))
  else digits (S (Z.to_nat (Z.log2 n))) n.

(** The integer a text denotes, if it is the text of one: an optional
    minus sign and digits; the empty text reads 0. *)
Definition digit_value (c : ascii) : option Z :=
  let n := Z.of_nat (nat_of_ascii c) in
  if (48 <=? n) && (n <=? 57) then Some (n - 48) else None.

Fixpoint parse_digits (s : string) (acc : Z) : option Z :=
  match s with
  | EmptyString => Some acc
  | String c s' =>
      match digit_value c with
      | Some d => parse_digits s' (10 * acc + d)
      | None => None
      end
  end.

Definition parse_int (s : string) : option Z :=
  match s with
  | EmptyString => Some 0
  | String c s' =>
      if Ascii.eqb c "-"
      then match s' with
           | EmptyString => None
           | _ => option_map Z.opp (parse_digits s' 0)
           end
      else parse_digits s 0
  end.

(** Rounding to a double: [a / b] to the nearest integer, ties to even;
    the exponent that leaves 53 bits before the point; the nearest double
    of a positive [n / d], of any rational. *)
Definition half_even (a b : Z) : Z :=
  let q := a / b in
  let r := a mod b in
  if 2 * r <? b then q
  else if b <? 2 * r then q + 1
  else if Z.even q then q else q + 1.

Definition scaled (n d e : Z) : Z * Z :=
  (n * 2 ^ Z.max 0 (- e), d * 2 ^ Z.max 0 e).

Definition pow2 (m e : Z) : Q :=
  if 0 <=? e then inject_Z (m * 2 ^ e) else m # Z.to_pos (2 ^ (- e)).

Definition exponent (n d : Z) : Z :=
  let e0 := Z.log2 n - Z.log2 d - 53 in
  if 2 ^ 52 <=? fst (scaled n d (e0 + 1)) / snd (scaled n d (e0 + 1))
  then e0 + 1 else e0.

Definition round_pos (n d : Z) : Q :=
  let e := exponent n d in
  pow2 (half_even (fst (scaled n d e)) (snd (scaled n d e))) e.

Definition round (q : Q) : Q :=
  match Qnum q with
  | 0 => 0%Q
  | Zpos _ => round_pos (Qnum q) (Zpos (Qden q))
  | Zneg _ => (- round_pos (- Qnum q) (Zpos (Qden q)))%Q
  end.

Definition fmul (x y : Q) : Q := round (x * y).
Definition fdiv (x y : Q) : Q := round (x / y).
Definition fadd (x y : Q) : Q := round (x + y).

(** ToNumber of a text: NaN ([None]) unless the text denotes an integer. *)
Definition ToNumber (s : string) : option Q :=
  option_map (fun n => round (inject_Z n)) (parse_int s).

(** [x < s] for a number and a text: the text is converted first, and NaN
    compares false. *)
Definition lt_Number_String (x : Z) (s : string) : bool :=
  match ToNumber s with
  | Some y => negb (Qle_bool y (inject_Z x))
  | None => false
  end.

(** [s1 >= s2] for two texts: by code units, from the left. *)
Definition ge_String (s1 s2 : string) : bool := negb (String.ltb s1 s2).

(** The range of a BIGINT column. *)
Definition in_BIGINT (n : Z) : bool :=
  (- 9223372036854775808 <=? n) && (n <=? 9223372036854775807).

(* ------------------------------------------------------------------ *)
(** ** Rows of the schema *)

Inductive AuctionStatus := scheduled | live | ended | cancelled | suspended.
Inductive AuctionResult := no_bids | reserve_not_met | sold | withdrawn.
Inductive BidType := normal | proxy | auto.
Inductive UserStatus := active | user_suspended | banned | pending.
Inductive NotificationType :=
  auction_start | auction_end | outbid | won | property_sold.

Record Auction := mkAuction {
  a_id : Z;
  property_id : Z;
  start_time : Z;
  end_time : Z;
  extended_end_time : option Z;
  reserve_price : Z;
  current_price : Z;
  bid_increment_percentage : Q;
  current_bid_count : Z;
  status : AuctionStatus;
  result : option AuctionResult;
  winning_bid_id : option Z;
  auto_extend_enabled : bool;
  auto_extend_minutes : Z;
  ended_at : option Z
}.

(** Of [properties], the columns the modelled code reads: the owner, for the
    join of [getAuctionDetails], and the [starting_price] the route's SELECT
    takes from [properties]. *)
Record Property := mkProperty {
  p_id : Z;
  owner_id : Z;
  starting_price : Z
}.

Record User := mkUser {
  u_id : Z;
  u_status : UserStatus;
  identity_verified : bool
}.

Record Bid := mkBid {
  b_id : Z;
  auction_id : Z;
  user_id : Z;
  amount : Z;
  max_amount : Z;
  bid_type : BidType;
  is_winning : bool
}.

Record Transaction := mkTransaction {
  t_user_id : Z;
  t_auction_id : Z;
  t_bid_id : Z;
  t_amount : Z;
  commission_amount : Z;
  total_amount : Z
}.

Record Notification := mkNotification {
  n_user_id : Z;
  n_type : NotificationType;
  n_auction_id : Z
}.

Record AuditLog := mkAuditLog {
  l_user_id : Z;
  l_auction_id : Z;
  l_amount : Z;
  l_bid_type : BidType
}.

(** The tables a transaction can roll back. Of [audit_logs] the columns
    [user_id], [entity_id] and the two values of [new_values] a bid would
    log; the table has no column [data]. *)
Record Tables := mkTables {
  auctions : list Auction;
  properties : list Property;
  users : list User;
  watchlists : list (Z * Z);           (* (user_id, property_id) *)
  bids : list Bid;
  transactions : list Transaction;
  notifications : list Notification;
  audit_logs : list AuditLog
}.

(** Messages sent through socket.io, with the room they go to. *)
Inductive Emit :=
| auction_started (auctionId : Z)
| auction_ended (auctionId : Z) (res : AuctionResult)
                (winningBidId : option Z) (winningAmount : Z)
| auction_extended (auctionId : Z) (newEndTime : Z) (extendedBy : Z)
| bid_update (auctionId bidId userId amt : Z) (bidType : BidType)
| notification (userId : Z) (type : NotificationType) (auctionId : Z).

(** One entry of the in-memory [this.autoBids] map. *)
Record AutoBid := mkAutoBid {
  ab_auctionId : Z;
  ab_userId : Z;
  maxAmount : Z;
  currentBid : Z;
  ab_active : bool
}.

(** [unique_winning_bid] records whether the store carries the schema's
    [UNIQUE KEY unique_winning_bid (auction_id, is_winning)] on [bids],
    which allows one flagged and one unflagged row per auction; every
    result below holds for both values unless it names one. *)
Record World := mkWorld {
  db : Tables;
  unique_winning_bid : bool;
  next_bid_id : Z;                     (* AUTO_INCREMENT of bids.id *)
  emitted : list Emit;                 (* oldest first *)
  autoBids : list ((Z * Z) * AutoBid); (* Map, in insertion order *)
  COMMISSION_PERCENTAGE : option Q     (* process.env *)
}.

Inductive Error :=
| Auction_is_not_active
| Bid_must_be_at_least (minBid : string)
| User_not_found
| Maximum_amount_must_be_greater_than_0
| Auction_or_bid_not_found
| TypeError_null                 (* a property of null is read *)
| TypeError_undefined            (* a property of undefined is read *)
| ReferenceError_db              (* db is not defined *)
| ER_DUP_ENTRY                   (* duplicate entry for a unique key *)
| ER_BAD_FIELD_ERROR             (* unknown column in the field list *)
| ER_WARN_DATA_OUT_OF_RANGE      (* out of range value for a column *)
| ER_TRUNCATED_WRONG_VALUE.      (* incorrect integer value *)

(* ------------------------------------------------------------------ *)
(** ** The effect monad *)

Inductive Outcome (A : Type) :=
| Return (a : A)
| Throw (e : Error).
Arguments Return {A} a.
Arguments Throw {A} e.

Definition M (A : Type) : Type := World -> Outcome A * World.

Definition ret {A} (a : A) : M A := fun w => (Return a, w).
Definition throw {A} (e : Error) : M A := fun w => (Throw e, w).
Definition bind {A B} (m : M A) (k : A -> M B) : M B :=
  fun w => match m w with
           | (Return a, w') => k a w'
           | (Throw e, w') => (Throw e, w')
           end.
Definition try_catch {A} (m : M A) (h : Error -> M A) : M A :=
  fun w => match m w with
           | (Return a, w') => (Return a, w')
           | (Throw e, w') => h e w'
           end.
Definition gets {A} (f : World -> A) : M A := fun w => (Return (f w), w).
Definition modify (f : World -> World) : M unit := fun w => (Return tt, f w).

Declare Scope m_scope.
Delimit Scope m_scope with M.
Notation "x <- m ;; k" := (bind m (fun x => k))
  (at level 61, m at next level, right associativity) : m_scope.
Notation "m ;;; k" := (bind m (fun _ => k))
  (at level 61, right associativity) : m_scope.
Open Scope m_scope.

Definition when (b : bool) (m : M unit) : M unit := if b then m else ret tt.

Fixpoint forEach {A} (l : list A) (body : A -> M unit) : M unit :=
  match l with
  | [] => ret tt
  | x :: l' => body x ;;; forEach l' body
  end.

(* ------------------------------------------------------------------ *)
(** ** World and table updates *)

Definition with_db (f : Tables -> Tables) (w : World) : World :=
  mkWorld (f (db w)) (unique_winning_bid w) (next_bid_id w) (emitted w)
          (autoBids w) (COMMISSION_PERCENTAGE w).

Definition with_next_bid_id (n : Z) (w : World) : World :=
  mkWorld (db w) (unique_winning_bid w) n (emitted w)
          (autoBids w) (COMMISSION_PERCENTAGE w).

Definition with_emitted (f : list Emit -> list Emit) (w : World) : World :=
  mkWorld (db w) (unique_winning_bid w) (next_bid_id w) (f (emitted w))
          (autoBids w) (COMMISSION_PERCENTAGE w).

Definition with_autoBids
  (f : list ((Z * Z) * AutoBid) -> list ((Z * Z) * AutoBid)) (w : World)
  : World :=
  mkWorld (db w) (unique_winning_bid w) (next_bid_id w) (emitted w)
          (f (autoBids w)) (COMMISSION_PERCENTAGE w).

Definition with_auctions (f : list Auction -> list Auction) (t : Tables) :=
  mkTables (f (auctions t)) (properties t) (users t) (watchlists t) (bids t)
           (transactions t) (notifications t) (audit_logs t).

Definition with_bids (f : list Bid -> list Bid) (t : Tables) :=
  mkTables (auctions t) (properties t) (users t) (watchlists t) (f (bids t))
           (transactions t) (notifications t) (audit_logs t).

Definition with_transactions
  (f : list Transaction -> list Transaction) (t : Tables) :=
  mkTables (auctions t) (properties t) (users t) (watchlists t) (bids t)
           (f (transactions t)) (notifications t) (audit_logs t).

Definition with_notifications
  (f : list Notification -> list Notification) (t : Tables) :=
  mkTables (auctions t) (properties t) (users t) (watchlists t) (bids t)
           (transactions t) (f (notifications t)) (audit_logs t).

(** [io.to(room).emit(...)] *)
Definition emit (e : Emit) : M unit :=
  modify (with_emitted (fun l => l ++ [e])).

(** [UPDATE auctions SET ... WHERE id = ?] *)
Definition update_auction (id : Z) (f : Auction -> Auction) : M unit :=
  modify (with_db (with_auctions
    (map (fun a => if a_id a =? id then f a else a)))).

(** The rows of [bids] respect [unique_winning_bid] when no two of them
    share [(auction_id, is_winning)]. *)
Fixpoint index_ok (l : list Bid) : bool :=
  match l with
  | [] => true
  | b :: l' =>
      negb (existsb (fun b' => (auction_id b' =? auction_id b)
                               && Bool.eqb (is_winning b') (is_winning b)) l')
      && index_ok l'
  end.

(** A write to [bids]: refused with a duplicate-entry error when the key is
    carried and the statement would leave two rows with the same key. (The
    statements used here insert one row or set one constant on the rows
    they select, so on a table that respects the key a row-by-row check
    fails exactly when this one does.) *)
Definition write_bids (f : list Bid -> list Bid) : M unit :=
  fun w =>
    let l := f (bids (db w)) in
    if unique_winning_bid w && negb (index_ok l)
    then (Throw ER_DUP_ENTRY, w)
    else (Return tt, with_db (with_bids (fun _ => l)) w).

Definition set_is_winning (v : bool) (b : Bid) : Bid :=
  mkBid (b_id b) (auction_id b) (user_id b) (amount b) (max_amount b)
        (bid_type b) v.

(** [INSERT INTO bids (...)]: an amount out of the range of its column is
    refused; [is_winning] takes its default FALSE; the statement returns
    [insertId]. The counter is not restored by a rollback. *)
Definition insert_bid (auctionId userId amt maxAmt : Z) (ty : BidType)
  : M Z :=
  if negb (in_BIGINT amt && in_BIGINT maxAmt)
  then throw ER_WARN_DATA_OUT_OF_RANGE else
  id <- gets next_bid_id ;;
  modify (with_next_bid_id (id + 1)) ;;;
  write_bids (fun l => l ++ [mkBid id auctionId userId amt maxAmt ty false]) ;;;
  ret id.

(** [beginTransaction] ... [commit], with the [catch] that rolls back and
    rethrows. A rollback that comes after the commit restores nothing. *)
Definition rollback (saved : Tables) : M unit :=
  modify (with_db (fun _ => saved)).

Definition transaction {A} (body : M A) : M A :=
  saved <- gets db ;;
  try_catch body (fun e => rollback saved ;;; throw e).

(* ------------------------------------------------------------------ *)
(** ** Comparisons on the enumerations *)

Definition is_live (s : AuctionStatus) : bool :=
  match s with live => true | _ => false end.
Definition is_scheduled (s : AuctionStatus) : bool :=
  match s with scheduled => true | _ => false end.
Definition is_active (s : UserStatus) : bool :=
  match s with active => true | _ => false end.
Definition is_sold (r : AuctionResult) : bool :=
  match r with sold => true | _ => false end.

(** [new Date(auction.extended_end_time || auction.end_time)] *)
Definition effectiveEndTime (a : Auction) : Z :=
  match extended_end_time a with
  | Some t => t
  | None => end_time a
  end.

(** [ORDER BY amount DESC LIMIT 1]: the first row, in table order, whose
    amount no other row exceeds. *)
Fixpoint highest (l : list Bid) : option Bid :=
  match l with
  | [] => None
  | b :: l' =>
      match highest l' with
      | Some b' => if amount b <? amount b' then Some b' else Some b
      | None => Some b
      end
  end.

(** [SELECT DISTINCT u.id, ...]: one row for each user, in the order of
    the first row that names the user. *)
Fixpoint distinct (l : list Z) : list Z :=
  match l with
  | [] => []
  | x :: l' => x :: filter (fun y => negb (y =? x)) (distinct l')
  end.

Definition user_exists (t : Tables) (id : Z) : bool :=
  existsb (fun u => u_id u =? id) (users t).

(** [... FROM auctions a JOIN properties p ON a.property_id = p.id
         JOIN users u ON p.owner_id = u.id]: the auction rows that join. *)
Definition joins_owner (t : Tables) (a : Auction) : bool :=
  existsb (fun p => (p_id p =? property_id a) && user_exists t (owner_id p))
          (properties t).

(** [UPDATE auctions SET current_price = ?, current_bid_count =
    current_bid_count + 1 WHERE id = ?] and [SET extended_end_time = ?],
    on one row. *)
Definition set_price_and_count (amt : Z) (a : Auction) : Auction :=
  mkAuction (a_id a) (property_id a) (start_time a) (end_time a)
    (extended_end_time a) (reserve_price a) amt
    (bid_increment_percentage a) (current_bid_count a + 1) (status a)
    (result a) (winning_bid_id a) (auto_extend_enabled a)
    (auto_extend_minutes a) (ended_at a).

Definition set_extended_end_time (t : Z) (a : Auction) : Auction :=
  mkAuction (a_id a) (property_id a) (start_time a) (end_time a)
    (Some t) (reserve_price a) (current_price a)
    (bid_increment_percentage a) (current_bid_count a) (status a)
    (result a) (winning_bid_id a) (auto_extend_enabled a)
    (auto_extend_minutes a) (ended_at a).

(** [UPDATE bids SET is_winning = FALSE WHERE auction_id = ? AND id != ?] *)
Definition unmark_others (id bidId : Z) (l : list Bid) : list Bid :=
  map (fun b => if (auction_id b =? id) && negb (b_id b =? bidId)
                then set_is_winning false b else b) l.

(** [UPDATE bids SET is_winning = TRUE WHERE id = ?] *)
Definition mark_winning (bidId : Z) (l : list Bid) : list Bid :=
  map (fun b => if b_id b =? bidId then set_is_winning true b else b) l.

(* ------------------------------------------------------------------ *)
(** ** [class AuctionService]  (src/services/auctionService.js) *)

Module AuctionService.

(** The argument of [placeBid], after the defaults [bidType = 'normal'] and
    [maxAmount = 0] of its destructuring. *)
Record BidData := mkBidData {
  auctionId : Z;
  userId : Z;
  bd_amount : Z;
  bidType : BidType;
  bd_maxAmount : Z
}.

(** [calculateMinBid] is called on two columns, a BIGINT and a DECIMAL:
    both arrive as texts, and [currentPrice + increment] is the text of the
    price followed by the text of the increment. *)
Definition calculateMinBid (currentPrice : Z) (incrementPercentage : Q)
  : string :=
  let increment :=
    Qceiling (fmul (round (inject_Z currentPrice))
                   (fdiv (round incrementPercentage) 100)) in
  String.append (toString currentPrice) (toString increment).

(** [calculateNextBid] is called on a number. *)
Definition calculateNextBid (currentPrice : Z) : Z :=
  Qfloor (fadd (inject_Z currentPrice)
               (inject_Z (Qceiling (fmul (inject_Z currentPrice)
                                         (round (5 # 100)))))).

Definition getAuctionDetails (id : Z) : M (option Auction) :=
  gets (fun w =>
    hd_error (filter (fun a => (a_id a =? id) && joins_owner (db w) a)
                     (auctions (db w)))).

(** [ORDER BY b.created_at DESC LIMIT 1]: rows are appended in creation
    order, so this is the last matching row. *)
Definition getWinningBid (id : Z) : M (option Bid) :=
  gets (fun w =>
    hd_error (rev (filter
      (fun b => (auction_id b =? id) && is_winning b
                && user_exists (db w) (user_id b))
      (bids (db w))))).

Definition getUserDetails (id : Z) : M (option User) :=
  gets (fun w =>
    hd_error (filter (fun u => (u_id u =? id) && is_active (u_status u))
                     (users (db w)))).

Definition getBidDetails (id : Z) : M (option Bid) :=
  gets (fun w => hd_error (filter (fun b => b_id b =? id) (bids (db w)))).

Definition createNotification (user : Z) (type : NotificationType)
  (auction : Z) : M unit :=
  modify (with_db (with_notifications
    (fun l => l ++ [mkNotification user type auction]))) ;;;
  emit (notification user type auction).

Definition notifyAuctionStart (id : Z) : M unit :=
  watchers <- gets (fun w =>
    match find (fun a => a_id a =? id) (auctions (db w)) with
    | None => []
    | Some a =>
        distinct (map fst (filter
          (fun wl => (snd wl =? property_id a) && user_exists (db w) (fst wl))
          (watchlists (db w))))
    end) ;;
  forEach watchers (fun u => createNotification u auction_start id).

Definition notifyAuctionEnd (id : Z) (res : AuctionResult)
  (winningBidId : option Z) : M unit :=
  bidders <- gets (fun w =>
    distinct (map user_id (filter
      (fun b => (auction_id b =? id) && user_exists (db w) (user_id b))
      (bids (db w))))) ;;
  forEach bidders (fun bidder =>
    type <- (if is_sold res
                && match winningBidId with
                   | Some i => negb (i =? 0)
                   | None => false
                   end
             then
               winningBid <- getWinningBid id ;;
               match winningBid with
               | Some wb => if user_id wb =? bidder then ret won
                            else ret property_sold
               | None => ret property_sold
               end
             else ret auction_end) ;;
    createNotification bidder type id).

Definition notifyOutbid (id newBidderId newAmount : Z) : M unit :=
  previousHighestBidder <- gets (fun w =>
    highest (filter
      (fun b => (auction_id b =? id) && negb (user_id b =? newBidderId)
                && negb (is_winning b) && user_exists (db w) (user_id b))
      (bids (db w)))) ;;
  match previousHighestBidder with
  | Some b => createNotification (user_id b) outbid id
  | None => ret tt
  end.

(** [parseFloat(process.env.COMMISSION_PERCENTAGE) || 5] *)
Definition commissionPercentage (w : World) : Q :=
  match COMMISSION_PERCENTAGE w with
  | Some q => if Qeq_bool (round q) 0 then 5 else round q
  | None => 5
  end.

(** [INSERT INTO transactions (...)]: [total_amount] is bound to a text,
    which the server reads as an integer. *)
Definition insert_transaction (user auction bid amt commission : Z)
  (total : string) : M unit :=
  match parse_int total with
  | None => throw ER_TRUNCATED_WRONG_VALUE
  | Some total =>
      if negb (in_BIGINT commission && in_BIGINT total)
      then throw ER_WARN_DATA_OUT_OF_RANGE
      else modify (with_db (with_transactions (fun l => l ++
             [mkTransaction user auction bid amt commission total])))
  end.

Definition createTransaction (id bidId : Z) : M unit :=
  try_catch
    (auction <- getAuctionDetails id ;;
     bid <- getBidDetails bidId ;;
     match auction, bid with
     | Some auction, Some bid =>
         pct <- gets commissionPercentage ;;
         let commissionAmount :=
           Qceiling (fmul (round (inject_Z (current_price auction)))
                          (fdiv pct 100)) in
         let totalAmount :=
           String.append (toString (current_price auction))
                         (toString commissionAmount) in
         insert_transaction (user_id bid) id bidId (current_price auction)
                            commissionAmount totalAmount
     | _, _ => throw Auction_or_bid_not_found
     end)
    (fun _ => ret tt).

Definition startAuction (now : Z) (id : Z) : M unit :=
  try_catch
    (update_auction id (fun a =>
       mkAuction (a_id a) (property_id a) now (end_time a)
         (extended_end_time a) (reserve_price a) (current_price a)
         (bid_increment_percentage a) (current_bid_count a) live (result a)
         (winning_bid_id a) (auto_extend_enabled a) (auto_extend_minutes a)
         (ended_at a)) ;;;
     emit (auction_started id) ;;;
     notifyAuctionStart id)
    (fun _ => ret tt).

Definition endAuction (now : Z) (id : Z) : M unit :=
  try_catch
    (auction <- getAuctionDetails id ;;
     match auction with
     | None => throw TypeError_null
     | Some auction =>
         rw <- (if 0 <? current_bid_count auction then
                  winningBid <- getWinningBid id ;;
                  match winningBid with
                  | Some wb =>
                      if ge_String (toString (amount wb))
                                   (toString (reserve_price auction))
                      then ret (sold, Some (b_id wb))
                      else ret (reserve_not_met, None)
                  | None => ret (reserve_not_met, None)
                  end
                else ret (no_bids, None)) ;;
         let res := fst rw in
         let winningBidId := snd rw in
         update_auction id (fun a =>
           mkAuction (a_id a) (property_id a) (start_time a) (end_time a)
             (extended_end_time a) (reserve_price a) (current_price a)
             (bid_increment_percentage a) (current_bid_count a) ended
             (Some res) winningBidId (auto_extend_enabled a)
             (auto_extend_minutes a) (Some now)) ;;;
         emit (auction_ended id res winningBidId (current_price auction)) ;;;
         notifyAuctionEnd id res winningBidId ;;;
         match winningBidId with
         | Some bidId =>
             when (is_sold res && negb (bidId =? 0)) (createTransaction id bidId)
         | None => ret tt
         end
     end)
    (fun _ => ret tt).

Definition checkAuctionStatus (now : Z) : M unit :=
  try_catch
    (activeAuctions <- gets (fun w =>
       filter (fun a => is_scheduled (status a) || is_live (status a))
              (auctions (db w))) ;;
     forEach activeAuctions (fun auction =>
       let startTime := start_time auction in
       let endTime := effectiveEndTime auction in
       when (is_scheduled (status auction) && (startTime <=? now))
            (startAuction now (a_id auction)) ;;;
       when (is_live (status auction) && (endTime <=? now))
            (endAuction now (a_id auction))))
    (fun _ => ret tt).

(** [INSERT INTO audit_logs (user_id, action, entity_type, entity_id, data)]:
    [audit_logs] has no column [data], the statement is refused. *)
Definition insert_audit_log (user auction amt : Z) (ty : BidType) : M unit :=
  throw ER_BAD_FIELD_ERROR.

(** [placeBid]: [now] is the [new Date()] of [timeRemaining], [now'] the
    later [Date.now()] of [newEndTime]. The statements that follow [commit]
    are inside the inner [try]: an error of theirs reaches the [catch],
    whose rollback comes after the commit, and is thrown again. *)
Definition placeBid (now now' : Z) (bidData : BidData) : M Z :=
  auction <- getAuctionDetails (auctionId bidData) ;;
  match auction with
  | None => throw Auction_is_not_active
  | Some auction =>
    if negb (is_live (status auction)) then throw Auction_is_not_active else
    let minBid := calculateMinBid (current_price auction)
                                  (bid_increment_percentage auction) in
    if lt_Number_String (bd_amount bidData) minBid
    then throw (Bid_must_be_at_least minBid) else
    user <- getUserDetails (userId bidData) ;;
    match user with
    | None => throw User_not_found
    | Some _ =>
      bidId <- transaction
        (bidId <- insert_bid (auctionId bidData) (userId bidData)
                    (bd_amount bidData) (bd_maxAmount bidData)
                    (bidType bidData) ;;
         update_auction (auctionId bidData)
                        (set_price_and_count (bd_amount bidData)) ;;;
         write_bids (unmark_others (auctionId bidData) bidId) ;;;
         write_bids (mark_winning bidId) ;;;
         when (auto_extend_enabled auction)
           (let timeRemaining := effectiveEndTime auction - now in
            let extendThreshold := auto_extend_minutes auction * 60 * 1000 in
            when (timeRemaining <? extendThreshold)
              (let newEndTime := now' + extendThreshold in
               update_auction (auctionId bidData)
                              (set_extended_end_time newEndTime) ;;;
               emit (auction_extended (auctionId bidData) newEndTime
                                      (auto_extend_minutes auction)))) ;;;
         ret bidId) ;;
      emit (bid_update (auctionId bidData) bidId (userId bidData)
                       (bd_amount bidData) (bidType bidData)) ;;;
      notifyOutbid (auctionId bidData) (userId bidData) (bd_amount bidData) ;;;
      insert_audit_log (userId bidData) (auctionId bidData)
                       (bd_amount bidData) (bidType bidData) ;;;
      ret bidId
    end
  end.

(** [this.autoBids.set(key, value)] *)
Fixpoint map_set (key : Z * Z) (v : AutoBid) (m : list ((Z * Z) * AutoBid))
  : list ((Z * Z) * AutoBid) :=
  match m with
  | [] => [(key, v)]
  | (k, x) :: m' =>
      if (fst k =? fst key) && (snd k =? snd key) then (k, v) :: m'
      else (k, x) :: map_set key v m'
  end.

Definition setupAutoBid (auction user maxAmt : Z) : M unit :=
  if maxAmt <=? 0 then throw Maximum_amount_must_be_greater_than_0 else
  modify (with_autoBids
    (map_set (auction, user) (mkAutoBid auction user maxAmt 0 true))).

(** [.sort((a, b) => b[1].maxAmount - a[1].maxAmount)], a stable sort. *)
Fixpoint insert_desc (x : (Z * Z) * AutoBid) (l : list ((Z * Z) * AutoBid)) :=
  match l with
  | [] => [x]
  | y :: l' => if maxAmount (snd y) <? maxAmount (snd x)
               then x :: y :: l' else y :: insert_desc x l'
  end.

Definition sort_desc (l : list ((Z * Z) * AutoBid)) :=
  fold_left (fun acc x => insert_desc x acc) l [].

(** The [for ... of autoBids] loop; [newBidAmount] is reassigned after each
    bid placed. Each nested [placeBid] is given the same clock readings. *)
Fixpoint autoBids_loop (now now' id : Z) (l : list ((Z * Z) * AutoBid))
  (newBidAmount : Z) : M unit :=
  match l with
  | [] => ret tt
  | (key, autoBid) :: l' =>
      let nextBidAmount := calculateNextBid newBidAmount in
      if nextBidAmount <=? maxAmount autoBid then
        placeBid now now'
          (mkBidData id (ab_userId autoBid) nextBidAmount auto 0) ;;;
        modify (with_autoBids (map_set key
          (mkAutoBid (ab_auctionId autoBid) (ab_userId autoBid)
                     (maxAmount autoBid) nextBidAmount (ab_active autoBid)))) ;;;
        autoBids_loop now now' id l' nextBidAmount
      else autoBids_loop now now' id l' newBidAmount
  end.

Definition processAutoBids (now now' id newBidAmount : Z) : M unit :=
  try_catch
    (entries <- gets (fun w =>
       sort_desc (filter
         (fun e => (fst (fst e) =? id) && ab_active (snd e)
                   && (newBidAmount <? maxAmount (snd e)))
         (autoBids w))) ;;
     autoBids_loop now now' id entries newBidAmount)
    (fun _ => ret tt).

End AuctionService.

(* ------------------------------------------------------------------ *)
(** ** [router.post('/')]  (src/backend/routes/bids.js)

    The module requires express and express-validator only: it declares no
    [db], and the router is mounted without the middleware that sets
    [req.user]. The handler is followed up to the first statement that
    throws; the [catch] around its whole body answers 500. *)

Module BidsRoute.

Record Request := mkRequest {
  req_user : option Z;             (* req.user, by its id, when one is set *)
  auctionId : Z;
  amount_ : Z;
  bidType : option string;         (* absent: 'normal' *)
  maxAmount_ : Z                   (* absent: 0 *)
}.

Inductive Field := f_auctionId | f_amount | f_bidType.

(** The answers the handler sends. *)
Inductive Response :=
| Validation_errors (errors : list Field)              (* 400 *)
| Failed_to_place_bid (e : Error)                      (* 500 *)
| Bid_placed_successfully (bidId : Z).                 (* 200 *)

Definition parse_bidType (s : string) : option BidType :=
  if String.eqb s "normal" then Some normal
  else if String.eqb s "auto" then Some auto
  else if String.eqb s "proxy" then Some proxy
  else None.

(** The express-validator chain of the route. *)
Definition validationResult (req : Request) : list Field :=
  (if 1 <=? auctionId req then [] else [f_auctionId])
  ++ (if 100000 <=? amount_ req then [] else [f_amount])
  ++ match bidType req with
     | None => []
     | Some s => match parse_bidType s with Some _ => [] | None => [f_bidType] end
     end.

(** [Math.max(100000, Math.floor(currentPrice * 0.05))], the increment the
    handler would ask for. *)
Definition minBidIncrement (currentPrice : Z) : Z :=
  Z.max 100000 (Qfloor (fmul (round (inject_Z currentPrice)) (round (5 # 100)))).

Definition postBid (now : Z) (req : Request) : M Response :=
  try_catch
    (if negb (match validationResult req with [] => true | _ => false end)
     then ret (Validation_errors (validationResult req)) else
     match req_user req with
     | None => throw TypeError_undefined            (* req.user.id *)
     | Some userId => throw ReferenceError_db       (* db.execute(...) *)
     end)
    (fun e => ret (Failed_to_place_bid e)).

End BidsRoute.

(* ------------------------------------------------------------------ *)
(** ** [router.get('/auction/:auctionId')]  (src/backend/routes/bids.js)

    The same module: after the test of the id the first statement is a
    [db.execute]. *)

Module AuctionBidsRoute.

Record Request := mkRequest {
  auctionId : option Z             (* parseInt(req.params.auctionId);
                                      None: NaN *)
}.

Inductive Response :=
| Invalid_auction_ID                                   (* 400 *)
| Failed_to_fetch_auction_bids (e : Error)             (* 500 *)
| Data (rows : list Bid).                              (* 200 *)

Definition getAuctionBids (req : Request) : M Response :=
  try_catch
    (match auctionId req with
     | None => ret Invalid_auction_ID
     | Some auctionId => throw ReferenceError_db    (* db.execute(...) *)
     end)
    (fun e => ret (Failed_to_fetch_auction_bids e)).

End AuctionBidsRoute.

(* ------------------------------------------------------------------ *)
(** ** [authorize] and [adminAuth]  (src/middleware/auth.js)

    A gate reads [req.user], here the [account_type] of the user when one
    is bound, and either calls [next()] or answers. *)

Module Auth.

Inductive Gate :=
| next                                                 (* next() *)
| Authentication_required                              (* 401 *)
| Insufficient_permissions                             (* 403 *)
| Admin_access_required.                               (* 403 *)

Definition authorize (roles : list string) (account_type : option string)
  : Gate :=
  match account_type with
  | None => Authentication_required
  | Some t =>
      if negb (existsb (String.eqb t) roles) && negb (String.eqb t "admin")
      then Insufficient_permissions
      else next
  end.

Definition adminAuth (account_type : option string) : Gate :=
  match account_type with
  | None => Authentication_required
  | Some t => if negb (String.eqb t "admin") then Admin_access_required
              else next
  end.

End Auth.

(* ------------------------------------------------------------------ *)
(** ** Vocabulary of the specification *)

(** The error kinds the specification names, and how the messages of
    [placeBid] fall under them. *)
Inductive ErrorKind :=
  AuctionNotActive | BidTooLow | AlreadyHighestBidder | BidderIneligible.

Definition kind_of_error (e : Error) : option ErrorKind :=
  match e with
  | Auction_is_not_active => Some AuctionNotActive
  | Bid_must_be_at_least _ => Some BidTooLow
  | User_not_found => Some BidderIneligible
  | _ => None
  end.

(** The outcomes of [placeBid] that follow its [commit]: a return, and the
    error of the statement after the commit. *)
Definition committed (o : Outcome Z) : bool :=
  match o with
  | Return _ => true
  | Throw ER_BAD_FIELD_ERROR => true
  | Throw _ => false
  end.

(** Number of rows of auction [id] flagged winning, and whether the auction
    has a row at all. *)
Definition winners (id : Z) (l : list Bid) : nat :=
  List.length (filter (fun b => (auction_id b =? id) && is_winning b) l).

Definition has_bid (id : Z) (l : list Bid) : bool :=
  existsb (fun b => auction_id b =? id) l.

(** [bids.id] is AUTO_INCREMENT: every stored id is below the counter. *)
Definition fresh_ids (w : World) : Prop :=
  Forall (fun b => b_id b < next_bid_id w) (bids (db w)).

Definition single_winner (w : World) : Prop :=
  forall id, winners id (bids (db w))
             = if has_bid id (bids (db w)) then 1%nat else 0%nat.

(** What the four statements of an accepted bid leave in [bids], given the
    inserted row, and in [auctions], given the row read at the start. *)
Definition accepted_bids (nb : Bid) (l : list Bid) : list Bid :=
  mark_winning (b_id nb) (unmark_others (auction_id nb) (b_id nb) (l ++ [nb])).

(** The three writes to [bids] of a committed bid respect the unique key:
    the INSERT, the UPDATE that clears the flags, the UPDATE that sets the
    flag. *)
Definition writes_ok (nb : Bid) (l : list Bid) : bool :=
  index_ok (l ++ [nb])
  && index_ok (unmark_others (auction_id nb) (b_id nb) (l ++ [nb]))
  && index_ok (accepted_bids nb l).

Definition priced (id amt : Z) (l : list Auction) : list Auction :=
  map (fun a => if a_id a =? id then set_price_and_count amt a else a) l.

Definition extended (id t : Z) (l : list Auction) : list Auction :=
  map (fun a => if a_id a =? id then set_extended_end_time t a else a) l.

Definition extendThreshold (a : Auction) : Z := auto_extend_minutes a * 60 * 1000.

Definition extends (now : Z) (a : Auction) : bool :=
  auto_extend_enabled a && (effectiveEndTime a - now <? extendThreshold a).

Definition accepted_auctions (now now' id amt : Z) (auction : Auction)
  (l : list Auction) : list Auction :=
  if extends now auction
  then extended id (now' + extendThreshold auction) (priced id amt l)
  else priced id amt l.

(** The rows of auction [id] with the winning flag cleared. *)
Definition unmark_auction (id : Z) (l : list Bid) : list Bid :=
  map (fun b => if auction_id b =? id then set_is_winning false b else b) l.

(** The entry points of the engine: the two socket handlers, the timer of
    [startMonitoring], the REST route, and the service methods called on
    their own. *)
Inductive Op :=
| place_bid (now now' : Z) (bidData : AuctionService.BidData)
| setup_auto_bid (auction user maxAmt : Z)
| tick (now : Z)
| post_bid (now : Z) (req : BidsRoute.Request)
| start_auction (now id : Z)
| end_auction (now id : Z)
| process_auto_bids (now now' id newBidAmount : Z).

Definition step (op : Op) (w : World) : World :=
  match op with
  | place_bid now now' d => snd (AuctionService.placeBid now now' d w)
  | setup_auto_bid a u m => snd (AuctionService.setupAutoBid a u m w)
  | tick now => snd (AuctionService.checkAuctionStatus now w)
  | post_bid now req => snd (BidsRoute.postBid now req w)
  | start_auction now id => snd (AuctionService.startAuction now id w)
  | end_auction now id => snd (AuctionService.endAuction now id w)
  | process_auto_bids now now' id amt =>
      snd (AuctionService.processAutoBids now now' id amt w)
  end.

Definition run (ops : list Op) (w : World) : World :=
  fold_left (fun w op => step op w) ops w.

(** A computation respects a relation on worlds when every run of it, thrown
    or returned, ends in a related world. *)
Definition respects (R : World -> World -> Prop) {A} (m : M A) : Prop :=
  forall w, R w (snd (m w)).

(** The [bids] table and its id counter are left alone. *)
Definition same_bids (w w' : World) : Prop :=
  bids (db w') = bids (db w) /\ next_bid_id w' = next_bid_id w.

(** The single-winner invariant is carried over, and ids only grow. *)
Definition keeps_single_winner (w w' : World) : Prop :=
  fresh_ids w -> single_winner w ->
  fresh_ids w' /\ single_winner w' /\ next_bid_id w <= next_bid_id w'.

(** An auction row and a later state of it: same id, same scheduled end,
    effective end time not earlier. *)
Definition not_earlier (a a' : Auction) : Prop :=
  a_id a' = a_id a /\ end_time a' = end_time a
  /\ effectiveEndTime a <= effectiveEndTime a'.

Definition end_times_le (w w' : World) : Prop :=
  Forall2 not_earlier (auctions (db w)) (auctions (db w')).

(** [auctions.id] is the primary key. *)
Definition unique_auction_ids (w : World) : Prop :=
  NoDup (map a_id (auctions (db w))).

Definition keeps_end_times (w w' : World) : Prop :=
  unique_auction_ids w -> end_times_le w w'.

(** The clock does not run backwards between the two readings of one
    [placeBid]. *)
Definition clock_ok (op : Op) : Prop :=
  match op with
  | place_bid now now' _ => now <= now'
  | process_auto_bids now now' _ _ => now <= now'
  | _ => True
  end.

(** A computation that never throws. *)
Definition returns {A} (m : M A) : Prop :=
  forall w, exists a, fst (m w) = Return a.

(** Everything of a world but its notifications and its emitted messages. *)
Definition core (w : World) :=
  (auctions (db w), properties (db w), users (db w), watchlists (db w),
   bids (db w), transactions (db w), audit_logs (db w),
   unique_winning_bid w, next_bid_id w, autoBids w, COMMISSION_PERCENTAGE w).

Definition same_core (w w' : World) : Prop := core w' = core w.

(** The row [endAuction] writes: [status = 'ended'], the result, the winning
    bid and [ended_at]. *)
Definition ended_row (now : Z) (res : AuctionResult) (winningBidId : option Z)
  (a : Auction) : Auction :=
  mkAuction (a_id a) (property_id a) (start_time a) (end_time a)
    (extended_end_time a) (reserve_price a) (current_price a)
    (bid_increment_percentage a) (current_bid_count a) ended
    (Some res) winningBidId (auto_extend_enabled a)
    (auto_extend_minutes a) (Some now).

(** The row [startAuction] writes: [status = 'live'] and [start_time]. *)
Definition started_row (now : Z) (a : Auction) : Auction :=
  mkAuction (a_id a) (property_id a) now (end_time a)
    (extended_end_time a) (reserve_price a) (current_price a)
    (bid_increment_percentage a) (current_bid_count a) live (result a)
    (winning_bid_id a) (auto_extend_enabled a) (auto_extend_minutes a)
    (ended_at a).

(** The settlement requests of auction [id]: its rows of [transactions]. *)
Definition settlements (id : Z) (w : World) : list Transaction :=
  filter (fun t => t_auction_id t =? id) (transactions (db w)).

(** The auction a message is about, and all a world holds about one
    auction: its row, its bids, its settlement requests, its notifications
    and the messages emitted for it. *)
Definition emit_auction (e : Emit) : Z :=
  match e with
  | auction_started i => i
  | auction_ended i _ _ _ => i
  | auction_extended i _ _ => i
  | bid_update i _ _ _ _ => i
  | notification _ _ i => i
  end.

Definition about (id : Z) (w : World) :=
  (filter (fun a => a_id a =? id) (auctions (db w)),
   filter (fun b => auction_id b =? id) (bids (db w)),
   settlements id w,
   filter (fun n => n_auction_id n =? id) (notifications (db w)),
   filter (fun e => emit_auction e =? id) (emitted w)).

Definition same_about (id : Z) (w w' : World) : Prop :=
  about id w' = about id w.

(** The decision of [endAuction], from the row read at its start and the
    winning bid [getWinningBid] returns. *)
Definition finalResult (auction : Auction) (winningBid : option Bid)
  : AuctionResult * option Z :=
  if 0 <? current_bid_count auction then
    match winningBid with
    | Some wb => if ge_String (toString (amount wb))
                                 (toString (reserve_price auction))
                 then (sold, Some (b_id wb))
                 else (reserve_not_met, None)
    | None => (reserve_not_met, None)
    end
  else (no_bids, None).

(** The rows [createTransaction] adds for an auction row and a bid row:
    one, unless the column refuses the text of the total or the
    commission. *)
Definition settlement_rows (w : World) (id bidId : Z) (auction : Auction)
  (bid : Bid) : list Transaction :=
  let commission :=
    Qceiling (fmul (round (inject_Z (current_price auction)))
                   (fdiv (AuctionService.commissionPercentage w) 100)) in
  match parse_int (String.append (toString (current_price auction))
                                 (toString commission)) with
  | Some total =>
      if in_BIGINT commission && in_BIGINT total
      then [mkTransaction (user_id bid) id bidId (current_price auction)
                          commission total]
      else []
  | None => []
  end.

(** The tables the joins of [getAuctionDetails] read are left alone. *)
Definition same_owners (w w' : World) : Prop :=
  properties (db w') = properties (db w) /\ users (db w') = users (db w).

(** Rows that differ in the winning flag at most. *)
Definition same_row (b b0 : Bid) : Prop :=
  b_id b = b_id b0 /\ auction_id b = auction_id b0 /\ user_id b = user_id b0
  /\ amount b = amount b0 /\ max_amount b = max_amount b0
  /\ bid_type b = bid_type b0.

(** A bid of type auto placed for a registered, active agent of the auction,
    at or under the agent's ceiling. *)
Definition by_agent (id : Z) (agents : list ((Z * Z) * AutoBid)) (b : Bid)
  : Prop :=
  exists key agent,
    In (key, agent) agents /\ fst key = id /\ ab_active agent = true
    /\ auction_id b = id /\ user_id b = ab_userId agent
    /\ bid_type b = auto /\ amount b <= maxAmount agent.

(** Every bid of [w] is a bid of [w0] or a bid placed for an agent of [w0]
    within its ceiling. *)
Definition within_ceilings (id : Z) (w0 w : World) : Prop :=
  forall b, In b (bids (db w)) ->
            (exists b0, In b0 (bids (db w0)) /\ same_row b b0)
            \/ by_agent id (autoBids w0) b.

Definition keeps_ceilings (id : Z) (w0 w1 w2 : World) : Prop :=
  within_ceilings id w0 w1 -> within_ceilings id w0 w2.

(** The body of the loop of [checkAuctionStatus], and the rows its query
    selects. *)
Definition tick_body (now : Z) (auction : Auction) : M unit :=
  when (is_scheduled (status auction) && (start_time auction <=? now))
       (AuctionService.startAuction now (a_id auction)) ;;;
  when (is_live (status auction) && (effectiveEndTime auction <=? now))
       (AuctionService.endAuction now (a_id auction)).

Definition activeAuctions (w : World) : list Auction :=
  filter (fun a => is_scheduled (status a) || is_live (status a))
         (auctions (db w)).

(** The number of rows of [bids] for auction [id], and for each auction row
    the gap between its [current_bid_count] and that number. *)
Definition bid_rows (id : Z) (l : list Bid) : Z :=
  Z.of_nat (List.length (filter (fun b => auction_id b =? id) l)).

Definition count_gaps (w : World) : list (Z * Z) :=
  map (fun a => (a_id a, current_bid_count a - bid_rows (a_id a) (bids (db w))))
      (auctions (db w)).

(** What bidding reads and writes of an auction row. A computation is quiet
    when it changes none of these fields and no row of [bids]. *)
Definition bidding_fields (a : Auction) : Z * Z * Z * Q :=
  (a_id a, current_price a, current_bid_count a, bid_increment_percentage a).

Definition quiet (w w' : World) : Prop :=
  map bidding_fields (auctions (db w')) = map bidding_fields (auctions (db w))
  /\ bids (db w') = bids (db w).

Definition same_count_gaps (w w' : World) : Prop :=
  count_gaps w' = count_gaps w.

(** Prices and increment percentages that are not negative, on rows with
    distinct ids; and a later state of the rows with no price lowered. *)
Definition prices_ok (w : World) : Prop :=
  unique_auction_ids w
  /\ Forall (fun a => 0 <= current_price a
                      /\ (0 <= bid_increment_percentage a)%Q)
            (auctions (db w)).

Definition price_le (a a' : Auction) : Prop :=
  a_id a' = a_id a /\ current_price a <= current_price a'.

Definition prices_le (w w' : World) : Prop :=
  Forall2 price_le (auctions (db w)) (auctions (db w')).

Definition keeps_prices (w w' : World) : Prop :=
  prices_ok w -> prices_ok w' /\ prices_le w w'.

(** The store [endAuction] relies on: ids of [bids] below a positive
    counter, and for every auction row that counts a bid a winning bid,
    returned by [getWinningBid] and found under its own id by
    [getBidDetails], whose amount is the row's current price. *)
Definition winner_ok (w : World) : Prop :=
  forall a, In a (auctions (db w)) -> 0 < current_bid_count a ->
    exists wb,
      fst (AuctionService.getWinningBid (a_id a) w) = Return (Some wb)
      /\ amount wb = current_price a
      /\ b_id wb <> 0
      /\ fst (AuctionService.getBidDetails (b_id wb) w) = Return (Some wb).

Definition bidding_ok (w : World) : Prop :=
  fresh_ids w /\ 0 < next_bid_id w /\ winner_ok w.

Definition keeps_bidding_ok (w w' : World) : Prop :=
  bidding_ok w -> bidding_ok w'.

(** What an agent is registered with: its key, auction, user, ceiling and
    active flag; all of an entry but [currentBid]. *)
Definition agent_fields (e : (Z * Z) * AutoBid) :=
  (fst e, ab_auctionId (snd e), ab_userId (snd e), maxAmount (snd e),
   ab_active (snd e)).

(** *** The seeded auction of the examples

    Reserve 320,000,000, increment 5 %, extension of 5 minutes, live from 0
    to 1,000,000,000 ms, at a given current price (350,000,000, the starting
    price, in [auction1]); user 1 owns the property, users 2 and 3 are
    verified bidders. *)
Definition auction_at (price : Z) : Auction :=
  mkAuction 1 1 0 1000000000 None 320000000 price 5 0 live None None
            true 5 None.

Definition world_at (price : Z) (unique : bool) : World :=
  mkWorld
    (mkTables [auction_at price] [mkProperty 1 1 350000000]
       [mkUser 1 active true; mkUser 2 active true; mkUser 3 active true]
       [] [] [] [] [])
    unique 1 [] [] None.

Definition auction1 : Auction := auction_at 350000000.
Definition world0 (unique : bool) : World := world_at 350000000 unique.

(** The minimum of section 4.2 of the specification, in its words:
    [currentPrice + max(configuredFloor, ceil(currentPrice x
    bidIncrementPercentage))], the percentage read as a percentage. *)
Definition spec_minAcceptable (configuredFloor currentPrice : Z)
  (bidIncrementPercentage : Q) : Z :=
  currentPrice
  + Z.max configuredFloor
          (Qceiling (inject_Z currentPrice * (bidIncrementPercentage / 100))).

(* ================================================================== *)
(** * Properties *)

Ltac run_m :=
  cbv beta delta [bind ret throw gets get modify try_catch transaction rollback
                  when emit update_auction insert_bid write_bids
                  AuctionService.createNotification AuctionService.notifyOutbid
                  AuctionService.getAuctionDetails AuctionService.getUserDetails
                  AuctionService.getWinningBid AuctionService.getBidDetails
                  with_db with_bids with_auctions with_next_bid_id with_emitted
                  with_autoBids with_notifications with_transactions
                  AuctionService.insert_audit_log] in *;
  cbn beta iota zeta delta [db unique_winning_bid next_bid_id emitted autoBids
     COMMISSION_PERCENTAGE auctions properties users watchlists bids
     transactions notifications audit_logs fst snd andb negb] in *.

Ltac break_match :=
  match goal with
  | |- context [match ?x with _ => _ end] =>
      lazymatch x with
      | context [match ?y with _ => _ end] => fail
      | _ => destruct x eqn:?
      end
  end.

Ltac use_eqns :=
  repeat match goal with
         | H : _ = true |- _ => rewrite H
         | H : _ = false |- _ => rewrite H
         end.

(** ** Texts and doubles *)

Lemma half_even_lower (a b : Z) : 0 < b -> a / b <= half_even a b.
Proof.
  intros Hb. unfold half_even.
  destruct (2 * (a mod b) <? b); [lia|].
  destruct (b <? 2 * (a mod b)); [lia|].
  destruct (Z.even (a / b)); lia.
Qed.

Lemma scaled_lower (n d : Z) :
  0 < n -> 0 < d ->
  let e := Z.log2 n - Z.log2 d - 53 in
  snd (scaled n d e) * 2 ^ 52 <= fst (scaled n d e).
Proof.
  intros Hn Hd e. unfold scaled. cbn [fst snd].
  pose proof (Z.log2_spec n Hn) as [Hn1 _].
  pose proof (Z.log2_spec d Hd) as [_ Hd2].
  pose proof (Z.log2_nonneg n) as Hln.
  pose proof (Z.log2_nonneg d) as Hld.
  fold (Z.succ (Z.log2 d)) in Hd2.
  assert (Hp : forall k, 0 <= k -> 0 < 2 ^ k) by (intros; apply Z.pow_pos_nonneg; lia).
  destruct (Z.le_gt_cases 0 e) as [He|He].
  - rewrite (Z.max_l 0 (- e)) by lia. rewrite (Z.max_r 0 e) by lia.
    rewrite Z.pow_0_r, Z.mul_1_r.
    assert (E : Z.log2 n = Z.succ (Z.log2 d) + e + 52) by (unfold e; lia).
    clearbody e. rewrite E in Hn1. rewrite !Z.pow_add_r in Hn1 by lia.
    pose proof (Hp e He). pose proof (Hp 52 ltac:(lia)). nia.
  - rewrite (Z.max_r 0 (- e)) by lia. rewrite (Z.max_l 0 e) by lia.
    rewrite Z.pow_0_r, Z.mul_1_r.
    assert (E : Z.log2 n + - e = Z.succ (Z.log2 d) + 52) by (unfold e; lia).
    clearbody e.
    assert (E2 : 2 ^ Z.log2 n * 2 ^ (- e) = 2 ^ Z.succ (Z.log2 d) * 2 ^ 52)
      by (rewrite <- !Z.pow_add_r by lia; rewrite E; reflexivity).
    pose proof (Hp (- e) ltac:(lia)). pose proof (Hp 52 ltac:(lia)). nia.
Qed.

(** The mantissa chosen by [round_pos] is at least 1, and twice the
    mantissa is above the scaled quotient. *)
Lemma round_pos_mantissa (n d : Z) :
  0 < n -> 0 < d ->
  let a := fst (scaled n d (exponent n d)) in
  let b := snd (scaled n d (exponent n d)) in
  0 < b /\ 0 < half_even a b /\ a <= 2 * half_even a b * b.
Proof.
  intros Hn Hd a b.
  assert (Hp : forall k, 0 <= k -> 0 < 2 ^ k) by (intros; apply Z.pow_pos_nonneg; lia).
  assert (Hb : forall e, 0 < snd (scaled n d e)).
  { intros e. unfold scaled. cbn [snd].
    pose proof (Hp (Z.max 0 e) ltac:(lia)). nia. }
  assert (Hq : 1 <= a / b).
  { unfold a, b, exponent.
    destruct (2 ^ 52 <=? _) eqn:E.
    - apply Z.leb_le in E. pose proof (Hp 52 ltac:(lia)). lia.
    - apply Z.div_le_lower_bound; [apply Hb|].
      pose proof (scaled_lower n d Hn Hd) as Hlow. cbv zeta in Hlow.
      pose proof (Hp 52 ltac:(lia)).
      pose proof (Hb (Z.log2 n - Z.log2 d - 53)). nia. }
  specialize (Hb (exponent n d)). fold b in Hb. clearbody a b.
  pose proof (half_even_lower a b Hb) as Hm.
  pose proof (Z.div_mod a b ltac:(lia)) as Hdm.
  pose proof (Z.mod_pos_bound a b Hb) as Hr.
  repeat split; [exact Hb|lia|nia].
Qed.

Lemma pow2_nonneg (m e : Z) : 0 <= m -> (0 <= pow2 m e)%Q.
Proof.
  intros Hm. unfold pow2. destruct (0 <=? e) eqn:E.
  - apply Z.leb_le in E. unfold Qle, inject_Z. cbn [Qnum Qden].
    pose proof (Z.pow_nonneg 2 e ltac:(lia)). nia.
  - unfold Qle. cbn [Qnum Qden]. lia.
Qed.

Lemma round_pos_bounds (n d : Z) :
  0 < n -> 0 < d ->
  (0 <= round_pos n d)%Q /\ (inject_Z n <= 2 * round_pos n d * inject_Z d)%Q.
Proof.
  intros Hn Hd.
  pose proof (round_pos_mantissa n d Hn Hd) as H. cbv zeta in H.
  unfold round_pos. cbv zeta.
  set (e := exponent n d) in *.
  set (m := half_even _ _) in *.
  destruct H as (Hb & Hm & Ha). split; [apply pow2_nonneg; lia|].
  assert (Hp : forall k, 0 <= k -> 0 < 2 ^ k) by (intros; apply Z.pow_pos_nonneg; lia).
  unfold scaled in Ha, Hb. cbn [fst snd] in Ha, Hb.
  unfold pow2. destruct (0 <=? e) eqn:E.
  - apply Z.leb_le in E.
    rewrite (Z.max_l 0 (- e)) in Ha by lia. rewrite (Z.max_r 0 e) in Ha by lia.
    rewrite Z.pow_0_r, Z.mul_1_r in Ha.
    unfold Qle, Qmult, inject_Z. cbn [Qnum Qden].
    rewrite !Pos2Z.inj_mul. nia.
  - apply Z.leb_gt in E.
    rewrite (Z.max_r 0 (- e)) in Ha by lia. rewrite (Z.max_l 0 e) in Ha by lia.
    rewrite Z.pow_0_r, Z.mul_1_r in Ha.
    pose proof (Hp (- e) ltac:(lia)) as Hpe.
    unfold Qle, Qmult, inject_Z. cbn [Qnum Qden].
    rewrite !Pos2Z.inj_mul, Z2Pos.id by exact Hpe. nia.
Qed.

Lemma round_nonneg (q : Q) : (0 <= q)%Q -> (0 <= round q)%Q.
Proof.
  intros Hq. unfold round. destruct q as [n d]. cbn [Qnum Qden].
  destruct n as [|p|p].
  - apply Qle_refl.
  - apply round_pos_bounds; reflexivity.
  - unfold Qle in Hq. cbn in Hq. lia.
Qed.

Lemma round_half (q : Q) : (0 <= q)%Q -> (q <= 2 * round q)%Q.
Proof.
  intros Hq. unfold round. destruct q as [n d]. cbn [Qnum Qden].
  destruct n as [|p|p].
  - unfold Qle. cbn. lia.
  - destruct (round_pos_bounds (Zpos p) (Zpos d)) as [H0 H]; [reflexivity..|].
    revert H0 H. generalize (round_pos (Z.pos p) (Z.pos d)). intros [rn rd].
    unfold Qle, Qmult, inject_Z. cbn [Qnum Qden].
    rewrite !Pos2Z.inj_mul. intros H0 H. nia.
  - unfold Qle in Hq. cbn in Hq. lia.
Qed.

Lemma half_even_upper (a b : Z) : 0 < b -> half_even a b <= a / b + 1.
Proof.
  intros Hb. unfold half_even.
  destruct (2 * (a mod b) <? b); [lia|].
  destruct (b <? 2 * (a mod b)); [lia|].
  destruct (Z.even (a / b)); lia.
Qed.

Lemma round_pos_mantissa_upper (n d : Z) :
  0 < n -> 0 < d ->
  let a := fst (scaled n d (exponent n d)) in
  let b := snd (scaled n d (exponent n d)) in
  half_even a b * b <= 2 * a.
Proof.
  intros Hn Hd a b.
  assert (Hp : forall k, 0 <= k -> 0 < 2 ^ k) by (intros; apply Z.pow_pos_nonneg; lia).
  assert (Hb : forall e, 0 < snd (scaled n d e)).
  { intros e. unfold scaled. cbn [snd].
    pose proof (Hp (Z.max 0 e) ltac:(lia)). nia. }
  assert (Hq : 1 <= a / b).
  { unfold a, b, exponent.
    destruct (2 ^ 52 <=? _) eqn:E.
    - apply Z.leb_le in E. pose proof (Hp 52 ltac:(lia)). lia.
    - apply Z.div_le_lower_bound; [apply Hb|].
      pose proof (scaled_lower n d Hn Hd) as Hlow. cbv zeta in Hlow.
      pose proof (Hp 52 ltac:(lia)).
      pose proof (Hb (Z.log2 n - Z.log2 d - 53)). nia. }
  specialize (Hb (exponent n d)). fold b in Hb. clearbody a b.
  pose proof (half_even_upper a b Hb) as Hm.
  pose proof (Z.div_mod a b ltac:(lia)) as Hdm.
  pose proof (Z.mod_pos_bound a b Hb) as Hr.
  nia.
Qed.

Lemma round_pos_upper (n d : Z) :
  0 < n -> 0 < d ->
  (round_pos n d * inject_Z d <= 2 * inject_Z n)%Q.
Proof.
  intros Hn Hd.
  pose proof (round_pos_mantissa_upper n d Hn Hd) as Ha. cbv zeta in Ha.
  pose proof (round_pos_mantissa n d Hn Hd) as H. cbv zeta in H.
  unfold round_pos. cbv zeta.
  set (e := exponent n d) in *.
  set (m := half_even _ _) in *.
  destruct H as (Hb & Hm & _).
  assert (Hp : forall k, 0 <= k -> 0 < 2 ^ k) by (intros; apply Z.pow_pos_nonneg; lia).
  unfold scaled in Ha, Hb. cbn [fst snd] in Ha, Hb.
  unfold pow2. destruct (0 <=? e) eqn:E.
  - apply Z.leb_le in E.
    rewrite (Z.max_l 0 (- e)) in Ha by lia. rewrite (Z.max_r 0 e) in Ha by lia.
    rewrite Z.pow_0_r, Z.mul_1_r in Ha.
    unfold Qle, Qmult, inject_Z. cbn [Qnum Qden]. nia.
  - apply Z.leb_gt in E.
    rewrite (Z.max_r 0 (- e)) in Ha by lia. rewrite (Z.max_l 0 e) in Ha by lia.
    rewrite Z.pow_0_r, Z.mul_1_r in Ha.
    pose proof (Hp (- e) ltac:(lia)) as Hpe.
    unfold Qle, Qmult, inject_Z. cbn [Qnum Qden].
    rewrite !Pos2Z.inj_mul, Z2Pos.id by exact Hpe. nia.
Qed.

Lemma round_double (q : Q) : (0 <= q)%Q -> (round q <= 2 * q)%Q.
Proof.
  intros Hq. unfold round. destruct q as [n d]. cbn [Qnum Qden].
  destruct n as [|p|p].
  - unfold Qle. cbn. lia.
  - pose proof (round_pos_upper (Zpos p) (Zpos d) eq_refl eq_refl) as H.
    revert H. generalize (round_pos (Z.pos p) (Z.pos d)). intros [rn rd].
    unfold Qle, Qmult, inject_Z. cbn [Qnum Qden].
    rewrite ?Pos2Z.inj_mul. intros H. nia.
  - unfold Qle in Hq. cbn in Hq. lia.
Qed.

Lemma digit_value_digit (k : Z) : 0 <= k < 10 -> digit_value (digit k) = Some k.
Proof.
  intros H.
  assert (E : k = 0 \/ k = 1 \/ k = 2 \/ k = 3 \/ k = 4 \/ k = 5 \/ k = 6
              \/ k = 7 \/ k = 8 \/ k = 9) by lia.
  repeat (destruct E as [->|E]; [reflexivity|]). subst k. reflexivity.
Qed.

Lemma parse_digits_app (s1 s2 : string) (acc : Z) :
  parse_digits (s1 ++ s2) acc
  = match parse_digits s1 acc with
    | Some a => parse_digits s2 a
    | None => None
    end.
Proof.
  revert acc. induction s1 as [|c s1 IH]; intros acc; cbn; [reflexivity|].
  destruct (digit_value c); [apply IH|reflexivity].
Qed.

Lemma length_append (s1 s2 : string) :
  String.length (s1 ++ s2) = (String.length s1 + String.length s2)%nat.
Proof. induction s1 as [|c s1 IH]; cbn; [reflexivity|now rewrite IH]. Qed.

Lemma digits_length (fuel : nat) (n : Z) :
  (1 <= String.length (digits (S fuel) n))%nat.
Proof.
  cbn [digits]. rewrite length_append. cbn. lia.
Qed.

Lemma parse_digits_digits (fuel : nat) (n acc : Z) :
  0 <= n < 10 ^ Z.of_nat fuel ->
  parse_digits (digits fuel n) acc
  = Some (acc * 10 ^ Z.of_nat (String.length (digits fuel n)) + n).
Proof.
  revert n acc. induction fuel as [|fuel IH]; intros n acc Hn.
  - cbn in *. f_equal. lia.
  - cbn [digits]. rewrite parse_digits_app.
    assert (Hm : 0 <= n mod 10 < 10) by (apply Z.mod_pos_bound; lia).
    rewrite length_append. cbn [String.length].
    rewrite Nat.add_1_r, Nat2Z.inj_succ, Z.pow_succ_r by lia.
    pose proof (Z.div_mod n 10 ltac:(lia)) as Hdm.
    destruct (n <? 10) eqn:E.
    + apply Z.ltb_lt in E. cbn [parse_digits String.length Z.of_nat].
      rewrite digit_value_digit by exact Hm.
      rewrite Z.mod_small by lia. f_equal. rewrite Z.pow_0_r. lia.
    + apply Z.ltb_ge in E. rewrite IH.
      * cbn [parse_digits]. rewrite digit_value_digit by exact Hm.
        f_equal. lia.
      * rewrite Nat2Z.inj_succ, Z.pow_succ_r in Hn by lia.
        split; [apply Z.div_pos; lia|].
        apply Z.div_lt_upper_bound; lia.
Qed.

Lemma fuel_enough (n : Z) : 0 <= n -> n < 10 ^ Z.of_nat (S (Z.to_nat (Z.log2 n))).
Proof.
  intros Hn. rewrite Nat2Z.inj_succ, Z2Nat.id by apply Z.log2_nonneg.
  destruct (Z.eq_dec n 0) as [->|Hz]; [cbn; lia|].
  pose proof (Z.log2_spec n ltac:(lia)) as [_ H].
  apply Z.lt_le_trans with (1 := H).
  apply Z.pow_le_mono_l. lia.
Qed.

Lemma toString_nonneg (n : Z) :
  0 <= n -> toString n = digits (S (Z.to_nat (Z.log2 n))) n.
Proof.
  intros Hn. unfold toString.
  destruct (n <? 0) eqn:E; [apply Z.ltb_lt in E; lia|reflexivity].
Qed.

Lemma parse_int_digits (s : string) (v : Z) :
  s <> EmptyString -> parse_digits s 0 = Some v -> parse_int s = Some v.
Proof.
  intros Hs H. destruct s as [|c s]; [congruence|].
  unfold parse_int. destruct (Ascii.eqb c "-") eqn:E; [|exact H].
  apply Ascii.eqb_eq in E. subst c. discriminate.
Qed.

(** The text of one non-negative integer followed by the text of another
    reads as the first shifted left by the length of the second. *)
Lemma parse_int_concat (p i : Z) :
  0 <= p -> 0 <= i ->
  exists k, 1 <= k
            /\ parse_int (toString p ++ toString i) = Some (p * 10 ^ k + i).
Proof.
  intros Hp Hi. rewrite !toString_nonneg by assumption.
  exists (Z.of_nat (String.length (digits (S (Z.to_nat (Z.log2 i))) i))).
  split; [pose proof (digits_length (Z.to_nat (Z.log2 i)) i); lia|].
  apply parse_int_digits.
  - cbn [digits]. destruct (if p <? 10 then _ else _); discriminate.
  - rewrite parse_digits_app, parse_digits_digits by (split; [lia|apply fuel_enough; lia]).
    rewrite parse_digits_digits by (split; [lia|apply fuel_enough; lia]).
    reflexivity.
Qed.

(** A bid that is not too low for [placeBid] is at least the current
    price: the text of the minimum starts with the text of the price, and a
    double is at least half the number it rounds. *)
Lemma not_too_low (amt price : Z) (pct : Q) :
  0 <= price -> (0 <= pct)%Q ->
  lt_Number_String amt (AuctionService.calculateMinBid price pct) = false ->
  price <= amt.
Proof.
  intros Hp Hq. unfold lt_Number_String, ToNumber, AuctionService.calculateMinBid.
  set (inc := Qceiling _).
  assert (Hi : 0 <= inc).
  { unfold inc. rewrite <- Qceiling_Z with (z := 0). apply Qceiling_resp_le.
    apply round_nonneg. apply Qmult_le_0_compat.
    - apply round_nonneg. unfold Qle. cbn. lia.
    - apply round_nonneg. unfold Qdiv. apply Qmult_le_0_compat.
      + apply round_nonneg. exact Hq.
      + unfold Qle. cbn. lia. }
  destruct (parse_int_concat price inc Hp Hi) as (k & Hk & E).
  rewrite E. cbn [option_map]. intros H. apply negb_false_iff in H.
  apply Qle_bool_iff in H.
  assert (H10 : 10 <= 10 ^ k).
  { change 10 with (10 ^ 1) at 1. apply Z.pow_le_mono_r; lia. }
  assert (HN : (0 <= inject_Z (price * 10 ^ k + inc))%Q).
  { unfold Qle, inject_Z. cbn [Qnum Qden]. nia. }
  pose proof (round_half _ HN) as Hh.
  assert (H2 : (inject_Z (price * 10 ^ k + inc) <= 2 * inject_Z amt)%Q).
  { eapply Qle_trans; [exact Hh|]. apply Qmult_le_l; [reflexivity|exact H]. }
  unfold Qle, Qmult, inject_Z in H2. cbn [Qnum Qden] in H2. nia.
Qed.

(** ** Running the monad *)

Lemma live_is_live (s : AuctionStatus) : is_live s = true <-> s = live.
Proof. destruct s; cbn; split; (reflexivity || discriminate). Qed.

(** The socket path, end to end. The call never returns: a rejection
    leaves the world as it was, a refused write leaves only the id counter
    advanced, and a bid that is committed, with exactly the four statements
    and the extension, is followed by the error of the audit INSERT. *)
Lemma placeBid_spec (now now' : Z) (d : AuctionService.BidData) (w : World) :
  match AuctionService.placeBid now now' d w with
  | (Return _, _) => False
  | (Throw e, w') =>
      (e = ER_BAD_FIELD_ERROR /\
       next_bid_id w' = next_bid_id w + 1 /\
       unique_winning_bid w' = unique_winning_bid w /\
       autoBids w' = autoBids w /\
       transactions (db w') = transactions (db w) /\
       audit_logs (db w') = audit_logs (db w) /\
       exists auction,
         fst (AuctionService.getAuctionDetails (AuctionService.auctionId d) w)
           = Return (Some auction) /\
         status auction = live /\
         lt_Number_String (AuctionService.bd_amount d)
           (AuctionService.calculateMinBid (current_price auction)
              (bid_increment_percentage auction)) = false /\
         bids (db w') =
           accepted_bids
             (mkBid (next_bid_id w) (AuctionService.auctionId d)
                    (AuctionService.userId d) (AuctionService.bd_amount d)
                    (AuctionService.bd_maxAmount d)
                    (AuctionService.bidType d) false)
             (bids (db w)) /\
         auctions (db w') =
           accepted_auctions now now' (AuctionService.auctionId d)
             (AuctionService.bd_amount d) auction (auctions (db w)))
      \/ (w' = w /\ e <> ER_DUP_ENTRY /\ e <> ER_BAD_FIELD_ERROR)
      \/ (e = ER_DUP_ENTRY /\ w' = with_next_bid_id (next_bid_id w + 1) w)
  end.
Proof.
  destruct w as [[au pr us wl bs tr no al] k n em ab c].
  unfold AuctionService.placeBid, accepted_bids, accepted_auctions, extends,
    extendThreshold, priced, extended.
  run_m.
  repeat (break_match; run_m).
  all: try (right; left; repeat split; (reflexivity || discriminate)).
  all: try (right; right; split; reflexivity).
  all: try discriminate.
  all: repeat match goal with
              | H : (_, _) = (_, _) |- _ => inversion H; clear H; subst
              end.
  all: try discriminate.
  all: left; repeat split; try reflexivity.
  all: match goal with a : Auction |- _ => exists a end.
  all: repeat split; try reflexivity.
  all: try (apply live_is_live; destruct (is_live _); (reflexivity || discriminate)).
  all: try assumption.
  all: use_eqns; reflexivity.
Qed.

(** A bid is committed when [placeBid] gets past its [commit]: the call
    then throws the error of the audit INSERT (and would return, did that
    statement succeed). *)
Lemma committed_spec (now now' : Z) (d : AuctionService.BidData)
  (w w' : World) (o : Outcome Z) :
  AuctionService.placeBid now now' d w = (o, w') -> committed o = true ->
  o = Throw ER_BAD_FIELD_ERROR /\
  next_bid_id w' = next_bid_id w + 1 /\
  unique_winning_bid w' = unique_winning_bid w /\
  autoBids w' = autoBids w /\
  transactions (db w') = transactions (db w) /\
  audit_logs (db w') = audit_logs (db w) /\
  exists auction,
    fst (AuctionService.getAuctionDetails (AuctionService.auctionId d) w)
      = Return (Some auction) /\
    status auction = live /\
    lt_Number_String (AuctionService.bd_amount d)
      (AuctionService.calculateMinBid (current_price auction)
         (bid_increment_percentage auction)) = false /\
    bids (db w') =
      accepted_bids
        (mkBid (next_bid_id w) (AuctionService.auctionId d)
               (AuctionService.userId d) (AuctionService.bd_amount d)
               (AuctionService.bd_maxAmount d)
               (AuctionService.bidType d) false)
        (bids (db w)) /\
    auctions (db w') =
      accepted_auctions now now' (AuctionService.auctionId d)
        (AuctionService.bd_amount d) auction (auctions (db w)).
Proof.
  intros E Hc. pose proof (placeBid_spec now now' d w) as H. rewrite E in H.
  destruct o as [x|e]; [contradiction|].
  destruct H as [H|[(_ & H1 & H2)|(-> & _)]]; [| |discriminate].
  - destruct H as (-> & H). split; [reflexivity|exact H].
  - destruct e; try discriminate; congruence.
Qed.

(** The REST path, end to end: a request that fails validation is answered
    with its errors, every other request with the error of the first
    statement that throws; the world is left as it was. *)
Lemma postBid_spec (now : Z) (req : BidsRoute.Request) (w : World) :
  (BidsRoute.validationResult req <> []
   /\ BidsRoute.postBid now req w
      = (Return (BidsRoute.Validation_errors (BidsRoute.validationResult req)),
         w))
  \/ (BidsRoute.validationResult req = []
      /\ exists e, BidsRoute.postBid now req w
                   = (Return (BidsRoute.Failed_to_place_bid e), w)).
Proof.
  unfold BidsRoute.postBid, try_catch, ret, throw.
  destruct (BidsRoute.validationResult req) eqn:E; cbn [negb].
  - right. split; [reflexivity|]. destruct (BidsRoute.req_user req); eauto.
  - left. split; [discriminate|reflexivity].
Qed.

Lemma postBid_noop (now : Z) (req : BidsRoute.Request) (w : World) :
  snd (BidsRoute.postBid now req w) = w.
Proof.
  destruct (postBid_spec now req w) as [[_ E]|(_ & e & E)]; now rewrite E.
Qed.

(* ------------------------------------------------------------------ *)
(** ** The winning flag *)

(** With a fresh id the two UPDATEs touch disjoint rows: the old rows of the
    auction lose the flag, the inserted row gains it. *)
Lemma accepted_bids_shape (nb : Bid) (l : list Bid) :
  Forall (fun b => b_id b < b_id nb) l ->
  accepted_bids nb l
  = unmark_auction (auction_id nb) l ++ [set_is_winning true nb].
Proof.
  intros Hfresh. unfold accepted_bids, mark_winning, unmark_others, unmark_auction.
  rewrite !map_app, map_map. f_equal.
  - apply map_ext_in. intros b Hb.
    rewrite Forall_forall in Hfresh. specialize (Hfresh b Hb).
    assert (Hne : (b_id b =? b_id nb) = false) by (apply Z.eqb_neq; lia).
    rewrite Hne. cbn [negb]. rewrite andb_true_r.
    destruct (auction_id b =? auction_id nb); cbn; now rewrite Hne.
  - cbn [map]. rewrite !Z.eqb_refl. cbn [negb andb].
    rewrite ?andb_false_r, ?Z.eqb_refl. reflexivity.
Qed.

Lemma winners_app (id : Z) (l1 l2 : list Bid) :
  winners id (l1 ++ l2) = (winners id l1 + winners id l2)%nat.
Proof. unfold winners. now rewrite filter_app, length_app. Qed.

Lemma has_bid_app (id : Z) (l1 l2 : list Bid) :
  has_bid id (l1 ++ l2) = has_bid id l1 || has_bid id l2.
Proof. apply existsb_app. Qed.

Lemma winners_unmark_same (id : Z) (l : list Bid) :
  winners id (unmark_auction id l) = 0%nat.
Proof.
  unfold winners, unmark_auction. induction l as [|b l IH]; [reflexivity|].
  cbn [map filter]. destruct (auction_id b =? id) eqn:E.
  - cbn. rewrite E. cbn. exact IH.
  - rewrite E. cbn. exact IH.
Qed.

Lemma winners_unmark_other (id id' : Z) (l : list Bid) :
  id <> id' -> winners id (unmark_auction id' l) = winners id l.
Proof.
  intros Hne. unfold winners, unmark_auction.
  induction l as [|b l IH]; [reflexivity|].
  cbn [map filter]. destruct (auction_id b =? id') eqn:E.
  - apply Z.eqb_eq in E. cbn [set_is_winning auction_id is_winning].
    assert (E' : (auction_id b =? id) = false) by (apply Z.eqb_neq; lia).
    rewrite E'. cbn. exact IH.
  - destruct ((auction_id b =? id) && is_winning b); cbn; now rewrite IH.
Qed.

Lemma has_bid_unmark (id id' : Z) (l : list Bid) :
  has_bid id (unmark_auction id' l) = has_bid id l.
Proof.
  unfold has_bid, unmark_auction. induction l as [|b l IH]; [reflexivity|].
  cbn [map existsb]. rewrite IH. now destruct (auction_id b =? id').
Qed.

(** One accepted bid: auction [auction_id nb] has exactly one winner
    afterwards, the inserted row; every other auction keeps its count. *)
Lemma winners_accepted (nb : Bid) (l : list Bid) (id : Z) :
  Forall (fun b => b_id b < b_id nb) l ->
  winners id (accepted_bids nb l)
  = if id =? auction_id nb then 1%nat else winners id l.
Proof.
  intros Hfresh. rewrite accepted_bids_shape by assumption.
  rewrite winners_app. destruct (id =? auction_id nb) eqn:E.
  - apply Z.eqb_eq in E. subst id. rewrite winners_unmark_same.
    unfold winners. cbn. now rewrite Z.eqb_refl.
  - apply Z.eqb_neq in E. rewrite winners_unmark_other by assumption.
    unfold winners at 2. cbn.
    assert (E' : (auction_id nb =? id) = false) by (apply Z.eqb_neq; lia).
    rewrite E'. cbn. lia.
Qed.

Lemma has_bid_accepted (nb : Bid) (l : list Bid) (id : Z) :
  Forall (fun b => b_id b < b_id nb) l ->
  has_bid id (accepted_bids nb l) = (id =? auction_id nb) || has_bid id l.
Proof.
  intros Hfresh. rewrite accepted_bids_shape by assumption.
  rewrite has_bid_app, has_bid_unmark. cbn. rewrite orb_false_r, orb_comm.
  now rewrite (Z.eqb_sym (auction_id nb) id).
Qed.

Lemma b_id_accepted (nb : Bid) (l : list Bid) :
  map b_id (accepted_bids nb l) = map b_id l ++ [b_id nb].
Proof.
  unfold accepted_bids, mark_winning, unmark_others.
  change [b_id nb] with (map b_id [nb]).
  rewrite !map_map, <- map_app. apply map_ext. intros b.
  destruct ((auction_id b =? auction_id nb) && negb (b_id b =? b_id nb)); cbn;
    match goal with |- context [if ?c then _ else _] => destruct c end;
    reflexivity.
Qed.

Lemma fresh_ids_accepted (w w' : World) (nb : Bid) :
  fresh_ids w ->
  b_id nb = next_bid_id w ->
  next_bid_id w' = next_bid_id w + 1 ->
  bids (db w') = accepted_bids nb (bids (db w)) ->
  fresh_ids w'.
Proof.
  unfold fresh_ids. intros Hf Hid Hn Hb.
  rewrite Forall_forall in *. intros b Hin.
  apply (in_map b_id) in Hin. rewrite Hb, b_id_accepted, in_app_iff in Hin.
  destruct Hin as [Hin|[Hin|[]]].
  - apply in_map_iff in Hin. destruct Hin as (b0 & E & Hin0).
    specialize (Hf b0 Hin0). lia.
  - lia.
Qed.

Lemma single_winner_accepted (w w' : World) (nb : Bid) :
  fresh_ids w -> single_winner w ->
  b_id nb = next_bid_id w ->
  bids (db w') = accepted_bids nb (bids (db w)) ->
  single_winner w'.
Proof.
  unfold single_winner, fresh_ids. intros Hf Hs Hid Hb id.
  rewrite Hb, winners_accepted, has_bid_accepted by (now rewrite Hid).
  destruct (id =? auction_id nb); cbn; [reflexivity|apply Hs].
Qed.

(* ------------------------------------------------------------------ *)
(** ** Relations respected by every statement of a computation *)

Section Respects.

Context (R : World -> World -> Prop) {HR : PreOrder R}.

Lemma respects_ret {A} (a : A) : respects R (ret a).
Proof. intros w. cbn. reflexivity. Qed.

Lemma respects_throw {A} (e : Error) : respects R (@throw A e).
Proof. intros w. cbn. reflexivity. Qed.

Lemma respects_gets {A} (f : World -> A) : respects R (gets f).
Proof. intros w. cbn. reflexivity. Qed.

Lemma respects_modify (f : World -> World) :
  (forall w, R w (f w)) -> respects R (modify f).
Proof. intros H w. cbn. apply H. Qed.

Lemma respects_bind {A B} (m : M A) (k : A -> M B) :
  respects R m -> (forall a, respects R (k a)) -> respects R (bind m k).
Proof.
  intros Hm Hk w. unfold bind. specialize (Hm w).
  destruct (m w) as [[a|e] w1]; cbn in *.
  - etransitivity; [exact Hm|apply Hk].
  - exact Hm.
Qed.

Lemma respects_try_catch {A} (m : M A) (h : Error -> M A) :
  respects R m -> (forall e, respects R (h e)) -> respects R (try_catch m h).
Proof.
  intros Hm Hh w. unfold try_catch. specialize (Hm w).
  destruct (m w) as [[a|e] w1]; cbn in *.
  - exact Hm.
  - etransitivity; [exact Hm|apply Hh].
Qed.

Lemma respects_when (b : bool) (m : M unit) :
  respects R m -> respects R (when b m).
Proof. intros Hm. destruct b; cbn; [exact Hm|apply respects_ret]. Qed.

Lemma respects_postBid (now : Z) (req : BidsRoute.Request) :
  respects R (BidsRoute.postBid now req).
Proof. intros w. rewrite postBid_noop. reflexivity. Qed.

Lemma respects_insert_transaction (u a b amt c : Z) (total : string) :
  (forall t, t_auction_id t = a ->
     forall w, R w (with_db (with_transactions (fun l => l ++ [t])) w)) ->
  respects R (AuctionService.insert_transaction u a b amt c total).
Proof.
  intros H. unfold AuctionService.insert_transaction.
  destruct (parse_int total); [|apply respects_throw].
  destruct (negb _); [apply respects_throw|].
  apply respects_modify. intros w. now apply H.
Qed.

Lemma respects_forEach {A} (l : list A) (body : A -> M unit) :
  (forall x, In x l -> respects R (body x)) -> respects R (forEach l body).
Proof.
  induction l as [|x l IH]; intros Hb; cbn [forEach].
  - apply respects_ret.
  - apply respects_bind.
    + apply Hb. now left.
    + intros _. apply IH. intros y Hy. apply Hb. now right.
Qed.

End Respects.

Create HintDb respects.

Ltac prove_PreOrder :=
  try match goal with |- PreOrder _ => typeclasses eauto end.

Ltac respects_step :=
  first
    [ match goal with |- PreOrder _ => typeclasses eauto end
    | solve [auto with respects]
    | apply respects_ret
    | apply respects_throw
    | apply respects_gets
    | apply respects_when
    | apply respects_bind; [..|intros ?]
    | apply respects_try_catch; [..|intros ?]
    | apply respects_forEach; [..|intros ? ?]
    | apply respects_insert_transaction; [..|intros ? ?]
    | match goal with
      | |- respects _ (match ?x with _ => _ end) => destruct x
      | |- respects _ (let (_, _) := ?x in _) => destruct x
      end ].

#[local] Instance same_bids_PreOrder : PreOrder same_bids.
Proof.
  split.
  - intros w. split; reflexivity.
  - intros a b c [H1 H2] [H3 H4]. split; congruence.
Qed.

#[local] Instance keeps_single_winner_PreOrder : PreOrder keeps_single_winner.
Proof.
  split.
  - intros w Hf Hs. repeat split; (assumption || lia).
  - intros a b c H1 H2 Hf Hs.
    destruct (H1 Hf Hs) as (Hf1 & Hs1 & Hn1).
    destruct (H2 Hf1 Hs1) as (Hf2 & Hs2 & Hn2).
    repeat split; (assumption || lia).
Qed.

Lemma same_bids_keeps (w w' : World) :
  same_bids w w' -> keeps_single_winner w w'.
Proof.
  intros [Hb Hn] Hf Hs. unfold fresh_ids, single_winner in *.
  rewrite Hb, Hn. repeat split; (assumption || lia).
Qed.

Lemma respects_same_bids_keeps {A} (m : M A) :
  respects same_bids m -> respects keeps_single_winner m.
Proof. intros H w. apply same_bids_keeps, H. Qed.

(** *** Statements that leave [bids] alone *)

Lemma emit_same_bids (e : Emit) : respects same_bids (emit e).
Proof. intros w. split; reflexivity. Qed.
#[local] Hint Resolve emit_same_bids : respects.

Lemma update_auction_same_bids (id : Z) (f : Auction -> Auction) :
  respects same_bids (update_auction id f).
Proof. intros w. split; reflexivity. Qed.
#[local] Hint Resolve update_auction_same_bids : respects.

Lemma createNotification_same_bids (u : Z) (t : NotificationType) (a : Z) :
  respects same_bids (AuctionService.createNotification u t a).
Proof. intros w. split; reflexivity. Qed.
#[local] Hint Resolve createNotification_same_bids : respects.

Lemma notifyAuctionStart_same_bids (id : Z) :
  respects same_bids (AuctionService.notifyAuctionStart id).
Proof.
  unfold AuctionService.notifyAuctionStart.
  repeat respects_step.
Qed.
#[local] Hint Resolve notifyAuctionStart_same_bids : respects.

Lemma notifyAuctionEnd_same_bids (id : Z) (r : AuctionResult) (b : option Z) :
  respects same_bids (AuctionService.notifyAuctionEnd id r b).
Proof.
  unfold AuctionService.notifyAuctionEnd, AuctionService.getWinningBid.
  repeat respects_step.
Qed.
#[local] Hint Resolve notifyAuctionEnd_same_bids : respects.

Lemma createTransaction_same_bids (id bidId : Z) :
  respects same_bids (AuctionService.createTransaction id bidId).
Proof.
  unfold AuctionService.createTransaction, AuctionService.getAuctionDetails,
    AuctionService.getBidDetails.
  repeat respects_step.
  intros w. split; reflexivity.
Qed.
#[local] Hint Resolve createTransaction_same_bids : respects.

Lemma startAuction_same_bids (now id : Z) :
  respects same_bids (AuctionService.startAuction now id).
Proof.
  unfold AuctionService.startAuction.
  repeat respects_step.
Qed.
#[local] Hint Resolve startAuction_same_bids : respects.

Lemma endAuction_same_bids (now id : Z) :
  respects same_bids (AuctionService.endAuction now id).
Proof.
  unfold AuctionService.endAuction, AuctionService.getAuctionDetails,
    AuctionService.getWinningBid.
  repeat respects_step.
Qed.
#[local] Hint Resolve endAuction_same_bids : respects.

Lemma checkAuctionStatus_same_bids (now : Z) :
  respects same_bids (AuctionService.checkAuctionStatus now).
Proof.
  unfold AuctionService.checkAuctionStatus.
  repeat respects_step.
Qed.
#[local] Hint Resolve checkAuctionStatus_same_bids : respects.

Lemma setupAutoBid_same_bids (a u m : Z) :
  respects same_bids (AuctionService.setupAutoBid a u m).
Proof.
  unfold AuctionService.setupAutoBid.
  repeat respects_step. apply respects_modify. intros w. split; reflexivity.
Qed.
#[local] Hint Resolve setupAutoBid_same_bids : respects.

(** *** Accepted bids carry the invariant *)

Lemma fresh_ids_next (w : World) :
  fresh_ids w -> fresh_ids (with_next_bid_id (next_bid_id w + 1) w).
Proof.
  unfold fresh_ids. cbn. intros H. eapply Forall_impl; [|exact H].
  cbn. intros b Hb. lia.
Qed.

Lemma placeBid_keeps (now now' : Z) (d : AuctionService.BidData) :
  respects keeps_single_winner (AuctionService.placeBid now now' d).
Proof.
  intros w Hf Hs. pose proof (placeBid_spec now now' d w) as H.
  destruct (AuctionService.placeBid now now' d w) as [[bidId|e] w']; cbn;
    [contradiction|].
  destruct H as [(_ & Hn & _ & _ & _ & _ & auction & _ & _ & _ & Hb & _)
                |[(-> & _)|(_ & ->)]].
  - repeat split.
    + eapply fresh_ids_accepted; [exact Hf| |exact Hn|exact Hb]. reflexivity.
    + eapply single_winner_accepted; [exact Hf|exact Hs| |exact Hb]. reflexivity.
    + lia.
  - repeat split; (assumption || lia).
  - repeat split; [now apply fresh_ids_next|exact Hs|cbn; lia].
Qed.

Lemma postBid_keeps (now : Z) (req : BidsRoute.Request) :
  respects keeps_single_winner (BidsRoute.postBid now req).
Proof. apply respects_postBid; typeclasses eauto. Qed.

#[local] Hint Resolve placeBid_keeps postBid_keeps : respects.
#[local] Hint Resolve respects_same_bids_keeps : respects.

Lemma processAutoBids_keeps (now now' id amt : Z) :
  respects keeps_single_winner (AuctionService.processAutoBids now now' id amt).
Proof.
  unfold AuctionService.processAutoBids.
  repeat respects_step.
  rename a into entries. generalize amt.
  induction entries as [|[key autoBid] l IH]; intros amt';
    cbn [AuctionService.autoBids_loop].
  - repeat respects_step.
  - destruct (_ <=? _); [|apply IH].
    repeat respects_step.
    apply respects_same_bids_keeps. intros w. split; reflexivity.
Qed.

Lemma step_keeps (op : Op) (w : World) : keeps_single_winner w (step op w).
Proof.
  destruct op; cbn [step].
  - apply placeBid_keeps.
  - apply respects_same_bids_keeps, setupAutoBid_same_bids.
  - apply respects_same_bids_keeps, checkAuctionStatus_same_bids.
  - apply postBid_keeps.
  - apply respects_same_bids_keeps, startAuction_same_bids.
  - apply respects_same_bids_keeps, endAuction_same_bids.
  - apply processAutoBids_keeps.
Qed.

Lemma run_keeps (ops : list Op) (w : World) : keeps_single_winner w (run ops w).
Proof.
  revert w. induction ops as [|op ops IH]; intros w; cbn [run fold_left].
  - reflexivity.
  - etransitivity; [apply step_keeps|apply IH].
Qed.

(** After an acceptance the flag of a row of the auction tells whether it is
    the inserted row. *)
Lemma accepted_flags (nb : Bid) (l : list Bid) (b : Bid) :
  Forall (fun b => b_id b < b_id nb) l ->
  In b (accepted_bids nb l) ->
  auction_id b = auction_id nb ->
  is_winning b = (b_id b =? b_id nb).
Proof.
  intros Hfresh Hin Ha. rewrite accepted_bids_shape in Hin by assumption.
  apply in_app_iff in Hin. destruct Hin as [Hin|[<-|[]]].
  - unfold unmark_auction in Hin. apply in_map_iff in Hin.
    destruct Hin as (b0 & Hb0 & Hin0).
    rewrite Forall_forall in Hfresh. specialize (Hfresh b0 Hin0).
    destruct (auction_id b0 =? auction_id nb) eqn:E; subst b.
    + cbn. symmetry. apply Z.eqb_neq. lia.
    + apply Z.eqb_neq in E. contradiction.
  - cbn. now rewrite Z.eqb_refl.
Qed.

(* ------------------------------------------------------------------ *)
(** ** C1: one winning bid per auction *)

(** C1. Starting from a store whose bid ids are below the counter and whose
    auctions have one flagged row when they have rows and none otherwise
    (an empty [bids] table, for one), every sequence of engine operations
    ends in such a store: an auction with a bid row has exactly one row with
    [is_winning = TRUE], an auction with none has zero. Moreover each
    acceptance, on the socket path and on the REST path, leaves exactly one
    flagged row in the auction, and a row of the auction is flagged exactly
    when it is the row just inserted; so does each bid [placeBid] commits,
    whatever the call then reports. *)
Theorem single_winner_after_every_acceptance (ops : list Op) (w0 : World) :
  fresh_ids w0 -> single_winner w0 ->
  let w := run ops w0 in
  single_winner w /\
  (forall now now' d bidId w',
     AuctionService.placeBid now now' d w = (Return bidId, w') ->
     winners (AuctionService.auctionId d) (bids (db w')) = 1%nat /\
     forall b, In b (bids (db w')) ->
               auction_id b = AuctionService.auctionId d ->
               is_winning b = (b_id b =? bidId)) /\
  (forall now req bidId w',
     BidsRoute.postBid now req w
       = (Return (BidsRoute.Bid_placed_successfully bidId), w') ->
     winners (BidsRoute.auctionId req) (bids (db w')) = 1%nat /\
     forall b, In b (bids (db w')) ->
               auction_id b = BidsRoute.auctionId req ->
               is_winning b = (b_id b =? bidId)) /\
  (forall now now' d o w',
     AuctionService.placeBid now now' d w = (o, w') -> committed o = true ->
     winners (AuctionService.auctionId d) (bids (db w')) = 1%nat /\
     forall b, In b (bids (db w')) ->
               auction_id b = AuctionService.auctionId d ->
               is_winning b = (b_id b =? next_bid_id w)).
Proof.
  intros Hf0 Hs0 w.
  destruct (run_keeps ops w0 Hf0 Hs0) as (Hf & Hs & _). fold w in Hf, Hs.
  split; [exact Hs|]. split; [|split].
  - intros now now' d bidId w' E.
    pose proof (placeBid_spec now now' d w) as H. rewrite E in H.
    contradiction.
  - intros now req bidId w' E.
    destruct (postBid_spec now req w) as [[_ E']|(_ & e & E')];
      rewrite E' in E; discriminate.
  - intros now now' d o w' E Hc.
    destruct (committed_spec _ _ _ _ _ _ E Hc)
      as (_ & _ & _ & _ & _ & _ & auction & _ & _ & _ & Hb & _).
    rewrite Hb. split.
    + rewrite winners_accepted by exact Hf. cbn. now rewrite Z.eqb_refl.
    + intros b Hin Ha. eapply accepted_flags in Hin; [exact Hin|exact Hf|exact Ha].
Qed.

Lemma single_winner_witness :
  let ops := [place_bid 10 10
                (AuctionService.mkBidData 1 2 35000000017500000 normal 0);
              post_bid 20 (BidsRoute.mkRequest (Some 3) 1 390000000 None 0)] in
  (fresh_ids (world0 true) /\ single_winner (world0 true)) /\
  winners 1 (bids (db (run ops (world0 true)))) = 1%nat /\
  single_winner (run ops (world0 true)).
Proof.
  intros ops.
  assert (Hf : fresh_ids (world0 true)) by constructor.
  assert (Hs : single_winner (world0 true)) by (intros id; reflexivity).
  split; [split; assumption|]. split; [vm_compute; reflexivity|].
  exact (proj1 (single_winner_after_every_acceptance ops (world0 true) Hf Hs)).
Defined.

(* ------------------------------------------------------------------ *)
(** ** C2: the minimum acceptable bid *)

Lemma Qceiling_nonneg (q : Q) : (0 <= q)%Q -> 0 <= Qceiling q.
Proof.
  intros H. pose proof (Qle_ceiling q) as Hc.
  assert (H0 : (inject_Z 0 <= inject_Z (Qceiling q))%Q)
    by (eapply Qle_trans; [exact H|exact Hc]).
  now rewrite <- Zle_Qle in H0.
Qed.

(** C2. On the socket path the minimum is not [currentPrice + increment]
    but the text of the price followed by the text of the increment, read
    back as a number: [placeBid] refuses a bid as too low exactly when its
    amount is below that number, and commits no bid below it. On the seeded
    auction (350,000,000 at 5 %, where the specification's minimum is
    367,500,000) the minimum asked is 35000000017500000: bids of
    360,000,000 and of 368,000,000 are both refused with that message and
    change nothing, and a bid of 35,000,000,017,500,000 is committed and
    becomes the current price. At 7 % the increment of 350,000,000 is
    24,500,001, the product being a double. The REST path accepts no bid at
    all: a request that passes validation is answered 500. *)
Theorem minimum_bid_of_each_path :
  (forall now now' d w auction,
     fst (AuctionService.getAuctionDetails (AuctionService.auctionId d) w)
       = Return (Some auction) ->
     status auction = live ->
     let increment :=
       Qceiling (fmul (round (inject_Z (current_price auction)))
                      (fdiv (round (bid_increment_percentage auction)) 100)) in
     let minBid :=
       String.append (toString (current_price auction)) (toString increment) in
     (lt_Number_String (AuctionService.bd_amount d) minBid = true ->
      AuctionService.placeBid now now' d w
        = (Throw (Bid_must_be_at_least minBid), w)
      /\ kind_of_error (Bid_must_be_at_least minBid) = Some BidTooLow)
     /\ (forall o w',
           AuctionService.placeBid now now' d w = (o, w') ->
           committed o = true ->
           lt_Number_String (AuctionService.bd_amount d) minBid = false))
  /\ (forall now req w,
        exists r, BidsRoute.postBid now req w = (Return r, w)
                  /\ forall bidId, r <> BidsRoute.Bid_placed_successfully bidId)
  /\ (forall unique,
        let w := world0 unique in
        let low := AuctionService.mkBidData 1 2 360000000 normal 0 in
        let ok := AuctionService.mkBidData 1 2 368000000 normal 0 in
        let asked := AuctionService.mkBidData 1 2 35000000017500000 normal 0 in
        spec_minAcceptable 0 350000000 5 = 367500000
        /\ AuctionService.placeBid 10 10 low w
           = (Throw (Bid_must_be_at_least "35000000017500000"), w)
        /\ AuctionService.placeBid 10 10 ok w
           = (Throw (Bid_must_be_at_least "35000000017500000"), w)
        /\ committed (fst (AuctionService.placeBid 10 10 asked w)) = true
        /\ map current_price
               (auctions (db (snd (AuctionService.placeBid 10 10 asked w))))
           = [35000000017500000]
        /\ BidsRoute.postBid 10
             (BidsRoute.mkRequest (Some 2) 1 368000000 None 0) w
           = (Return (BidsRoute.Failed_to_place_bid ReferenceError_db), w)
        /\ BidsRoute.postBid 10
             (BidsRoute.mkRequest None 1 368000000 None 0) w
           = (Return (BidsRoute.Failed_to_place_bid TypeError_undefined), w))
  /\ AuctionService.calculateMinBid 350000000 7 = "35000000024500001"%string.
Proof.
  split; [|split; [|split]].
  - intros now now' d w auction Ha Hl increment minBid. split.
    + intros Hlow. split; [|reflexivity].
      unfold AuctionService.placeBid. run_m.
      injection Ha as Ha. rewrite Ha, Hl. cbn [is_live].
      unfold AuctionService.calculateMinBid. fold increment. fold minBid.
      now rewrite Hlow.
    + intros o w' E Hc.
      destruct (committed_spec _ _ _ _ _ _ E Hc)
        as (_ & _ & _ & _ & _ & _ & a & Ha' & _ & Hmin & _).
      rewrite Ha in Ha'. injection Ha' as <-. exact Hmin.
  - intros now req w.
    destruct (postBid_spec now req w) as [[_ E]|(_ & e & E)];
      rewrite E; eexists; (split; [reflexivity|discriminate]).
  - intros [|]; vm_compute; repeat split.
  - vm_compute. reflexivity.
Qed.

(* ------------------------------------------------------------------ *)
(** ** C3: bids on an auction that is not active *)

(** X1. [placeBid] throws [Auction is not active] on every bid whose auction
    [getAuctionDetails] does not find or finds in a status other than live,
    and leaves the world as it was. *)
Lemma placeBid_rejects_not_live (now now' : Z) (d : AuctionService.BidData)
  (w : World) :
  (forall a,
     fst (AuctionService.getAuctionDetails (AuctionService.auctionId d) w)
       = Return (Some a) -> status a <> live) ->
  AuctionService.placeBid now now' d w = (Throw Auction_is_not_active, w).
Proof.
  intros H. unfold AuctionService.placeBid. run_m.
  destruct (hd_error _) as [a|]; [|reflexivity].
  specialize (H a eq_refl). destruct (status a); try reflexivity.
  now contradiction H.
Qed.

(** C3. [placeBid] tests the status and never the clock. On the seeded
    auction, still live one millisecond after its effective end time, a bid
    of the amount the code asks for is committed: it is recorded as the
    winning bid, it becomes the current price, the end time moves to five
    minutes after the bid and the bid is broadcast; the call then throws
    the error of the audit INSERT, an error of no kind of the
    specification. On a live auction no bid is ever refused as
    [Auction is not active]. *)
Theorem placeBid_accepts_after_effective_end :
  (forall unique,
     let w := world0 unique in
     let now := 1000000001 in
     let r := AuctionService.placeBid now now
                (AuctionService.mkBidData 1 2 35000000017500000 normal 0) w in
     fst (AuctionService.getAuctionDetails 1 w) = Return (Some auction1)
     /\ status auction1 = live
     /\ effectiveEndTime auction1 < now
     /\ fst r = Throw ER_BAD_FIELD_ERROR
     /\ kind_of_error ER_BAD_FIELD_ERROR = None
     /\ bids (db (snd r)) = [mkBid 1 1 2 35000000017500000 0 normal true]
     /\ map current_price (auctions (db (snd r))) = [35000000017500000]
     /\ map effectiveEndTime (auctions (db (snd r))) = [now + 300000]
     /\ emitted (snd r)
        = [auction_extended 1 (now + 300000) 5;
           bid_update 1 1 2 35000000017500000 normal])
  /\ (forall now now' d w auction,
        fst (AuctionService.getAuctionDetails (AuctionService.auctionId d) w)
          = Return (Some auction) ->
        status auction = live ->
        fst (AuctionService.placeBid now now' d w)
        <> Throw Auction_is_not_active).
Proof.
  split.
  - intros [|]; vm_compute; repeat split.
  - intros now now' d w auction Ha Hl.
    destruct w as [[au pr us wl bs tr no al] k n em ab c].
    unfold AuctionService.placeBid. run_m.
    injection Ha as Ha. rewrite Ha, Hl. cbn [is_live].
    repeat (break_match; run_m). all: discriminate.
Qed.

(* ------------------------------------------------------------------ *)
(** ** C4: a second bid by the current winner *)

(** C4. [placeBid] never looks at who holds the winning bid. On the seeded
    auction bidder 2 holds the winning bid of 35,000,000,017,500,000 and
    bids 40,000,000,000,000,000, above the specification's minimum of
    36,750,000,018,375,000: the bid is refused as too low, with the same
    message a bid of bidder 3 gets. On an auction that started from a
    current price of 0, bidder 2 holds the winning bid of 368,000,000 and
    bids the 36,800,000,018,400,000 the code asks for: with the unique key
    of the schema the UPDATE that clears the old flag is refused as a
    duplicate entry, an error of no kind of the specification, as it is
    for bidder 3; without the key the second bid of bidder 2 is committed
    and recorded. No error of [placeBid] is of the kind
    AlreadyHighestBidder. *)
Theorem placeBid_ignores_current_winner :
  (let first := AuctionService.mkBidData 1 2 35000000017500000 normal 0 in
   let again := AuctionService.mkBidData 1 2 40000000000000000 normal 0 in
   let other := AuctionService.mkBidData 1 3 40000000000000000 normal 0 in
   let w1 := snd (AuctionService.placeBid 10 10 first (world0 true)) in
   fst (AuctionService.getWinningBid 1 w1)
     = Return (Some (mkBid 1 1 2 35000000017500000 0 normal true))
   /\ spec_minAcceptable 0 35000000017500000 5 = 36750000018375000
   /\ AuctionService.placeBid 20 20 again w1
      = (Throw (Bid_must_be_at_least "350000000175000001750000000875000"), w1)
   /\ AuctionService.placeBid 20 20 other w1
      = (Throw (Bid_must_be_at_least "350000000175000001750000000875000"), w1))
  /\ (let first := AuctionService.mkBidData 1 2 368000000 normal 0 in
      let again := AuctionService.mkBidData 1 2 36800000018400000 normal 0 in
      let other := AuctionService.mkBidData 1 3 36800000018400000 normal 0 in
      (let w1 := snd (AuctionService.placeBid 10 10 first (world_at 0 true)) in
       fst (AuctionService.getWinningBid 1 w1)
         = Return (Some (mkBid 1 1 2 368000000 0 normal true))
       /\ fst (AuctionService.placeBid 20 20 again w1) = Throw ER_DUP_ENTRY
       /\ fst (AuctionService.placeBid 20 20 other w1) = Throw ER_DUP_ENTRY
       /\ kind_of_error ER_DUP_ENTRY = None
       /\ bids (db (snd (AuctionService.placeBid 20 20 again w1)))
          = bids (db w1))
      /\ (let w1 := snd (AuctionService.placeBid 10 10 first
                           (world_at 0 false)) in
          fst (AuctionService.getWinningBid 1 w1)
            = Return (Some (mkBid 1 1 2 368000000 0 normal true))
          /\ committed (fst (AuctionService.placeBid 20 20 again w1)) = true
          /\ bids (db (snd (AuctionService.placeBid 20 20 again w1)))
             = [mkBid 1 1 2 368000000 0 normal false;
                mkBid 2 1 2 36800000018400000 0 normal true]))
  /\ (forall now now' d w e,
        fst (AuctionService.placeBid now now' d w) = Throw e ->
        kind_of_error e <> Some AlreadyHighestBidder).
Proof.
  split; [vm_compute; repeat split|]. split; [vm_compute; repeat split|].
  intros now now' d w e _. destruct e; discriminate.
Qed.

(* ------------------------------------------------------------------ *)
(** ** C9: automatic counter-bids *)

(** C9. Nothing in [placeBid] calls [processAutoBids], and nothing else
    does: a bid that is committed appends the submitted row and no other,
    and leaves the registered agents as they were. *)
Theorem placeBid_places_no_counter_bid (now now' : Z)
  (d : AuctionService.BidData) (w w' : World) (o : Outcome Z) :
  AuctionService.placeBid now now' d w = (o, w') -> committed o = true ->
  map (fun b => (b_id b, user_id b, amount b)) (bids (db w'))
  = map (fun b => (b_id b, user_id b, amount b)) (bids (db w))
    ++ [(next_bid_id w, AuctionService.userId d, AuctionService.bd_amount d)]
  /\ autoBids w' = autoBids w.
Proof.
  intros E Hc.
  destruct (committed_spec _ _ _ _ _ _ E Hc)
    as (_ & _ & _ & Hab & _ & _ & a & _ & _ & _ & Hb & _).
  split; [|exact Hab]. rewrite Hb.
  unfold accepted_bids, mark_winning, unmark_others.
  rewrite !map_map.
  match goal with |- _ = ?l ++ [?x] =>
    change (l ++ [x]) with
      (l ++ map (fun b => (b_id b, user_id b, amount b))
                [mkBid (next_bid_id w) (AuctionService.auctionId d)
                       (AuctionService.userId d) (AuctionService.bd_amount d)
                       (AuctionService.bd_maxAmount d)
                       (AuctionService.bidType d) false])
  end.
  rewrite <- map_app. apply map_ext. intros b.
  destruct (_ && _); cbn;
    match goal with |- context [if ?c then _ else _] => destruct c end;
    reflexivity.
Qed.

(** On the seeded auction bidder 2 registers a ceiling of
    40,000,000,000,000,000 and bidder 3 bids 35,000,000,017,500,000: the
    bid is committed and stays the only row. A pass of [processAutoBids]
    run by hand adds none either: the 36,750,000,018,375,000 it computes
    for bidder 2 is refused by [placeBid] as too low. *)
Lemma placeBid_places_no_counter_bid_witness :
  let w1 := snd (AuctionService.setupAutoBid 1 2 40000000000000000
                   (world0 true)) in
  let d := AuctionService.mkBidData 1 3 35000000017500000 normal 0 in
  let w2 := snd (AuctionService.placeBid 10 10 d w1) in
  autoBids w1 = [((1, 2), mkAutoBid 1 2 40000000000000000 0 true)]
  /\ (AuctionService.placeBid 10 10 d w1 = (Throw ER_BAD_FIELD_ERROR, w2)
      /\ committed (Throw ER_BAD_FIELD_ERROR) = true)
  /\ map (fun b => (b_id b, user_id b, amount b)) (bids (db w2))
     = [(1, 3, 35000000017500000)]
  /\ autoBids w2 = autoBids w1
  /\ AuctionService.calculateNextBid 35000000017500000 = 36750000018375000
  /\ bids (db (snd (AuctionService.processAutoBids 20 20 1
                      35000000017500000 w2)))
     = bids (db w2).
Proof.
  intros w1 d w2.
  assert (E : AuctionService.placeBid 10 10 d w1 = (Throw ER_BAD_FIELD_ERROR, w2))
    by (vm_compute; reflexivity).
  split; [reflexivity|]. split; [split; [exact E|reflexivity]|].
  pose proof (placeBid_places_no_counter_bid 10 10 d w1 _ _ E eq_refl)
    as [H1 H2].
  split; [exact H1|]. split; [exact H2|].
  split; vm_compute; reflexivity.
Defined.

(* ------------------------------------------------------------------ *)
(** ** C10: the absolute floor of the REST path *)

Lemma validation_amount (req : BidsRoute.Request) :
  BidsRoute.validationResult req = [] -> 100000 <= BidsRoute.amount_ req.
Proof.
  unfold BidsRoute.validationResult. intros H.
  destruct (1 <=? BidsRoute.auctionId req); [|discriminate].
  destruct (100000 <=? BidsRoute.amount_ req) eqn:E; [|discriminate].
  now apply Z.leb_le.
Qed.

(** C10. On the REST path an amount below 100,000 is answered by the
    validation errors, the amount among them, whatever the world holds and
    without changing it; the increment applied further on is at least
    100,000 at every price; so an accepted amount is never below 100,000. *)
Theorem rest_bids_below_100000_are_refused :
  (forall now req w,
     BidsRoute.amount_ req < 100000 ->
     BidsRoute.postBid now req w
       = (Return (BidsRoute.Validation_errors (BidsRoute.validationResult req)), w)
     /\ In BidsRoute.f_amount (BidsRoute.validationResult req))
  /\ (forall currentPrice, 100000 <= BidsRoute.minBidIncrement currentPrice)
  /\ (forall now req w bidId w',
        BidsRoute.postBid now req w
          = (Return (BidsRoute.Bid_placed_successfully bidId), w') ->
        100000 <= BidsRoute.amount_ req).
Proof.
  split; [|split].
  - intros now req w Hlow.
    assert (Hin : In BidsRoute.f_amount (BidsRoute.validationResult req)).
    { unfold BidsRoute.validationResult.
      assert (E : (100000 <=? BidsRoute.amount_ req) = false)
        by (apply Z.leb_gt; exact Hlow).
      rewrite E. apply in_or_app. right. now left. }
    split; [|exact Hin].
    unfold BidsRoute.postBid. run_m.
    destruct (BidsRoute.validationResult req); [contradiction|reflexivity].
  - intros cp. unfold BidsRoute.minBidIncrement. apply Z.le_max_l.
  - intros now req w bidId w' E.
    destruct (postBid_spec now req w) as [[_ E']|(_ & e & E')];
      rewrite E' in E; discriminate.
Qed.

Lemma rest_bids_below_100000_witness :
  BidsRoute.postBid 10 (BidsRoute.mkRequest (Some 2) 1 99999 None 0)
    (world_at 10 true)
  = (Return (BidsRoute.Validation_errors [BidsRoute.f_amount]), world_at 10 true).
Proof.
  exact (proj1 (proj1 rest_bids_below_100000_are_refused 10
                  (BidsRoute.mkRequest (Some 2) 1 99999 None 0)
                  (world_at 10 true) eq_refl)).
Defined.

(* ------------------------------------------------------------------ *)
(** ** C5: the anti-sniping extension *)

Lemma placeBid_frame (now now' : Z) (d : AuctionService.BidData) (w : World) :
  let w' := snd (AuctionService.placeBid now now' d w) in
  properties (db w') = properties (db w) /\ users (db w') = users (db w).
Proof.
  destruct w as [[au pr us wl bs tr no al] k n em ab c].
  unfold AuctionService.placeBid. run_m.
  repeat (break_match; run_m). all: split; reflexivity.
Qed.

Lemma hd_error_filter_map {A} (p q : A -> bool) (f : A -> A) (l : list A) :
  (forall a, q (f a) = p a) ->
  hd_error (filter q (map f l)) = option_map f (hd_error (filter p l)).
Proof.
  intros H. induction l as [|a l IH]; [reflexivity|].
  cbn [map filter]. rewrite H. destruct (p a); [reflexivity|exact IH].
Qed.

Lemma hd_error_filter_true {A} (p : A -> bool) (l : list A) (a : A) :
  hd_error (filter p l) = Some a -> p a = true /\ In a l.
Proof.
  intros H. assert (Hin : In a (filter p l)).
  { destruct (filter p l); [discriminate|]. injection H as ->. now left. }
  apply filter_In in Hin. tauto.
Qed.

Lemma joins_owner_ext (t t' : Tables) (a a' : Auction) :
  properties t' = properties t -> users t' = users t ->
  property_id a' = property_id a ->
  joins_owner t' a' = joins_owner t a.
Proof.
  intros Hp Hu Ha. unfold joins_owner, user_exists. now rewrite Hp, Hu, Ha.
Qed.

(** The auction row a committed bid leaves: the price and the count, and the
    extension when the bid lands inside the window. *)
Lemma committed_auction (now now' : Z) (d : AuctionService.BidData)
  (w w' : World) (o : Outcome Z) (auction : Auction) :
  fst (AuctionService.getAuctionDetails (AuctionService.auctionId d) w)
    = Return (Some auction) ->
  AuctionService.placeBid now now' d w = (o, w') -> committed o = true ->
  fst (AuctionService.getAuctionDetails (AuctionService.auctionId d) w')
  = Return (Some
      (if extends now auction
       then set_extended_end_time (now' + extendThreshold auction)
              (set_price_and_count (AuctionService.bd_amount d) auction)
       else set_price_and_count (AuctionService.bd_amount d) auction)).
Proof.
  intros Ha E Hc.
  pose proof (placeBid_frame now now' d w) as [Hp Hu].
  rewrite E in Hp, Hu. cbn [snd] in Hp, Hu.
  destruct (committed_spec _ _ _ _ _ _ E Hc)
    as (_ & _ & _ & _ & _ & _ & a & Ha' & _ & _ & _ & Hau).
  rewrite Ha in Ha'. injection Ha' as <-.
  unfold accepted_auctions in Hau.
  unfold AuctionService.getAuctionDetails, gets in *. cbn [fst] in *.
  injection Ha as Ha. rewrite Hau.
  pose proof (hd_error_filter_true _ _ _ Ha) as [Hid _].
  apply andb_prop in Hid. destruct Hid as [Hid _].
  destruct (extends now auction).
  - unfold extended, priced. rewrite map_map.
    erewrite hd_error_filter_map with
      (p := fun a => (a_id a =? AuctionService.auctionId d)
                     && joins_owner (db w) a).
    + rewrite Ha. cbn [option_map]. rewrite Hid. cbn. rewrite Hid. reflexivity.
    + intros x. destruct (a_id x =? AuctionService.auctionId d) eqn:Ex; cbn;
        rewrite Ex; cbn; rewrite ?Ex; cbn;
        first [reflexivity|apply joins_owner_ext; (assumption || reflexivity)].
  - unfold priced.
    erewrite hd_error_filter_map with
      (p := fun a => (a_id a =? AuctionService.auctionId d)
                     && joins_owner (db w) a).
    + rewrite Ha. cbn [option_map]. rewrite Hid. reflexivity.
    + intros x. destruct (a_id x =? AuctionService.auctionId d) eqn:Ex; cbn;
        rewrite ?Ex; cbn;
        first [reflexivity|apply joins_owner_ext; (assumption || reflexivity)].
Qed.

(** X4. When [placeBid] commits a bid on an auction with
    [auto_extend_enabled] and the time left before its effective end time,
    at the [new Date()] of the test, is under [auto_extend_minutes], the
    auction's effective end time becomes the [Date.now()] of the extension
    plus [auto_extend_minutes]: the one setting is both the window and the
    length, counted from the bid and not from the former deadline. The
    scheduled [end_time] stays. *)
Lemma placeBid_extends_from_acceptance (now now' : Z)
  (d : AuctionService.BidData) (w w' : World) (o : Outcome Z)
  (auction : Auction) :
  fst (AuctionService.getAuctionDetails (AuctionService.auctionId d) w)
    = Return (Some auction) ->
  AuctionService.placeBid now now' d w = (o, w') -> committed o = true ->
  auto_extend_enabled auction = true ->
  effectiveEndTime auction - now < auto_extend_minutes auction * 60 * 1000 ->
  exists auction',
    fst (AuctionService.getAuctionDetails (AuctionService.auctionId d) w')
      = Return (Some auction')
    /\ a_id auction' = a_id auction
    /\ end_time auction' = end_time auction
    /\ effectiveEndTime auction'
       = now' + auto_extend_minutes auction * 60 * 1000.
Proof.
  intros Ha E Hc Hen Hlt.
  rewrite (committed_auction _ _ _ _ _ _ _ Ha E Hc).
  unfold extends, extendThreshold. apply Z.ltb_lt in Hlt. rewrite Hen, Hlt.
  eexists. repeat split.
Qed.

(** Window and length of 5 minutes, a bid 2 minutes before the deadline of
    1,000,000,000 ms, committed 1 ms later: the new deadline is 5 minutes
    after the commit. *)
Lemma placeBid_extends_witness :
  let d := AuctionService.mkBidData 1 2 35000000017500000 normal 0 in
  let now := 1000000000 - 2 * 60 * 1000 in
  let now' := now + 1 in
  exists auction',
    fst (AuctionService.getAuctionDetails 1
           (snd (AuctionService.placeBid now now' d (world0 true))))
      = Return (Some auction')
    /\ a_id auction' = 1
    /\ end_time auction' = 1000000000
    /\ effectiveEndTime auction' = now' + 5 * 60 * 1000.
Proof.
  intros d now now'.
  exact (placeBid_extends_from_acceptance now now' d (world0 true)
           (snd (AuctionService.placeBid now now' d (world0 true)))
           (Throw ER_BAD_FIELD_ERROR) auction1
           eq_refl ltac:(vm_compute; reflexivity) eq_refl eq_refl
           ltac:(vm_compute; reflexivity)).
Defined.

(** C5. Every bid [placeBid] commits on an auction with
    [auto_extend_enabled], with less than [auto_extend_minutes] left before
    the effective end time when the bid is tested, sets the effective end
    time to the clock reading of the extension plus [auto_extend_minutes]:
    the extension is counted from the bid, not from the former deadline,
    and the one setting [auto_extend_minutes] is both the window and the
    length. Every other committed bid leaves the effective end time as it
    was. The scheduled [end_time] is never written. *)
Theorem committed_bid_extends_from_acceptance (now now' : Z)
  (d : AuctionService.BidData) (w w' : World) (o : Outcome Z)
  (auction : Auction) :
  fst (AuctionService.getAuctionDetails (AuctionService.auctionId d) w)
    = Return (Some auction) ->
  AuctionService.placeBid now now' d w = (o, w') -> committed o = true ->
  let autoExtendWindow := auto_extend_minutes auction * 60 * 1000 in
  let autoExtendBy := auto_extend_minutes auction * 60 * 1000 in
  exists auction',
    fst (AuctionService.getAuctionDetails (AuctionService.auctionId d) w')
      = Return (Some auction')
    /\ end_time auction' = end_time auction
    /\ effectiveEndTime auction'
       = if auto_extend_enabled auction
            && (effectiveEndTime auction - now <? autoExtendWindow)
         then now' + autoExtendBy
         else effectiveEndTime auction.
Proof.
  intros Ha E Hc autoExtendWindow autoExtendBy.
  rewrite (committed_auction _ _ _ _ _ _ _ Ha E Hc).
  unfold extends, extendThreshold. fold autoExtendWindow.
  eexists. split; [reflexivity|].
  destruct (auto_extend_enabled auction && _); split; reflexivity.
Qed.

(** The seeded auction extends by 5 minutes within 5 minutes of its end. A
    bid is tested 2 minutes before the deadline of 1,000,000,000 ms and
    committed 40 ms later: the deadline becomes 5 minutes after the commit,
    1,000,180,040. The same bid 6 minutes before the deadline leaves it. *)
Lemma committed_bid_extends_witness :
  let d := AuctionService.mkBidData 1 2 35000000017500000 normal 0 in
  let now := 1000000000 - 2 * 60 * 1000 in
  let now' := now + 40 in
  let early := 1000000000 - 6 * 60 * 1000 in
  (exists auction',
     fst (AuctionService.getAuctionDetails 1
            (snd (AuctionService.placeBid now now' d (world0 true))))
       = Return (Some auction')
     /\ end_time auction' = 1000000000
     /\ effectiveEndTime auction' = 1000180040)
  /\ map effectiveEndTime
         (auctions (db (snd (AuctionService.placeBid early early d
                               (world0 true)))))
     = [1000000000].
Proof.
  intros d now now' early. split; [|vm_compute; reflexivity].
  exact (committed_bid_extends_from_acceptance now now' d (world0 true)
           (snd (AuctionService.placeBid now now' d (world0 true)))
           (Throw ER_BAD_FIELD_ERROR) auction1
           eq_refl ltac:(vm_compute; reflexivity) eq_refl).
Defined.

(* ------------------------------------------------------------------ *)
(** ** C6: the effective end time never moves backward *)

Lemma not_earlier_refl (a : Auction) : not_earlier a a.
Proof. repeat split; reflexivity. Qed.

Lemma not_earlier_trans (a b c : Auction) :
  not_earlier a b -> not_earlier b c -> not_earlier a c.
Proof.
  intros (H1 & H2 & H3) (H4 & H5 & H6). repeat split; (congruence || lia).
Qed.

Lemma end_times_le_map (f : Auction -> Auction) (l : list Auction) :
  (forall a, In a l -> not_earlier a (f a)) ->
  Forall2 not_earlier l (map f l).
Proof.
  induction l as [|a l IH]; intros H; cbn [map]; constructor.
  - apply H. now left.
  - apply IH. intros b Hb. apply H. now right.
Qed.

Lemma end_times_le_ids (l l' : list Auction) :
  Forall2 not_earlier l l' -> map a_id l' = map a_id l.
Proof.
  induction 1 as [|a a' l l' (H & _) _ IH]; cbn; [reflexivity|congruence].
Qed.

#[local] Instance end_times_le_PreOrder : PreOrder end_times_le.
Proof.
  split.
  - intros w. unfold end_times_le.
    rewrite <- (map_id (auctions (db w))) at 2.
    apply end_times_le_map. intros. apply not_earlier_refl.
  - intros a b c. unfold end_times_le.
    generalize (auctions (db a)) (auctions (db b)) (auctions (db c)).
    intros l1 l2 l3 H. revert l3.
    induction H as [|x y l1 l2 Hxy _ IH]; intros l3 H3; inversion H3; subst;
      constructor.
    + eapply not_earlier_trans; eassumption.
    + now apply IH.
Qed.

#[local] Instance keeps_end_times_PreOrder : PreOrder keeps_end_times.
Proof.
  split.
  - intros w _. reflexivity.
  - intros a b c H1 H2 Hu. specialize (H1 Hu).
    etransitivity; [exact H1|]. apply H2.
    unfold unique_auction_ids in *.
    now rewrite (end_times_le_ids _ _ H1).
Qed.

Lemma respects_end_times_keeps {A} (m : M A) :
  respects end_times_le m -> respects keeps_end_times m.
Proof. intros H w _. apply H. Qed.

Lemma same_auctions_end_times (w w' : World) :
  auctions (db w') = auctions (db w) -> end_times_le w w'.
Proof.
  intros H. unfold end_times_le. rewrite H.
  change (end_times_le w w). reflexivity.
Qed.

Lemma update_auction_end_times (id : Z) (f : Auction -> Auction) :
  (forall a, not_earlier a (f a)) ->
  respects end_times_le (update_auction id f).
Proof.
  intros H w. unfold end_times_le. cbn. apply end_times_le_map.
  intros a _. destruct (a_id a =? id); [apply H|apply not_earlier_refl].
Qed.

Lemma emit_end_times (e : Emit) : respects end_times_le (emit e).
Proof. intros w. now apply same_auctions_end_times. Qed.

Lemma createNotification_end_times (u : Z) (t : NotificationType) (a : Z) :
  respects end_times_le (AuctionService.createNotification u t a).
Proof. intros w. now apply same_auctions_end_times. Qed.

#[local] Hint Resolve emit_end_times createNotification_end_times : respects.

Lemma notifyAuctionStart_end_times (id : Z) :
  respects end_times_le (AuctionService.notifyAuctionStart id).
Proof. unfold AuctionService.notifyAuctionStart. repeat respects_step. Qed.

Lemma notifyAuctionEnd_end_times (id : Z) (r : AuctionResult) (b : option Z) :
  respects end_times_le (AuctionService.notifyAuctionEnd id r b).
Proof.
  unfold AuctionService.notifyAuctionEnd, AuctionService.getWinningBid.
  repeat respects_step.
Qed.

Lemma createTransaction_end_times (id bidId : Z) :
  respects end_times_le (AuctionService.createTransaction id bidId).
Proof.
  unfold AuctionService.createTransaction, AuctionService.getAuctionDetails,
    AuctionService.getBidDetails.
  repeat respects_step. intros w. now apply same_auctions_end_times.
Qed.

#[local] Hint Resolve notifyAuctionStart_end_times notifyAuctionEnd_end_times
  createTransaction_end_times : respects.

Lemma startAuction_end_times (now id : Z) :
  respects end_times_le (AuctionService.startAuction now id).
Proof.
  unfold AuctionService.startAuction. repeat respects_step.
  apply update_auction_end_times. intros a. repeat split; reflexivity.
Qed.

Lemma endAuction_end_times (now id : Z) :
  respects end_times_le (AuctionService.endAuction now id).
Proof.
  unfold AuctionService.endAuction, AuctionService.getAuctionDetails,
    AuctionService.getWinningBid.
  repeat respects_step.
  all: apply update_auction_end_times; intros x; repeat split; reflexivity.
Qed.

#[local] Hint Resolve startAuction_end_times endAuction_end_times : respects.

Lemma checkAuctionStatus_end_times (now : Z) :
  respects end_times_le (AuctionService.checkAuctionStatus now).
Proof. unfold AuctionService.checkAuctionStatus. repeat respects_step. Qed.

Lemma setupAutoBid_end_times (a u m : Z) :
  respects end_times_le (AuctionService.setupAutoBid a u m).
Proof.
  unfold AuctionService.setupAutoBid. repeat respects_step.
  intros w. now apply same_auctions_end_times.
Qed.

Lemma priced_end_times (id amt : Z) (l : list Auction) :
  Forall2 not_earlier l (priced id amt l).
Proof.
  apply end_times_le_map. intros a _.
  destruct (a_id a =? id); repeat split; reflexivity.
Qed.

Lemma postBid_end_times (now : Z) (req : BidsRoute.Request) :
  respects end_times_le (BidsRoute.postBid now req).
Proof. apply respects_postBid; typeclasses eauto. Qed.

Lemma unique_id_row (l : list Auction) (a b : Auction) :
  NoDup (map a_id l) -> In a l -> In b l -> a_id a = a_id b -> a = b.
Proof.
  induction l as [|x l IH]; intros Hnd Ha Hb E; [contradiction|].
  cbn in Hnd. inversion Hnd as [|? ? Hnot Hnd']; subst.
  destruct Ha as [->|Ha], Hb as [->|Hb].
  - reflexivity.
  - exfalso. apply Hnot. rewrite E. now apply in_map.
  - exfalso. apply Hnot. rewrite <- E. now apply in_map.
  - now apply IH.
Qed.

(** The step that needs the clock: the extension is computed from the row
    read at the start and written to the row with that id. *)
Lemma placeBid_end_times (now now' : Z) (d : AuctionService.BidData) :
  now <= now' ->
  respects keeps_end_times (AuctionService.placeBid now now' d).
Proof.
  intros Hclock w Hu. pose proof (placeBid_spec now now' d w) as H.
  destruct (AuctionService.placeBid now now' d w) as [[bidId|e] w']; cbn;
    [contradiction|].
  destruct H as [(_ & _ & _ & _ & _ & _ & auction & Ha & _ & _ & _ & Hau)|H].
  - unfold end_times_le. rewrite Hau. unfold accepted_auctions.
    destruct (extends now auction) eqn:Hext; [|apply priced_end_times].
    unfold extended, priced. rewrite map_map. apply end_times_le_map.
    intros a Hin. destruct (a_id a =? AuctionService.auctionId d) eqn:E;
      cbn; rewrite E; [|apply not_earlier_refl].
    unfold AuctionService.getAuctionDetails, gets in Ha. cbn in Ha.
    injection Ha as Ha. apply hd_error_filter_true in Ha.
    destruct Ha as [Hid Hin'].
    apply andb_prop in Hid. destruct Hid as [Hid _].
    apply Z.eqb_eq in E, Hid.
    assert (a = auction) by (eapply unique_id_row; eauto; congruence).
    subst a. unfold extends in Hext. apply andb_prop in Hext.
    destruct Hext as [_ Hlt]. apply Z.ltb_lt in Hlt.
    repeat split. cbn. lia.
  - destruct H as [(-> & _)|(_ & ->)]; now apply same_auctions_end_times.
Qed.

#[local] Hint Resolve placeBid_end_times : respects.

Lemma processAutoBids_end_times (now now' id amt : Z) :
  now <= now' ->
  respects keeps_end_times (AuctionService.processAutoBids now now' id amt).
Proof.
  intros Hclock. unfold AuctionService.processAutoBids.
  repeat respects_step.
  rename a into entries. generalize amt.
  induction entries as [|[key autoBid] l IH]; intros amt';
    cbn [AuctionService.autoBids_loop].
  - repeat respects_step.
  - destruct (_ <=? _); [|apply IH].
    repeat respects_step.
    apply respects_end_times_keeps. intros w.
    now apply same_auctions_end_times.
Qed.

Lemma step_end_times (op : Op) (w : World) :
  clock_ok op -> keeps_end_times w (step op w).
Proof.
  destruct op; cbn [step clock_ok]; intros Hc.
  - now apply placeBid_end_times.
  - apply respects_end_times_keeps, setupAutoBid_end_times.
  - apply respects_end_times_keeps, checkAuctionStatus_end_times.
  - apply respects_end_times_keeps, postBid_end_times.
  - apply respects_end_times_keeps, startAuction_end_times.
  - apply respects_end_times_keeps, endAuction_end_times.
  - now apply processAutoBids_end_times.
Qed.

Lemma run_end_times (ops : list Op) (w : World) :
  Forall clock_ok ops -> keeps_end_times w (run ops w).
Proof.
  revert w. induction ops as [|op ops IH]; intros w Hc; cbn [run fold_left].
  - reflexivity.
  - inversion Hc; subst. transitivity (step op w).
    + apply step_end_times. assumption.
    + apply IH. assumption.
Qed.

Lemma run_app (ops1 ops2 : list Op) (w : World) :
  run (ops1 ++ ops2) w = run ops2 (run ops1 w).
Proof. unfold run. apply fold_left_app. Qed.

(** C6. Along every sequence of engine operations whose clock readings do
    not run backwards, between any two points of the sequence each auction
    keeps its id and its scheduled [end_time] and its effective end time
    does not decrease; and a row never extended ([extended_end_time] NULL,
    as rows are created) has its effective end time equal to [end_time]. *)
Theorem effective_end_time_never_decreases (ops1 ops2 : list Op) (w : World) :
  unique_auction_ids w ->
  Forall clock_ok (ops1 ++ ops2) ->
  Forall2 (fun a a' => a_id a' = a_id a /\ end_time a' = end_time a
                       /\ effectiveEndTime a <= effectiveEndTime a')
          (auctions (db (run ops1 w)))
          (auctions (db (run (ops1 ++ ops2) w)))
  /\ (forall a, extended_end_time a = None -> effectiveEndTime a = end_time a).
Proof.
  intros Hu Hc. apply Forall_app in Hc. destruct Hc as [Hc1 Hc2].
  split.
  - rewrite run_app. apply (run_end_times ops2 (run ops1 w) Hc2).
    pose proof (run_end_times ops1 w Hc1 Hu) as H1.
    unfold unique_auction_ids in *. now rewrite (end_times_le_ids _ _ H1).
  - intros a Ha. unfold effectiveEndTime. now rewrite Ha.
Qed.

Lemma effective_end_time_witness :
  let late := AuctionService.mkBidData 1 2 35000000017500000 normal 0 in
  let ops1 := [tick 5] in
  let ops2 := [place_bid 999880000 999880001 late; tick 1000000000;
               tick 1000180001] in
  map effectiveEndTime (auctions (db (run ops1 (world0 true)))) = [1000000000]
  /\ map effectiveEndTime (auctions (db (run (ops1 ++ ops2) (world0 true))))
     = [1000180001]
  /\ Forall2 (fun a a' => a_id a' = a_id a /\ end_time a' = end_time a
                          /\ effectiveEndTime a <= effectiveEndTime a')
             (auctions (db (run ops1 (world0 true))))
             (auctions (db (run (ops1 ++ ops2) (world0 true)))).
Proof.
  intros late ops1 ops2.
  split; [vm_compute; reflexivity|]. split; [vm_compute; reflexivity|].
  refine (proj1 (effective_end_time_never_decreases ops1 ops2 (world0 true) _ _)).
  - repeat constructor. intros [].
  - repeat constructor. cbn. lia.
Defined.

(* ------------------------------------------------------------------ *)
(** ** C7: the result of finalisation *)

Lemma returns_ret {A} (a : A) : returns (ret a).
Proof. intros w. now exists a. Qed.

Lemma returns_gets {A} (f : World -> A) : returns (gets f).
Proof. intros w. now exists (f w). Qed.

Lemma returns_modify (f : World -> World) : returns (modify f).
Proof. intros w. now exists tt. Qed.

Lemma returns_bind {A B} (m : M A) (k : A -> M B) :
  returns m -> (forall a, returns (k a)) -> returns (bind m k).
Proof.
  intros Hm Hk w. unfold bind. destruct (Hm w) as [a Ha].
  destruct (m w) as [o w1]. cbn in Ha. subst o. apply Hk.
Qed.

Lemma returns_forEach {A} (l : list A) (body : A -> M unit) :
  (forall x, returns (body x)) -> returns (forEach l body).
Proof.
  intros Hb. induction l as [|x l IH]; cbn [forEach].
  - apply returns_ret.
  - apply returns_bind; [apply Hb|intros _; exact IH].
Qed.

Lemma createNotification_returns (u : Z) (t : NotificationType) (a : Z) :
  returns (AuctionService.createNotification u t a).
Proof. intros w. now exists tt. Qed.

Lemma notifyAuctionEnd_returns (id : Z) (r : AuctionResult) (b : option Z) :
  returns (AuctionService.notifyAuctionEnd id r b).
Proof.
  unfold AuctionService.notifyAuctionEnd.
  apply returns_bind; [apply returns_gets|]. intros bidders.
  apply returns_forEach. intros bidder.
  apply returns_bind; [|intros; apply createNotification_returns].
  destruct (is_sold r && _); [|apply returns_ret].
  apply returns_bind; [apply returns_gets|].
  intros [wb|]; [|apply returns_ret].
  destruct (user_id wb =? bidder); apply returns_ret.
Qed.

#[local] Instance same_core_PreOrder : PreOrder same_core.
Proof.
  split.
  - intros w. reflexivity.
  - intros a b c H1 H2. unfold same_core in *. congruence.
Qed.

Lemma createNotification_same_core (u : Z) (t : NotificationType) (a : Z) :
  respects same_core (AuctionService.createNotification u t a).
Proof. intros w. reflexivity. Qed.

#[local] Hint Resolve createNotification_same_core : respects.

Lemma notifyAuctionEnd_same_core (id : Z) (r : AuctionResult) (b : option Z) :
  respects same_core (AuctionService.notifyAuctionEnd id r b).
Proof.
  unfold AuctionService.notifyAuctionEnd, AuctionService.getWinningBid.
  repeat respects_step.
Qed.

(** [notifyAuctionEnd] returns, having written notifications and messages
    only. *)
Lemma notifyAuctionEnd_runs (id : Z) (r : AuctionResult) (b : option Z)
  (w : World) :
  exists w', AuctionService.notifyAuctionEnd id r b w = (Return tt, w')
             /\ core w' = core w.
Proof.
  pose proof (notifyAuctionEnd_returns id r b w) as [[] H].
  pose proof (notifyAuctionEnd_same_core id r b w) as Hc.
  destruct (AuctionService.notifyAuctionEnd id r b w) as [o w'].
  cbn in *. subst o. now exists w'.
Qed.

(** The rows [createTransaction] inserts for an auction row and a bid
    row. *)
Lemma createTransaction_spec (id bidId : Z) (w : World) :
  transactions (db (snd (AuctionService.createTransaction id bidId w)))
  = transactions (db w)
    ++ match fst (AuctionService.getAuctionDetails id w),
             fst (AuctionService.getBidDetails bidId w) with
       | Return (Some auction), Return (Some bid) =>
           settlement_rows w id bidId auction bid
       | _, _ => []
       end
  /\ auctions (db (snd (AuctionService.createTransaction id bidId w)))
     = auctions (db w)
  /\ bids (db (snd (AuctionService.createTransaction id bidId w)))
     = bids (db w).
Proof.
  destruct w as [[au pr us wl bs tr no al] k n em ab c].
  unfold AuctionService.createTransaction, AuctionService.insert_transaction,
    settlement_rows.
  run_m.
  repeat (break_match; run_m).
  all: repeat match goal with
              | H : Return _ = Return _ |- _ => inversion H; clear H; subst
              | H : (_, _) = (_, _) |- _ => inversion H; clear H; subst
              end.
  all: try discriminate.
  all: repeat split; cbn [negb] in *; rewrite ?app_nil_r; try reflexivity.
  all: try discriminate.
Qed.

Lemma getAuctionDetails_after_update (id : Z) (f : Auction -> Auction)
  (w w' : World) (auction : Auction) :
  (forall a, a_id (f a) = a_id a /\ property_id (f a) = property_id a) ->
  properties (db w') = properties (db w) ->
  users (db w') = users (db w) ->
  auctions (db w')
    = map (fun a => if a_id a =? id then f a else a) (auctions (db w)) ->
  fst (AuctionService.getAuctionDetails id w) = Return (Some auction) ->
  fst (AuctionService.getAuctionDetails id w') = Return (Some (f auction)).
Proof.
  intros Hf Hp Hu Hau Ha.
  unfold AuctionService.getAuctionDetails, gets in *. cbn [fst] in *.
  injection Ha as Ha. rewrite Hau.
  erewrite hd_error_filter_map with
    (p := fun a => (a_id a =? id) && joins_owner (db w) a).
  - rewrite Ha. cbn [option_map].
    apply hd_error_filter_true in Ha. destruct Ha as [Hid _].
    apply andb_prop in Hid. destruct Hid as [Hid _]. now rewrite Hid.
  - intros x. destruct (Hf x) as [H1 H2].
    destruct (a_id x =? id) eqn:Ex.
    + rewrite H1, Ex. cbn. now apply joins_owner_ext.
    + rewrite Ex. cbn. reflexivity.
Qed.

(** [endAuction], end to end, on an auction that [getAuctionDetails]
    finds. *)
Lemma endAuction_spec (now id : Z) (w : World) (auction : Auction)
  (winningBid : option Bid) :
  fst (AuctionService.getAuctionDetails id w) = Return (Some auction) ->
  fst (AuctionService.getWinningBid id w) = Return winningBid ->
  let res := fst (finalResult auction winningBid) in
  let winningBidId := snd (finalResult auction winningBid) in
  let w' := snd (AuctionService.endAuction now id w) in
  auctions (db w')
    = map (fun a => if a_id a =? id then ended_row now res winningBidId a
                    else a) (auctions (db w))
  /\ bids (db w') = bids (db w)
  /\ transactions (db w')
     = transactions (db w)
       ++ match winningBidId with
          | Some bidId =>
              if is_sold res && negb (bidId =? 0) then
                match fst (AuctionService.getBidDetails bidId w) with
                | Return (Some bid) => settlement_rows w id bidId auction bid
                | _ => []
                end
              else []
          | None => []
          end.
Proof.
  intros Ha Hw res winningBidId w'.
  assert (E : w' = snd (AuctionService.endAuction now id w)) by reflexivity.
  clearbody w'. unfold AuctionService.endAuction in E.
  unfold try_catch at 1 in E. unfold bind at 1 in E.
  assert (Ha' : AuctionService.getAuctionDetails id w = (Return (Some auction), w)).
  { unfold AuctionService.getAuctionDetails, gets in *. cbn in *. now rewrite <- Ha. }
  rewrite Ha' in E. unfold bind at 1 in E.
  assert (Hrw : (if 0 <? current_bid_count auction
                 then
                   bind (AuctionService.getWinningBid id)
                     (fun winningBid =>
                        match winningBid with
                        | Some wb =>
                            if ge_String (toString (amount wb))
                                         (toString (reserve_price auction))
                            then ret (sold, Some (b_id wb))
                            else ret (reserve_not_met, None)
                        | None => ret (reserve_not_met, None)
                        end)
                 else ret (no_bids, None)) w
                = (Return (finalResult auction winningBid), w)).
  { unfold finalResult. destruct (0 <? current_bid_count auction); [|reflexivity].
    unfold bind. unfold AuctionService.getWinningBid, gets in *.
    cbn [fst] in Hw. injection Hw as Hw. rewrite Hw.
    destruct winningBid as [wb|]; [|reflexivity].
    destruct (ge_String _ _); reflexivity. }
  rewrite Hrw in E. fold res in E. fold winningBidId in E.
  unfold bind at 1 in E. unfold update_auction at 1, modify at 1 in E.
  unfold bind at 1 in E. unfold emit at 1, modify at 1 in E.
  unfold bind at 1 in E.
  match type of E with
  | context [AuctionService.notifyAuctionEnd id res winningBidId ?w1] =>
      destruct (notifyAuctionEnd_runs id res winningBidId w1) as (w2 & E2 & Hc);
      rewrite E2 in E
  end.
  unfold core in Hc. cbn in Hc.
  injection Hc as Hau Hpr Hus _ Hbi Htr _ _ _ _ Hco.
  fold (ended_row now res winningBidId) in Hau.
  assert (Hget : fst (AuctionService.getAuctionDetails id w2)
                 = Return (Some (ended_row now res winningBidId auction))).
  { eapply getAuctionDetails_after_update with (w := w); eauto. }
  assert (Hbid : forall bidId, fst (AuctionService.getBidDetails bidId w2)
                               = fst (AuctionService.getBidDetails bidId w)).
  { intros bidId. unfold AuctionService.getBidDetails, gets. cbn. now rewrite Hbi. }
  assert (Hcom : AuctionService.commissionPercentage w2
                 = AuctionService.commissionPercentage w).
  { unfold AuctionService.commissionPercentage. now rewrite Hco. }
  destruct winningBidId as [bidId|].
  2:{ cbn in E. subst w'. rewrite app_nil_r. auto. }
  unfold when in E. destruct (is_sold res && negb (bidId =? 0)).
  - pose proof (createTransaction_spec id bidId w2) as (Ht & Hau' & Hbi').
    rewrite Hget, Hbid in Ht.
    assert (Hs : forall bid,
               settlement_rows w2 id bidId
                 (ended_row now res (Some bidId) auction) bid
               = settlement_rows w id bidId auction bid).
    { intros bid. unfold settlement_rows. rewrite Hcom. reflexivity. }
    destruct (fst (AuctionService.getBidDetails bidId w)) as [[bid|]|e0];
      rewrite ?Hs in Ht;
      destruct (AuctionService.createTransaction id bidId w2) as [[[]|e] w3];
      cbn in E; cbn [fst snd] in *; subst w'; rewrite Ht, Hau', Hbi', Htr; auto.
  - cbn in E. subst w'. rewrite app_nil_r. auto.
Qed.

#[local] Instance same_owners_PreOrder : PreOrder same_owners.
Proof.
  split.
  - intros w. split; reflexivity.
  - intros a b c [H1 H2] [H3 H4]. split; congruence.
Qed.

Lemma endAuction_same_owners (now id : Z) :
  respects same_owners (AuctionService.endAuction now id).
Proof.
  unfold AuctionService.endAuction, AuctionService.notifyAuctionEnd,
    AuctionService.createTransaction, AuctionService.createNotification,
    AuctionService.getAuctionDetails, AuctionService.getWinningBid,
    AuctionService.getBidDetails, update_auction, emit.
  repeat respects_step.
  all: intros w; split; reflexivity.
Qed.

(** C7. [endAuction] on an auction it finds, in a store where the bid count
    is not negative and, when the count is positive, the winning bid
    exists, has a non-zero id and carries the current price: the result
    written is [no_bids] when the count is 0; otherwise it is decided by
    comparing the text of the price with the text of the reserve, from the
    left: [sold] when the text of the price is not before the text of the
    reserve, [reserve_not_met] when it is, whatever the two numbers are. No
    row of [bids] changes. For [no_bids] and [reserve_not_met] no row is
    added to [transactions]; for [sold] the rows of [settlement_rows] are:
    one row carrying the auction id, the winning bid's id and bidder and
    the final price, with for total the text of the price followed by the
    text of the commission, or none when that total is out of the range of
    its column. *)
Theorem endAuction_result (now id : Z) (w : World) (auction : Auction)
  (wb : Bid) :
  fst (AuctionService.getAuctionDetails id w) = Return (Some auction) ->
  0 <= current_bid_count auction ->
  (0 < current_bid_count auction ->
   fst (AuctionService.getWinningBid id w) = Return (Some wb)
   /\ amount wb = current_price auction
   /\ b_id wb <> 0
   /\ fst (AuctionService.getBidDetails (b_id wb) w) = Return (Some wb)) ->
  let w' := snd (AuctionService.endAuction now id w) in
  let res :=
    if current_bid_count auction =? 0 then no_bids
    else if ge_String (toString (current_price auction))
                      (toString (reserve_price auction))
         then sold else reserve_not_met in
  (exists auction',
     fst (AuctionService.getAuctionDetails id w') = Return (Some auction')
     /\ status auction' = ended
     /\ result auction' = Some res
     /\ current_price auction' = current_price auction
     /\ winning_bid_id auction'
        = match res with sold => Some (b_id wb) | _ => None end)
  /\ bids (db w') = bids (db w)
  /\ transactions (db w')
     = transactions (db w)
       ++ match res with
          | sold => settlement_rows w id (b_id wb) auction wb
          | _ => []
          end
  /\ (forall t, In t (settlement_rows w id (b_id wb) auction wb) ->
        settlement_rows w id (b_id wb) auction wb = [t]
        /\ t_auction_id t = id /\ t_bid_id t = b_id wb
        /\ t_user_id t = user_id wb /\ t_amount t = current_price auction
        /\ parse_int (String.append (toString (t_amount t))
                                    (toString (commission_amount t)))
           = Some (total_amount t)).
Proof.
  intros Ha Hcount Hwin w' res.
  pose proof (endAuction_same_owners now id w) as [Hp Hu]. fold w' in Hp, Hu.
  assert (Hw : exists winningBid,
             fst (AuctionService.getWinningBid id w) = Return winningBid)
    by (eexists; reflexivity).
  destruct Hw as [winningBid Hw].
  pose proof (endAuction_spec now id w auction winningBid Ha Hw) as H.
  cbv zeta in H. fold w' in H. destruct H as (Hau & Hbi & Htr).
  assert (Hget : forall r b,
             finalResult auction winningBid = (r, b) ->
             fst (AuctionService.getAuctionDetails id w')
             = Return (Some (ended_row now r b auction))).
  { intros r b Hr. rewrite Hr in Hau. cbn [fst snd] in Hau.
    eapply getAuctionDetails_after_update with (w := w); eauto. }
  assert (Hrows : forall t, In t (settlement_rows w id (b_id wb) auction wb) ->
            settlement_rows w id (b_id wb) auction wb = [t]
            /\ t_auction_id t = id /\ t_bid_id t = b_id wb
            /\ t_user_id t = user_id wb /\ t_amount t = current_price auction
            /\ parse_int (String.append (toString (t_amount t))
                                        (toString (commission_amount t)))
               = Some (total_amount t)).
  { unfold settlement_rows. intros t.
    destruct (parse_int _) as [total|] eqn:Et; [|intros []].
    destruct (in_BIGINT _ && in_BIGINT total); [|intros []].
    intros [<-|[]]. repeat split. exact Et. }
  unfold finalResult in *. subst res.
  destruct (current_bid_count auction =? 0) eqn:E0.
  - apply Z.eqb_eq in E0. rewrite E0 in *. cbn in Htr, Hget.
    split; [|split; [assumption|split; [exact Htr|exact Hrows]]].
    eexists. split; [apply Hget; reflexivity|]. repeat split.
  - apply Z.eqb_neq in E0.
    assert (Hpos : 0 < current_bid_count auction) by lia.
    destruct (Hwin Hpos) as (Hwb & Hamt & Hid & Hbid).
    rewrite Hw in Hwb. injection Hwb as ->.
    apply Z.ltb_lt in Hpos. rewrite Hpos in *. rewrite Hamt in *.
    destruct (ge_String _ _) eqn:Er.
    + cbn [andb fst snd is_sold] in *.
      assert (E2 : (b_id wb =? 0) = false) by (now apply Z.eqb_neq).
      rewrite E2, Hbid in Htr. cbn [negb] in Htr.
      split; [|split; [assumption|split; [exact Htr|exact Hrows]]].
      eexists. split; [apply Hget; reflexivity|]. repeat split.
    + cbn [andb fst snd is_sold] in *.
      split; [|split; [assumption|split; [exact Htr|exact Hrows]]].
      eexists. split; [apply Hget; reflexivity|]. repeat split.
Qed.

(** The seeded auction (reserve 320,000,000) after one bid of
    100,000,000,000,000,000, which [placeBid] commits: the result is
    [reserve_not_met], no winning bid is named and no settlement request is
    written, the text of the price starting with 1 and that of the reserve
    with 3. After one bid of 35,000,000,017,500,000 the result is [sold]
    and no settlement request is written either, the total having 33
    digits. The same auction started from a price of 0, after one bid of
    368,000,000: [sold], with one settlement request whose total is
    36800000018400000. *)
Lemma endAuction_result_witness :
  (let w := snd (AuctionService.placeBid 10 10
                   (AuctionService.mkBidData 1 2 100000000000000000 normal 0)
                   (world0 true)) in
   let w' := snd (AuctionService.endAuction 1000000000 1 w) in
   bids (db w) = [mkBid 1 1 2 100000000000000000 0 normal true]
   /\ (exists auction',
         fst (AuctionService.getAuctionDetails 1 w') = Return (Some auction')
         /\ status auction' = ended
         /\ result auction' = Some reserve_not_met
         /\ current_price auction' = 100000000000000000
         /\ winning_bid_id auction' = None)
   /\ bids (db w') = bids (db w)
   /\ transactions (db w') = [])
  /\ (let w := snd (AuctionService.placeBid 10 10
                      (AuctionService.mkBidData 1 2 35000000017500000 normal 0)
                      (world0 true)) in
      let w' := snd (AuctionService.endAuction 1000000000 1 w) in
      map result (auctions (db w')) = [Some sold]
      /\ map winning_bid_id (auctions (db w')) = [Some 1]
      /\ transactions (db w') = [])
  /\ (let w := snd (AuctionService.placeBid 10 10
                      (AuctionService.mkBidData 1 2 368000000 normal 0)
                      (world_at 0 true)) in
      let w' := snd (AuctionService.endAuction 1000000000 1 w) in
      map result (auctions (db w')) = [Some sold]
      /\ transactions (db w')
         = [mkTransaction 2 1 1 368000000 18400000 36800000018400000]).
Proof.
  split; [|split; vm_compute; repeat split].
  pose proof (endAuction_result 1000000000 1
             (snd (AuctionService.placeBid 10 10
                     (AuctionService.mkBidData 1 2 100000000000000000 normal 0)
                     (world0 true)))
             (mkAuction 1 1 0 1000000000 None 320000000 100000000000000000
                        5 1 live None None true 5 None)
             (mkBid 1 1 2 100000000000000000 0 normal true)
             ltac:(vm_compute; reflexivity) ltac:(vm_compute; discriminate)
             ltac:(intros _; vm_compute; repeat split; discriminate)) as H.
  cbv zeta in H. destruct H as (H1 & H2 & H3 & _).
  split; [vm_compute; reflexivity|].
  split; [|split].
  - vm_compute in H1. vm_compute. exact H1.
  - exact H2.
  - vm_compute in H3. vm_compute. exact H3.
Defined.

(* ------------------------------------------------------------------ *)
(** ** C8: finalising twice *)

(** [endAuction] has no guard of its own: called again on the auction it
    has just finalised as sold, it writes the row again and inserts a second
    settlement request. (The auction starts from a current price of 0 and
    holds one committed bid of 368,000,000.) *)
Lemma endAuction_twice_settles_twice :
  let w := snd (AuctionService.placeBid 10 10
                  (AuctionService.mkBidData 1 2 368000000 normal 0)
                  (world_at 0 true)) in
  let w1 := snd (AuctionService.endAuction 1000000000 1 w) in
  let w2 := snd (AuctionService.endAuction 1000000001 1 w1) in
  map result (auctions (db w1)) = [Some sold]
  /\ List.length (settlements 1 w1) = 1%nat
  /\ List.length (settlements 1 w2) = 2%nat
  /\ w2 <> w1.
Proof.
  intros w w1 w2. repeat split; try (vm_compute; reflexivity).
  intros H. apply (f_equal (fun x => List.length (transactions (db x)))) in H.
  vm_compute in H. discriminate.
Qed.

#[local] Instance same_about_PreOrder (id : Z) : PreOrder (same_about id).
Proof.
  split.
  - intros w. reflexivity.
  - intros a b c H1 H2. unfold same_about in *. congruence.
Qed.

Lemma filter_id_update (id id' : Z) (f : Auction -> Auction) (l : list Auction) :
  id' <> id -> (forall a, a_id (f a) = a_id a) ->
  filter (fun a => a_id a =? id)
         (map (fun a => if a_id a =? id' then f a else a) l)
  = filter (fun a => a_id a =? id) l.
Proof.
  intros Hne Hf. induction l as [|a l IH]; [reflexivity|].
  cbn [map filter]. destruct (a_id a =? id') eqn:E.
  - apply Z.eqb_eq in E. rewrite Hf.
    assert (E' : (a_id a =? id) = false) by (apply Z.eqb_neq; lia).
    now rewrite E'.
  - now rewrite IH.
Qed.

Lemma update_auction_about (id id' : Z) (f : Auction -> Auction) :
  id' <> id -> (forall a, a_id (f a) = a_id a) ->
  respects (same_about id) (update_auction id' f).
Proof.
  intros Hne Hf w. unfold same_about, about, settlements. cbn.
  now rewrite filter_id_update.
Qed.

Lemma emit_about (id : Z) (e : Emit) :
  emit_auction e <> id -> respects (same_about id) (emit e).
Proof.
  intros Hne w. unfold same_about, about, settlements. cbn.
  rewrite filter_app. cbn.
  assert (E : (emit_auction e =? id) = false) by (now apply Z.eqb_neq).
  now rewrite E, app_nil_r.
Qed.

Lemma createNotification_about (id id' u : Z) (t : NotificationType) :
  id' <> id ->
  respects (same_about id) (AuctionService.createNotification u t id').
Proof.
  intros Hne w. unfold same_about, about, settlements. cbn.
  rewrite !filter_app. cbn.
  assert (E : (id' =? id) = false) by (now apply Z.eqb_neq).
  now rewrite E, !app_nil_r.
Qed.

#[local] Hint Resolve createNotification_about : respects.

Lemma notifyAuctionStart_about (id id' : Z) :
  id' <> id -> respects (same_about id) (AuctionService.notifyAuctionStart id').
Proof.
  intros Hne. unfold AuctionService.notifyAuctionStart. repeat respects_step.
Qed.

Lemma notifyAuctionEnd_about (id id' : Z) (r : AuctionResult) (b : option Z) :
  id' <> id ->
  respects (same_about id) (AuctionService.notifyAuctionEnd id' r b).
Proof.
  intros Hne.
  unfold AuctionService.notifyAuctionEnd, AuctionService.getWinningBid.
  repeat respects_step.
Qed.

Lemma createTransaction_about (id id' bidId : Z) :
  id' <> id ->
  respects (same_about id) (AuctionService.createTransaction id' bidId).
Proof.
  intros Hne.
  unfold AuctionService.createTransaction, AuctionService.getAuctionDetails,
    AuctionService.getBidDetails.
  repeat respects_step.
  intros w. unfold same_about, about, settlements. cbn.
  rewrite filter_app. cbn.
  assert (E : (t_auction_id t =? id) = false) by (apply Z.eqb_neq; congruence).
  now rewrite E, app_nil_r.
Qed.

#[local] Hint Resolve notifyAuctionStart_about notifyAuctionEnd_about
  createTransaction_about : respects.

Lemma startAuction_about (now id id' : Z) :
  id' <> id -> respects (same_about id) (AuctionService.startAuction now id').
Proof.
  intros Hne. unfold AuctionService.startAuction. repeat respects_step.
  - now apply update_auction_about.
  - now apply emit_about.
Qed.

Lemma endAuction_about (now id id' : Z) :
  id' <> id -> respects (same_about id) (AuctionService.endAuction now id').
Proof.
  intros Hne.
  unfold AuctionService.endAuction, AuctionService.getAuctionDetails,
    AuctionService.getWinningBid.
  repeat respects_step.
  all: first [now apply update_auction_about | now apply emit_about].
Qed.

#[local] Hint Resolve startAuction_about endAuction_about : respects.

(** The guard is the query of [checkAuctionStatus]: an auction with no row
    in status scheduled or live is not visited, and nothing the world holds
    about it changes during the tick. *)
Lemma checkAuctionStatus_skips_inactive (now id : Z) (w : World) :
  (forall a, In a (auctions (db w)) -> a_id a = id ->
             is_scheduled (status a) || is_live (status a) = false) ->
  about id (snd (AuctionService.checkAuctionStatus now w)) = about id w.
Proof.
  intros Hin. unfold AuctionService.checkAuctionStatus.
  unfold try_catch, bind, gets. cbn [fst snd].
  set (activeAuctions := filter _ (auctions (db w))).
  assert (H : respects (same_about id)
                (forEach activeAuctions (fun auction =>
                   when (is_scheduled (status auction)
                         && (start_time auction <=? now))
                     (AuctionService.startAuction now (a_id auction)) ;;;
                   when (is_live (status auction)
                         && (effectiveEndTime auction <=? now))
                     (AuctionService.endAuction now (a_id auction))))).
  { apply respects_forEach; prove_PreOrder. intros x Hx.
    apply filter_In in Hx. destruct Hx as [Hx Hact].
    assert (Hne : a_id x <> id).
    { intros E. rewrite (Hin x Hx E) in Hact. discriminate. }
    repeat respects_step. }
  specialize (H w). unfold same_about in H.
  destruct (forEach activeAuctions _ w) as [[[]|e] w']; exact H.
Qed.

Lemma endAuction_sets_ended (now id : Z) (w : World) (auction : Auction) :
  fst (AuctionService.getAuctionDetails id w) = Return (Some auction) ->
  forall a, In a (auctions (db (snd (AuctionService.endAuction now id w)))) ->
            a_id a = id -> status a = ended /\ result a <> None.
Proof.
  intros Ha a Hin Hid.
  destruct (endAuction_spec now id w auction _ Ha eq_refl) as (Hau & _).
  rewrite Hau in Hin. apply in_map_iff in Hin. destruct Hin as (a0 & E & _).
  destruct (a_id a0 =? id) eqn:E0.
  - subst a. cbn. split; [reflexivity|discriminate].
  - subst a. apply Z.eqb_neq in E0. contradiction.
Qed.

(** C8 (amended). Once [endAuction] has finalised an auction, its rows have
    [status = 'ended'] and a result, and every later tick of the clock, at
    any time, leaves all the world holds about that auction as the
    finalisation left it: the row, the bids, the settlement requests, the
    notifications and the emitted messages. The guard is the status filter
    of the clock's query; [endAuction] called on its own a second time
    repeats its writes. *)
Theorem clock_finalises_once (now now' id : Z) (w : World) (auction : Auction) :
  fst (AuctionService.getAuctionDetails id w) = Return (Some auction) ->
  let w1 := snd (AuctionService.endAuction now id w) in
  let w2 := snd (AuctionService.checkAuctionStatus now' w1) in
  (forall a, In a (auctions (db w1)) -> a_id a = id ->
             status a = ended /\ result a <> None)
  /\ about id w2 = about id w1
  /\ settlements id w2 = settlements id w1.
Proof.
  intros Ha w1 w2.
  pose proof (endAuction_sets_ended now id w auction Ha) as Hended.
  fold w1 in Hended.
  assert (Hab : about id w2 = about id w1).
  { apply checkAuctionStatus_skips_inactive. intros a Hin Hid.
    destruct (Hended a Hin Hid) as [-> _]. reflexivity. }
  split; [exact Hended|]. split; [exact Hab|].
  unfold about in Hab. congruence.
Qed.

Lemma clock_finalises_once_witness :
  let w := snd (AuctionService.placeBid 10 10
                  (AuctionService.mkBidData 1 2 368000000 normal 0)
                  (world_at 0 true)) in
  let w1 := snd (AuctionService.endAuction 1000000000 1 w) in
  let w2 := snd (AuctionService.checkAuctionStatus 1000001000 w1) in
  List.length (settlements 1 w1) = 1%nat
  /\ settlements 1 w2 = settlements 1 w1.
Proof.
  intros w w1 w2. split; [vm_compute; reflexivity|].
  exact (proj2 (proj2 (clock_finalises_once 1000000000 1000001000 1 w
           (mkAuction 1 1 0 1000000000 None 320000000 368000000 5 1 live
                      None None true 5 None)
           ltac:(vm_compute; reflexivity)))).
Defined.

(* ------------------------------------------------------------------ *)
(** ** C9, second half: [processAutoBids] keeps to the ceilings *)

Lemma In_insert_desc (x y : (Z * Z) * AutoBid) (l : list ((Z * Z) * AutoBid)) :
  In x (AuctionService.insert_desc y l) -> x = y \/ In x l.
Proof.
  induction l as [|z l IH]; cbn.
  - intros [<-|[]]. now left.
  - destruct (maxAmount (snd z) <? maxAmount (snd y)); cbn.
    + intros [<-|[<-|H]]; auto.
    + intros [<-|H]; auto. destruct (IH H); auto.
Qed.

Lemma In_sort_desc (x : (Z * Z) * AutoBid) (l : list ((Z * Z) * AutoBid)) :
  In x (AuctionService.sort_desc l) -> In x l.
Proof.
  unfold AuctionService.sort_desc.
  assert (H : forall acc, In x (fold_left
                (fun acc y => AuctionService.insert_desc y acc) l acc) ->
              In x acc \/ In x l).
  { induction l as [|y l IH]; intros acc Hin; cbn in *; [now left|].
    destruct (IH _ Hin) as [H|H]; [|now right; right].
    destruct (In_insert_desc _ _ _ H) as [<-|H']; [right; now left|now left]. }
  intros Hin. destruct (H [] Hin) as [[]|Hl]. exact Hl.
Qed.

Lemma accepted_bids_rows (nb : Bid) (l : list Bid) (b : Bid) :
  In b (accepted_bids nb l) -> exists b0, In b0 (l ++ [nb]) /\ same_row b b0.
Proof.
  unfold accepted_bids, mark_winning, unmark_others. rewrite map_map.
  intros Hin. apply in_map_iff in Hin. destruct Hin as (b0 & E & Hin).
  exists b0. split; [exact Hin|]. subst b.
  destruct (_ && _); cbn;
    match goal with |- context [if ?c then _ else _] => destruct c end;
    repeat split.
Qed.

#[local] Instance keeps_ceilings_PreOrder (id : Z) (w0 : World) :
  PreOrder (keeps_ceilings id w0).
Proof.
  split.
  - intros w H. exact H.
  - intros a b c H1 H2 H. apply H2, H1, H.
Qed.

Lemma same_row_trans (a b c : Bid) : same_row a b -> same_row b c -> same_row a c.
Proof.
  intros (H1 & H2 & H3 & H4 & H5 & H6) (G1 & G2 & G3 & G4 & G5 & G6).
  repeat split; congruence.
Qed.

Lemma by_agent_same_row (id : Z) (agents : list ((Z * Z) * AutoBid)) (b b0 : Bid) :
  same_row b b0 -> by_agent id agents b0 -> by_agent id agents b.
Proof.
  intros (H1 & H2 & H3 & H4 & H5 & H6) (key & agent & Hin & G).
  exists key, agent. split; [exact Hin|].
  rewrite H2, H3, H4, H6. exact G.
Qed.

Lemma placeBid_keeps_ceilings (now now' id : Z) (w0 : World)
  (key : Z * Z) (agent : AutoBid) (amt : Z) :
  In (key, agent) (autoBids w0) -> fst key = id -> ab_active agent = true ->
  amt <= maxAmount agent ->
  respects (keeps_ceilings id w0)
    (AuctionService.placeBid now now'
       (AuctionService.mkBidData id (ab_userId agent) amt auto 0)).
Proof.
  intros Hin Hkey Hact Hle w HP.
  pose proof (placeBid_spec now now'
                (AuctionService.mkBidData id (ab_userId agent) amt auto 0) w) as H.
  destruct (AuctionService.placeBid _ _ _ w) as [[bidId|e] w']; cbn [snd];
    [contradiction|].
  destruct H as [(_ & _ & _ & _ & _ & _ & a & _ & _ & _ & Hb & _)|H].
  - intros b Hb'. rewrite Hb in Hb'.
    apply accepted_bids_rows in Hb'. destruct Hb' as (b0 & Hb0 & Hrow).
    apply in_app_iff in Hb0. destruct Hb0 as [Hb0|[<-|[]]].
    + destruct (HP b0 Hb0) as [(b1 & Hb1 & Hrow1)|Hag].
      * left. exists b1. split; [exact Hb1|]. eapply same_row_trans; eassumption.
      * right. eapply by_agent_same_row; eassumption.
    + right. eapply by_agent_same_row; [exact Hrow|].
      exists key, agent. cbn. repeat split; assumption.
  - destruct H as [(-> & _)|(_ & ->)]; exact HP.
Qed.

Lemma autoBids_loop_keeps_ceilings (now now' id : Z) (w0 : World)
  (entries : list ((Z * Z) * AutoBid)) (amt : Z) :
  (forall e, In e entries ->
             In e (autoBids w0) /\ fst (fst e) = id /\ ab_active (snd e) = true) ->
  respects (keeps_ceilings id w0)
           (AuctionService.autoBids_loop now now' id entries amt).
Proof.
  revert amt. induction entries as [|[key agent] l IH]; intros amt Hall;
    cbn [AuctionService.autoBids_loop].
  - repeat respects_step.
  - assert (Hl : forall e, In e l ->
               In e (autoBids w0) /\ fst (fst e) = id /\ ab_active (snd e) = true)
      by (intros e He; apply Hall; now right).
    destruct (Hall (key, agent) (or_introl eq_refl)) as (Hin & Hkey & Hact).
    destruct (AuctionService.calculateNextBid amt <=? maxAmount agent) eqn:E;
      [|now apply IH].
    apply Z.leb_le in E.
    apply respects_bind; prove_PreOrder; [|intros _].
    + now apply (placeBid_keeps_ceilings now now' id w0 key agent).
    + apply respects_bind; prove_PreOrder; [|intros _; now apply IH].
      intros w HP. exact HP.
Qed.

(** X14. Whatever [processAutoBids] adds to [bids], it adds for an active
    agent registered for the auction, as a bid of type auto, at or under
    that agent's [maxAmount]; the rows already there change in the winning
    flag at most. *)
Lemma processAutoBids_within_ceilings (now now' id newBidAmount : Z) (w : World)
  (b : Bid) :
  In b (bids (db (snd (AuctionService.processAutoBids now now' id
                         newBidAmount w)))) ->
  (exists b0, In b0 (bids (db w)) /\ same_row b b0)
  \/ by_agent id (autoBids w) b.
Proof.
  unfold AuctionService.processAutoBids, try_catch, bind, gets. cbn [fst snd].
  set (entries := AuctionService.sort_desc _).
  assert (H : keeps_ceilings id w w
                (snd (AuctionService.autoBids_loop now now' id entries
                        newBidAmount w))).
  { apply autoBids_loop_keeps_ceilings. intros e He.
    apply In_sort_desc, filter_In in He. destruct He as [He Hc].
    apply andb_prop in Hc. destruct Hc as [Hc _].
    apply andb_prop in Hc. destruct Hc as [Hk Ha].
    apply Z.eqb_eq in Hk. auto. }
  assert (H0 : within_ceilings id w w).
  { intros b0 Hb0. left. exists b0. split; [exact Hb0|]. repeat split. }
  specialize (H H0).
  destruct (AuctionService.autoBids_loop now now' id entries newBidAmount w)
    as [[[]|e] w']; cbn [snd] in *; intros Hin; exact (H b Hin).
Qed.

(** On an auction whose current price is 0 a pass of the resolver from 0
    places a bid of 0 for the agent of bidder 2, which [placeBid] commits.
    From any higher amount the bid it computes is refused as too low: from
    100, with bidder 3 leading at 100, it asks 105 where [placeBid] asks
    1005. *)
Example processAutoBids_on_the_seeded_auction :
  let w1 := snd (AuctionService.setupAutoBid 1 2 400000000 (world_at 0 true)) in
  let w2 := snd (AuctionService.processAutoBids 20 20 1 0 w1) in
  let w3 := snd (AuctionService.placeBid 10 10
                   (AuctionService.mkBidData 1 3 100 normal 0) w1) in
  let w4 := snd (AuctionService.processAutoBids 20 20 1 100 w3) in
  bids (db w2) = [mkBid 1 1 2 0 0 auto true]
  /\ AuctionService.calculateNextBid 100 = 105
  /\ AuctionService.calculateMinBid 100 5 = "1005"%string
  /\ bids (db w3) = [mkBid 1 1 3 100 0 normal true]
  /\ w4 = w3.
Proof. vm_compute. repeat split. Qed.

(* ------------------------------------------------------------------ *)
(** ** The store [endAuction] expects is the store [placeBid] leaves *)

Lemma placeBid_user (now now' : Z) (d : AuctionService.BidData) (w : World) :
  match AuctionService.placeBid now now' d w with
  | (Throw ER_BAD_FIELD_ERROR, _) =>
      exists u, fst (AuctionService.getUserDetails (AuctionService.userId d) w)
                = Return (Some u)
  | _ => True
  end.
Proof.
  destruct w as [[au pr us wl bs tr no al] k n em ab c].
  unfold AuctionService.placeBid. run_m.
  repeat (break_match; run_m).
  all: try exact I.
  all: try discriminate.
  all: repeat match goal with
              | H : (_, _) = (_, _) |- _ => inversion H; clear H; subst
              end.
  all: try discriminate.
  all: eexists; reflexivity.
Qed.

Lemma placeBid_user_exists (now now' : Z) (d : AuctionService.BidData)
  (w w' : World) (o : Outcome Z) :
  AuctionService.placeBid now now' d w = (o, w') -> committed o = true ->
  user_exists (db w) (AuctionService.userId d) = true.
Proof.
  intros E Hc. destruct (committed_spec _ _ _ _ _ _ E Hc) as [-> _].
  pose proof (placeBid_user now now' d w) as H. rewrite E in H.
  destruct H as [u Hu].
  unfold AuctionService.getUserDetails, gets in Hu. cbn [fst] in Hu.
  injection Hu as Hu.
  apply hd_error_filter_true in Hu. destruct Hu as [Hu Hin].
  apply andb_prop in Hu. destruct Hu as [Hu _].
  unfold user_exists. apply existsb_exists. now exists u.
Qed.

Lemma filter_unmark_fresh (id bidId : Z) (l : list Bid) :
  Forall (fun b => b_id b < bidId) l ->
  filter (fun b => b_id b =? bidId) (unmark_auction id l) = [].
Proof.
  intros H. induction H as [|b l Hb _ IH]; [reflexivity|].
  cbn [unmark_auction map filter].
  assert (E : (b_id b =? bidId) = false) by (apply Z.eqb_neq; lia).
  destruct (auction_id b =? id); cbn; rewrite E; exact IH.
Qed.

(** The store after the statements of a committed bid: the auction's row
    is the updated row, the winning bid is the inserted row, and
    [getBidDetails] finds it under its id. *)
Lemma accepted_store_winner (w w' : World) (nb : Bid) (f : Auction -> Auction)
  (auction : Auction) :
  Forall (fun b => b_id b < b_id nb) (bids (db w)) ->
  user_exists (db w) (user_id nb) = true ->
  properties (db w') = properties (db w) ->
  users (db w') = users (db w) ->
  (forall a, a_id (f a) = a_id a /\ property_id (f a) = property_id a) ->
  bids (db w') = accepted_bids nb (bids (db w)) ->
  auctions (db w')
    = map (fun x => if a_id x =? auction_id nb then f x else x)
          (auctions (db w)) ->
  fst (AuctionService.getAuctionDetails (auction_id nb) w)
    = Return (Some auction) ->
  fst (AuctionService.getAuctionDetails (auction_id nb) w')
    = Return (Some (f auction))
  /\ fst (AuctionService.getWinningBid (auction_id nb) w')
     = Return (Some (set_is_winning true nb))
  /\ fst (AuctionService.getBidDetails (b_id nb) w')
     = Return (Some (set_is_winning true nb)).
Proof.
  intros Hfr Hux Hp Hu Hf Hb Hau Ha.
  rewrite accepted_bids_shape in Hb by exact Hfr.
  split; [|split].
  - eapply getAuctionDetails_after_update with (w := w); eauto.
  - unfold AuctionService.getWinningBid, gets. cbn [fst].
    rewrite Hb, filter_app, rev_app_distr.
    cbn [filter set_is_winning auction_id is_winning user_id].
    rewrite Z.eqb_refl. unfold user_exists in *. rewrite Hu, Hux. reflexivity.
  - unfold AuctionService.getBidDetails, gets. cbn [fst].
    rewrite Hb, filter_app.
    rewrite filter_unmark_fresh by exact Hfr. cbn. now rewrite Z.eqb_refl.
Qed.

(** X6. After a bid committed by [placeBid], in a store whose bid ids are
    below a positive counter, the auction counts a bid, its current price is
    the bid's amount, and the winning bid [getWinningBid] returns is the
    inserted row, found under its id by [getBidDetails]. *)
Lemma placeBid_establishes_winner (now now' : Z) (d : AuctionService.BidData)
  (w w' : World) (o : Outcome Z) (auction : Auction) :
  fresh_ids w -> 0 < next_bid_id w ->
  fst (AuctionService.getAuctionDetails (AuctionService.auctionId d) w)
    = Return (Some auction) ->
  0 <= current_bid_count auction ->
  AuctionService.placeBid now now' d w = (o, w') -> committed o = true ->
  exists auction' wb,
    fst (AuctionService.getAuctionDetails (AuctionService.auctionId d) w')
      = Return (Some auction')
    /\ 0 < current_bid_count auction'
    /\ current_price auction' = AuctionService.bd_amount d
    /\ fst (AuctionService.getWinningBid (AuctionService.auctionId d) w')
       = Return (Some wb)
    /\ amount wb = current_price auction'
    /\ b_id wb <> 0
    /\ fst (AuctionService.getBidDetails (b_id wb) w') = Return (Some wb).
Proof.
  intros Hf Hn Ha Hc E Hcm.
  pose proof (placeBid_user_exists _ _ _ _ _ _ E Hcm) as Hux.
  pose proof (placeBid_frame now now' d w) as [Hp Hu].
  rewrite E in Hp, Hu. cbn [snd] in Hp, Hu.
  destruct (committed_spec _ _ _ _ _ _ E Hcm)
    as (_ & _ & _ & _ & _ & _ & a & Ha' & _ & _ & Hb & Hau).
  rewrite Ha in Ha'. injection Ha' as <-.
  set (nb := mkBid (next_bid_id w) (AuctionService.auctionId d)
                   (AuctionService.userId d)
                   (AuctionService.bd_amount d) (AuctionService.bd_maxAmount d)
                   (AuctionService.bidType d) false) in *.
  set (f := fun x : Auction =>
              if extends now auction
              then set_extended_end_time (now' + extendThreshold auction)
                     (set_price_and_count (AuctionService.bd_amount d) x)
              else set_price_and_count (AuctionService.bd_amount d) x).
  assert (Hau' : auctions (db w')
                 = map (fun x => if a_id x =? auction_id nb then f x else x)
                       (auctions (db w))).
  { rewrite Hau. unfold accepted_auctions, extended, priced, f. cbn [auction_id nb].
    destruct (extends now auction); [|reflexivity].
    rewrite map_map. apply map_ext. intros x.
    destruct (a_id x =? AuctionService.auctionId d) eqn:Ex; cbn; now rewrite Ex. }
  destruct (accepted_store_winner w w' nb f auction) as (G1 & G2 & G3);
    try assumption.
  { intros x. unfold f. destruct (extends now auction); split; reflexivity. }
  exists (f auction), (set_is_winning true nb).
  assert (Hcount : current_bid_count (f auction) = current_bid_count auction + 1)
    by (unfold f; destruct (extends now auction); reflexivity).
  assert (Hprice : current_price (f auction) = AuctionService.bd_amount d)
    by (unfold f; destruct (extends now auction); reflexivity).
  repeat split; try assumption; try lia.
  - now rewrite Hprice.
  - cbn. lia.
Qed.

Lemma postBid_frame (now : Z) (req : BidsRoute.Request) (w : World) :
  let w' := snd (BidsRoute.postBid now req w) in
  properties (db w') = properties (db w) /\ users (db w') = users (db w).
Proof. cbv zeta. rewrite postBid_noop. split; reflexivity. Qed.

(* ------------------------------------------------------------------ *)
(** ** Two ticks of the clock *)

Lemma returns_try_catch {A} (m : M A) (h : Error -> M A) :
  (forall e, returns (h e)) -> returns (try_catch m h).
Proof.
  intros Hh w. unfold try_catch. destruct (m w) as [[a|e] w1].
  - now exists a.
  - apply Hh.
Qed.

Lemma forEach_app {A} (l1 l2 : list A) (body : A -> M unit) (w : World) :
  (forall x, returns (body x)) ->
  forEach (l1 ++ l2) body w = forEach l2 body (snd (forEach l1 body w)).
Proof.
  intros Hb. revert w. induction l1 as [|x l1 IH]; intros w; [reflexivity|].
  cbn [app forEach]. unfold bind.
  destruct (Hb x w) as [[] Hx]. destruct (body x w) as [o w1].
  cbn in Hx. subst o. apply IH.
Qed.

Lemma startAuction_same_owners (now id : Z) :
  respects same_owners (AuctionService.startAuction now id).
Proof.
  unfold AuctionService.startAuction, AuctionService.notifyAuctionStart,
    AuctionService.createNotification, update_auction, emit.
  repeat respects_step.
  all: intros w; split; reflexivity.
Qed.

Lemma getAuctionDetails_about (id : Z) (w w' : World) :
  about id w' = about id w -> same_owners w w' ->
  fst (AuctionService.getAuctionDetails id w')
  = fst (AuctionService.getAuctionDetails id w).
Proof.
  intros Hab [Hp Hu]. unfold about in Hab.
  injection Hab as Hau _ _ _ _.
  unfold AuctionService.getAuctionDetails, gets. cbn [fst]. do 2 f_equal.
  assert (Hsplit : forall t l,
             filter (fun a => (a_id a =? id) && joins_owner t a) l
             = filter (joins_owner t) (filter (fun a => a_id a =? id) l)).
  { intros t l. induction l as [|a l IH]; [reflexivity|].
    cbn [filter]. destruct (a_id a =? id); cbn; [|exact IH].
    destruct (joins_owner t a); now rewrite IH. }
  rewrite !Hsplit, Hau. apply filter_ext. intros a.
  now apply joins_owner_ext.
Qed.

Lemma tick_body_returns (now : Z) (auction : Auction) :
  returns (tick_body now auction).
Proof.
  unfold tick_body. apply returns_bind; [|intros _].
  - destruct (_ && _); cbn [when]; [|apply returns_ret].
    apply returns_try_catch. intros; apply returns_ret.
  - destruct (_ && _); cbn [when]; [|apply returns_ret].
    apply returns_try_catch. intros; apply returns_ret.
Qed.

Lemma checkAuctionStatus_loop (now : Z) (w : World) :
  snd (AuctionService.checkAuctionStatus now w)
  = snd (forEach (activeAuctions w) (tick_body now) w).
Proof.
  unfold AuctionService.checkAuctionStatus, try_catch, bind, gets.
  cbn [fst snd].
  change (forEach _ _ w) with (forEach (activeAuctions w) (tick_body now) w).
  destruct (forEach (activeAuctions w) (tick_body now) w) as [[[]|e] w'];
    reflexivity.
Qed.

#[local] Hint Resolve startAuction_same_owners endAuction_same_owners
  : respects.

Lemma tick_body_others (now id : Z) (l : list Auction) :
  (forall x, In x l -> a_id x <> id) ->
  respects (same_about id) (forEach l (tick_body now))
  /\ respects same_owners (forEach l (tick_body now)).
Proof.
  intros Hl. split; apply respects_forEach; prove_PreOrder;
    intros x Hx; specialize (Hl x Hx); unfold tick_body; repeat respects_step.
Qed.

(** A tick finalises every auction that is live and due. *)
Lemma checkAuctionStatus_ends_due (now id : Z) (w : World) (auction : Auction) :
  unique_auction_ids w ->
  fst (AuctionService.getAuctionDetails id w) = Return (Some auction) ->
  status auction = live ->
  effectiveEndTime auction <= now ->
  forall a, In a (auctions (db (snd (AuctionService.checkAuctionStatus now w)))) ->
            a_id a = id -> status a = ended /\ result a <> None.
Proof.
  intros Hu Ha Hl Hdue.
  assert (Hfound : In auction (auctions (db w)) /\ a_id auction = id).
  { unfold AuctionService.getAuctionDetails, gets in Ha. cbn in Ha.
    injection Ha as Ha'. apply hd_error_filter_true in Ha'.
    destruct Ha' as [Hid Hin]. apply andb_prop in Hid.
    destruct Hid as [Hid _]. apply Z.eqb_eq in Hid. now split. }
  destruct Hfound as [Hin Hid].
  rewrite checkAuctionStatus_loop.
  assert (Hact : In auction (activeAuctions w)).
  { apply filter_In. split; [exact Hin|]. rewrite Hl. reflexivity. }
  destruct (in_split _ _ Hact) as (l1 & l2 & Hsplit).
  assert (Hother : forall x, In x (l1 ++ l2) -> a_id x <> id).
  { intros x Hx E.
    assert (Hxa : In x (activeAuctions w))
      by (rewrite Hsplit; apply in_app_iff; apply in_app_iff in Hx;
          destruct Hx; [now left|now right; right]).
    assert (x = auction).
    { apply (unique_id_row (auctions (db w))); auto.
      - apply filter_In in Hxa. tauto.
      - congruence. }
    subst x.
    assert (Hnd : NoDup (activeAuctions w)).
    { apply NoDup_filter. eapply NoDup_map_inv. exact Hu. }
    rewrite Hsplit in Hnd. apply NoDup_remove_2 in Hnd. contradiction. }
  rewrite Hsplit. rewrite forEach_app by apply tick_body_returns.
  destruct (tick_body_others now id l1
              (fun x Hx => Hother x (in_or_app _ _ _ (or_introl Hx))))
    as [Hab1 Hso1].
  specialize (Hab1 w). specialize (Hso1 w).
  set (wa := snd (forEach l1 (tick_body now) w)) in *.
  cbn [forEach]. unfold bind at 1.
  assert (Hga : fst (AuctionService.getAuctionDetails id wa)
                = Return (Some auction)).
  { rewrite <- Ha. now apply getAuctionDetails_about. }
  assert (Hbx : tick_body now auction wa
                = (fst (tick_body now auction wa),
                   snd (AuctionService.endAuction now id wa))).
  { unfold tick_body. rewrite Hl, Hid. cbn [is_scheduled is_live andb when].
    apply Z.leb_le in Hdue. rewrite Hdue. cbn [when].
    unfold bind, ret.
    destruct (AuctionService.endAuction now id wa) as [[[]|e] wb']; reflexivity. }
  destruct (tick_body_returns now auction wa) as [[] Hret].
  rewrite Hbx in Hret |- *. cbn [fst] in Hret. rewrite Hret.
  set (wb := snd (AuctionService.endAuction now id wa)) in *.
  destruct (tick_body_others now id l2
              (fun x Hx => Hother x (in_or_app _ _ _ (or_intror Hx))))
    as [Hab2 _].
  specialize (Hab2 wb).
  pose proof (endAuction_sets_ended now id wa auction Hga) as Hended.
  fold wb in Hended.
  intros a Hina Hida. apply Hended; [|exact Hida].
  unfold same_about, about in Hab2. injection Hab2 as Hau _ _ _ _.
  assert (Hf : In a (filter (fun a => a_id a =? id)
                        (auctions (db (snd (forEach l2 (tick_body now) wb))))))
    by (apply filter_In; split; [exact Hina|now apply Z.eqb_eq]).
  rewrite Hau in Hf. apply filter_In in Hf. tauto.
Qed.

(** X20. Two ticks in a row over a live auction that is due: after the first
    its rows are ended with a result, and the second leaves all the world
    holds about it untouched, its settlement requests among the rest. *)
Lemma two_ticks_finalise_once (now now' id : Z) (w : World) (auction : Auction) :
  unique_auction_ids w ->
  fst (AuctionService.getAuctionDetails id w) = Return (Some auction) ->
  status auction = live ->
  effectiveEndTime auction <= now ->
  let w1 := snd (AuctionService.checkAuctionStatus now w) in
  let w2 := snd (AuctionService.checkAuctionStatus now' w1) in
  (forall a, In a (auctions (db w1)) -> a_id a = id ->
             status a = ended /\ result a <> None)
  /\ about id w2 = about id w1.
Proof.
  intros Hu Ha Hl Hdue w1 w2.
  pose proof (checkAuctionStatus_ends_due now id w auction Hu Ha Hl Hdue)
    as Hended.
  split; [exact Hended|].
  apply checkAuctionStatus_skips_inactive. intros a Hin Hid.
  destruct (Hended a Hin Hid) as [-> _].
  reflexivity.
Qed.

(* ================================================================== *)
(** * Further properties of the engine *)

(** ** Concrete runs of the rejections and of the acceptance *)

(** The seeded auction once ended: a bid on it is thrown back. *)
Lemma placeBid_rejects_not_live_witness :
  let w := snd (AuctionService.endAuction 1000000000 1 (world0 true)) in
  AuctionService.placeBid 1000000001 1000000001
    (AuctionService.mkBidData 1 2 368000000 normal 0) w
  = (Throw Auction_is_not_active, w).
Proof.
  intros w. apply placeBid_rejects_not_live.
  intros a H. vm_compute in H. injection H as <-. discriminate.
Defined.

(** On an auction at a price of 0 the agent of bidder 2, of ceiling
    400,000,000, is asked to answer an amount of 0: the row the pass adds,
    a bid of 0, is within the ceiling. *)
Lemma processAutoBids_within_ceilings_witness :
  let w1 := snd (AuctionService.setupAutoBid 1 2 400000000 (world_at 0 true)) in
  let b := mkBid 1 1 2 0 0 auto true in
  In b (bids (db (snd (AuctionService.processAutoBids 20 20 1 0 w1))))
  /\ ((exists b0, In b0 (bids (db w1)) /\ same_row b b0)
      \/ by_agent 1 (autoBids w1) b).
Proof.
  intros w1 b.
  assert (Hin : In b (bids (db (snd (AuctionService.processAutoBids 20 20 1
                                       0 w1)))))
    by (vm_compute; left; reflexivity).
  split; [exact Hin|].
  exact (processAutoBids_within_ceilings 20 20 1 0 w1 b Hin).
Defined.

Lemma placeBid_establishes_winner_witness :
  let d := AuctionService.mkBidData 1 2 35000000017500000 normal 0 in
  let w' := snd (AuctionService.placeBid 10 10 d (world0 true)) in
  exists auction' wb,
    fst (AuctionService.getAuctionDetails 1 w') = Return (Some auction')
    /\ 0 < current_bid_count auction'
    /\ current_price auction' = 35000000017500000
    /\ fst (AuctionService.getWinningBid 1 w') = Return (Some wb)
    /\ amount wb = current_price auction'
    /\ b_id wb <> 0
    /\ fst (AuctionService.getBidDetails (b_id wb) w') = Return (Some wb).
Proof.
  intros d w'.
  apply (placeBid_establishes_winner 10 10 d (world0 true) w'
           (Throw ER_BAD_FIELD_ERROR) auction1).
  - constructor.
  - reflexivity.
  - reflexivity.
  - discriminate.
  - vm_compute. reflexivity.
  - reflexivity.
Defined.

(** An auction started from a price of 0, with one bid of 368,000,000, at
    its deadline and one second on. *)
Lemma two_ticks_finalise_once_witness :
  let w := snd (AuctionService.placeBid 10 10
                  (AuctionService.mkBidData 1 2 368000000 normal 0)
                  (world_at 0 true)) in
  let w1 := snd (AuctionService.checkAuctionStatus 1000000000 w) in
  let w2 := snd (AuctionService.checkAuctionStatus 1000001000 w1) in
  List.length (settlements 1 w1) = 1%nat /\ about 1 w2 = about 1 w1.
Proof.
  intros w w1 w2. split; [vm_compute; reflexivity|].
  apply (two_ticks_finalise_once 1000000000 1000001000 1 w
           (mkAuction 1 1 0 1000000000 None 320000000 368000000 5 1 live
                      None None true 5 None)).
  - repeat constructor. intros [].
  - vm_compute. reflexivity.
  - reflexivity.
  - vm_compute. discriminate.
Defined.

(* ------------------------------------------------------------------ *)
(** ** When [placeBid] commits, and what a refusal leaves *)

Lemma hd_error_filter_some {A} (p : A -> bool) (l : list A) (x : A) :
  In x l -> p x = true -> exists y, hd_error (filter p l) = Some y.
Proof.
  intros Hin Hp.
  assert (H : In x (filter p l)) by (apply filter_In; now split).
  destruct (filter p l) as [|y l']; [contradiction|]. now exists y.
Qed.

Lemma placeBid_user_active (now now' : Z) (d : AuctionService.BidData)
  (w w' : World) :
  AuctionService.placeBid now now' d w = (Throw ER_BAD_FIELD_ERROR, w') ->
  exists u, In u (users (db w)) /\ u_id u = AuctionService.userId d
            /\ u_status u = active.
Proof.
  intros E. pose proof (placeBid_user now now' d w) as H. rewrite E in H.
  destruct H as [u Hu].
  unfold AuctionService.getUserDetails, gets in Hu. cbn [fst] in Hu.
  injection Hu as Hu.
  apply hd_error_filter_true in Hu. destruct Hu as [Hu Hin].
  apply andb_prop in Hu. destruct Hu as [Hid Hact].
  exists u. repeat split; [exact Hin|now apply Z.eqb_eq|].
  destruct (u_status u); (reflexivity || discriminate).
Qed.

(** What a committed bid has passed besides the tests of the handler: the
    range of the two BIGINT columns, and the unique key at each of the three
    writes to [bids]. *)
Lemma placeBid_writes (now now' : Z) (d : AuctionService.BidData) (w : World) :
  match AuctionService.placeBid now now' d w with
  | (Throw ER_BAD_FIELD_ERROR, _) =>
      in_BIGINT (AuctionService.bd_amount d) = true
      /\ in_BIGINT (AuctionService.bd_maxAmount d) = true
      /\ (unique_winning_bid w = true ->
          writes_ok (mkBid (next_bid_id w) (AuctionService.auctionId d)
                       (AuctionService.userId d) (AuctionService.bd_amount d)
                       (AuctionService.bd_maxAmount d)
                       (AuctionService.bidType d) false)
                    (bids (db w)) = true)
  | _ => True
  end.
Proof.
  destruct w as [[au pr us wl bs tr no al] k n em ab c].
  unfold AuctionService.placeBid, writes_ok, accepted_bids. run_m.
  repeat (break_match; run_m).
  all: try exact I.
  all: try discriminate.
  all: repeat match goal with
              | H : (_, _) = (_, _) |- _ => inversion H; clear H; subst
              end.
  all: try discriminate.
  all: repeat match goal with
              | H : negb (_ && _) = false |- _ =>
                  apply negb_false_iff, andb_prop in H; destruct H
              end.
  all: repeat split; try assumption.
  all: intros ->; cbn [andb] in *.
  all: repeat match goal with
              | H : negb _ = false |- _ => apply negb_false_iff in H
              end.
  all: cbn [auction_id b_id]; use_eqns; reflexivity.
Qed.



Lemma placeBid_emits (now now' : Z) (d : AuctionService.BidData) (w : World) :
  match AuctionService.placeBid now now' d w with
  | (Throw ER_BAD_FIELD_ERROR, w') =>
      In (bid_update (AuctionService.auctionId d) (next_bid_id w)
            (AuctionService.userId d) (AuctionService.bd_amount d)
            (AuctionService.bidType d))
         (emitted w')
  | _ => True
  end.
Proof.
  destruct w as [[au pr us wl bs tr no al] k n em ab c].
  unfold AuctionService.placeBid. run_m.
  repeat (break_match; run_m).
  all: try exact I.
  all: try discriminate.
  all: repeat match goal with
              | H : (_, _) = (_, _) |- _ => inversion H; clear H; subst
              end.
  all: try discriminate.
  all: cbn [emitted]; rewrite ?in_app_iff; cbn [In]; tauto.
Qed.

(** X3. A bid [placeBid] throws back before its commit, with any error but
    that of the audit INSERT, leaves the tables, the emitted messages and
    the registered agents as they were, however far the transaction went;
    at most the id counter of [bids] has advanced, and only for a refused
    write. The error of the audit INSERT comes after the commit: the bid
    is then in [bids], flagged winning, and its [bid_update] has been
    emitted. *)
Theorem placeBid_failure_is_clean (now now' : Z) (d : AuctionService.BidData)
  (w w' : World) (e : Error) :
  AuctionService.placeBid now now' d w = (Throw e, w') ->
  (e <> ER_BAD_FIELD_ERROR ->
   db w' = db w /\ emitted w' = emitted w /\ autoBids w' = autoBids w
   /\ (next_bid_id w' = next_bid_id w
       \/ (e = ER_DUP_ENTRY /\ next_bid_id w' = next_bid_id w + 1)))
  /\ (e = ER_BAD_FIELD_ERROR ->
      In (mkBid (next_bid_id w) (AuctionService.auctionId d)
            (AuctionService.userId d) (AuctionService.bd_amount d)
            (AuctionService.bd_maxAmount d) (AuctionService.bidType d) true)
         (bids (db w'))
      /\ In (bid_update (AuctionService.auctionId d) (next_bid_id w)
               (AuctionService.userId d) (AuctionService.bd_amount d)
               (AuctionService.bidType d))
            (emitted w')
      /\ audit_logs (db w') = audit_logs (db w)
      /\ next_bid_id w' = next_bid_id w + 1).
Proof.
  intros E. split.
  - intros Hne. pose proof (placeBid_spec now now' d w) as H. rewrite E in H.
    destruct H as [(-> & _)|[(-> & _)|(-> & ->)]].
    + contradiction.
    + repeat split. now left.
    + repeat split. right. split; reflexivity.
  - intros ->.
    destruct (committed_spec _ _ _ _ _ _ E eq_refl)
      as (_ & Hn & _ & _ & _ & Hal & a & _ & _ & _ & Hb & _).
    pose proof (placeBid_emits now now' d w) as He. rewrite E in He.
    split; [|split; [exact He|split; [exact Hal|exact Hn]]].
    rewrite Hb. unfold accepted_bids, mark_winning, unmark_others.
    rewrite map_map. apply in_map_iff.
    exists (mkBid (next_bid_id w) (AuctionService.auctionId d)
              (AuctionService.userId d) (AuctionService.bd_amount d)
              (AuctionService.bd_maxAmount d) (AuctionService.bidType d) false).
    split; [|apply in_or_app; right; left; reflexivity].
    cbn [auction_id b_id]. rewrite !Z.eqb_refl. reflexivity.
Qed.

(** On the seeded auction, with the unique key: a bid under the minimum
    asked is thrown back and changes nothing; the bid of the amount asked is
    committed and then thrown. *)
Lemma placeBid_failure_is_clean_witness :
  let low := AuctionService.mkBidData 1 2 368000000 normal 0 in
  let asked := AuctionService.mkBidData 1 2 35000000017500000 normal 0 in
  let r := AuctionService.placeBid 10 10 low (world0 true) in
  let r' := AuctionService.placeBid 10 10 asked (world0 true) in
  (fst r = Throw (Bid_must_be_at_least "35000000017500000")
   /\ db (snd r) = db (world0 true) /\ emitted (snd r) = emitted (world0 true))
  /\ (fst r' = Throw ER_BAD_FIELD_ERROR
      /\ In (mkBid 1 1 2 35000000017500000 0 normal true) (bids (db (snd r')))
      /\ In (bid_update 1 1 2 35000000017500000 normal) (emitted (snd r'))).
Proof.
  intros low asked r r'. split.
  - split; [vm_compute; reflexivity|].
    destruct (proj1 (placeBid_failure_is_clean 10 10 low (world0 true) (snd r)
                (Bid_must_be_at_least "35000000017500000")
                ltac:(vm_compute; reflexivity)) ltac:(discriminate))
      as (H1 & H2 & _).
    split; assumption.
  - split; [vm_compute; reflexivity|].
    destruct (proj2 (placeBid_failure_is_clean 10 10 asked (world0 true)
                (snd r') ER_BAD_FIELD_ERROR
                ltac:(vm_compute; reflexivity)) eq_refl)
      as (H1 & H2 & _).
    split; assumption.
Defined.

(** X5. A bid [placeBid] commits while [auto_extend_enabled] is off, or with
    [auto_extend_minutes] or more left before the effective end time, leaves
    every [extended_end_time] as it was. *)
Theorem placeBid_keeps_deadline_outside_window (now now' : Z)
  (d : AuctionService.BidData) (w w' : World) (o : Outcome Z)
  (auction : Auction) :
  fst (AuctionService.getAuctionDetails (AuctionService.auctionId d) w)
    = Return (Some auction) ->
  AuctionService.placeBid now now' d w = (o, w') -> committed o = true ->
  auto_extend_enabled auction = false
  \/ auto_extend_minutes auction * 60 * 1000 <= effectiveEndTime auction - now ->
  map extended_end_time (auctions (db w'))
  = map extended_end_time (auctions (db w)).
Proof.
  intros Ha E Hc Hout.
  destruct (committed_spec _ _ _ _ _ _ E Hc)
    as (_ & _ & _ & _ & _ & _ & a & Ha' & _ & _ & _ & Hau).
  rewrite Ha in Ha'. injection Ha' as <-.
  assert (Hext : extends now auction = false).
  { unfold extends, extendThreshold. destruct Hout as [->|Hge]; [reflexivity|].
    apply Z.ltb_ge in Hge. rewrite Hge. apply andb_false_r. }
  rewrite Hau. unfold accepted_auctions. rewrite Hext.
  unfold priced. rewrite map_map. apply map_ext. intros x.
  destruct (a_id x =? _); reflexivity.
Qed.

(** A bid on the seeded auction 10 ms after its start. *)
Lemma placeBid_keeps_deadline_witness :
  let d := AuctionService.mkBidData 1 2 35000000017500000 normal 0 in
  map extended_end_time
      (auctions (db (snd (AuctionService.placeBid 10 10 d (world0 true)))))
  = map extended_end_time (auctions (db (world0 true))).
Proof.
  intros d.
  apply (placeBid_keeps_deadline_outside_window 10 10 d (world0 true)
           (snd (AuctionService.placeBid 10 10 d (world0 true)))
           (Throw ER_BAD_FIELD_ERROR) auction1).
  - reflexivity.
  - vm_compute. reflexivity.
  - reflexivity.
  - right. vm_compute. discriminate.
Defined.

(* ------------------------------------------------------------------ *)
(** ** What the route answers *)

(** X10. The route accepts no bid. A request that fails the validation
    chain is answered 400 with its errors; every other request is answered
    500, with the error of reading [req.user.id] when no user is set on the
    request and the error of naming [db] when one is. The world is left as
    it was. *)
Theorem postBid_answers (now : Z) (req : BidsRoute.Request) (w : World) :
  BidsRoute.postBid now req w
  = (Return
       match BidsRoute.validationResult req with
       | [] => BidsRoute.Failed_to_place_bid
                 match BidsRoute.req_user req with
                 | None => TypeError_undefined
                 | Some _ => ReferenceError_db
                 end
       | errors => BidsRoute.Validation_errors errors
       end, w)
  /\ forall bidId,
       fst (BidsRoute.postBid now req w)
       <> Return (BidsRoute.Bid_placed_successfully bidId).
Proof.
  unfold BidsRoute.postBid, try_catch, ret, throw.
  destruct (BidsRoute.validationResult req); cbn [negb fst].
  - destruct (BidsRoute.req_user req); split; (reflexivity || discriminate).
  - split; (reflexivity || discriminate).
Qed.

(** X11. Every answer of the route other than the success answer leaves the
    tables, the emitted messages and the agents as they were. The route
    never throws. *)
Theorem postBid_failure_is_clean (now : Z) (req : BidsRoute.Request)
  (w : World) :
  (exists r w', BidsRoute.postBid now req w = (Return r, w')
     /\ ((exists bidId, r = BidsRoute.Bid_placed_successfully bidId)
         \/ (db w' = db w /\ emitted w' = emitted w /\ autoBids w' = autoBids w
             /\ (next_bid_id w' = next_bid_id w
                 \/ (r = BidsRoute.Failed_to_place_bid ER_DUP_ENTRY
                     /\ next_bid_id w' = next_bid_id w + 1))))).
Proof.
  destruct (postBid_spec now req w) as [[_ E]|(_ & e & E)];
    rewrite E; do 2 eexists; (split; [reflexivity|]);
    right; repeat split; now left.
Qed.

(* ------------------------------------------------------------------ *)
(** ** Who is told of a new bid *)

Lemma highest_map (f : Bid -> Bid) (l : list Bid) :
  (forall b, amount (f b) = amount b) ->
  highest (map f l) = option_map f (highest l).
Proof.
  intros Hf. induction l as [|b l IH]; [reflexivity|].
  cbn [map highest]. rewrite IH. destruct (highest l) as [b'|]; cbn.
  - rewrite !Hf. destruct (amount b <? amount b'); reflexivity.
  - reflexivity.
Qed.

(** After an accepted bid with a fresh id, the rows [notifyOutbid] chooses
    from are the earlier rows of the auction placed by other users. *)
Lemma outbid_candidates (t : Tables) (nb : Bid) (l : list Bid) :
  Forall (fun b => b_id b < b_id nb) l ->
  filter (fun b => (auction_id b =? auction_id nb)
                   && negb (user_id b =? user_id nb)
                   && negb (is_winning b) && user_exists t (user_id b))
         (accepted_bids nb l)
  = map (set_is_winning false)
        (filter (fun b => (auction_id b =? auction_id nb)
                          && negb (user_id b =? user_id nb)
                          && user_exists t (user_id b)) l).
Proof.
  intros Hf. unfold accepted_bids, mark_winning, unmark_others.
  rewrite !map_app, filter_app. cbn [map filter].
  repeat (rewrite Z.eqb_refl;
          cbn [set_is_winning user_id auction_id is_winning andb negb b_id]).
  rewrite app_nil_r.
  induction Hf as [|b l Hb Hf IH]; [reflexivity|].
  assert (E : (b_id b =? b_id nb) = false) by (apply Z.eqb_neq; lia).
  destruct (auction_id b =? auction_id nb) eqn:Ea,
           (user_id b =? user_id nb) eqn:Eu,
           (user_exists t (user_id b)) eqn:Ex.
  all: repeat (cbn [map filter andb negb set_is_winning b_id auction_id
                    user_id is_winning];
               rewrite ?E, ?Ea, ?Eu, ?Ex).
  all: rewrite ?IH; reflexivity.
Qed.

Lemma placeBid_notifications (now now' : Z) (d : AuctionService.BidData)
  (w : World) :
  match AuctionService.placeBid now now' d w with
  | (Throw ER_BAD_FIELD_ERROR, w') =>
      notifications (db w')
      = notifications (db w)
        ++ match highest (filter
                   (fun b => (auction_id b =? AuctionService.auctionId d)
                             && negb (user_id b =? AuctionService.userId d)
                             && negb (is_winning b)
                             && user_exists (db w) (user_id b))
                   (bids (db w'))) with
           | Some b => [mkNotification (user_id b) outbid
                                       (AuctionService.auctionId d)]
           | None => []
           end
  | _ => True
  end.
Proof.
  destruct w as [[au pr us wl bs tr no al] k n em ab c].
  unfold AuctionService.placeBid, user_exists. run_m.
  repeat (break_match; run_m).
  all: try exact I.
  all: try discriminate.
  all: repeat match goal with
              | H : (_, _) = (_, _) |- _ => inversion H; clear H; subst
              end.
  all: try discriminate.
  all: cbn [notifications db bids]; rewrite ?app_nil_r.
  all: try reflexivity.
  all: match goal with
       | H1 : highest ?x = ?r1, H2 : highest _ = ?r2 |- _ =>
           assert (Hr : r1 = r2)
             by (transitivity (highest x); [symmetry; exact H1|exact H2])
       end.
  all: first [discriminate Hr | injection Hr as ->; reflexivity].
Qed.

(** X7. A bid [placeBid] commits adds to [notifications] one row of type
    outbid, for the holder of the highest earlier bid on the auction among
    the bids of other users whose row in [users] exists, and no row when
    there is no such bid. It adds no audit row: the INSERT that would is
    the statement that fails. *)
Theorem placeBid_notifies_highest_other (now now' : Z)
  (d : AuctionService.BidData) (w w' : World) (o : Outcome Z) :
  fresh_ids w ->
  AuctionService.placeBid now now' d w = (o, w') -> committed o = true ->
  notifications (db w')
    = notifications (db w)
      ++ match highest (filter
                 (fun b => (auction_id b =? AuctionService.auctionId d)
                           && negb (user_id b =? AuctionService.userId d)
                           && user_exists (db w) (user_id b))
                 (bids (db w))) with
         | Some b => [mkNotification (user_id b) outbid
                                     (AuctionService.auctionId d)]
         | None => []
         end
  /\ audit_logs (db w') = audit_logs (db w).
Proof.
  intros Hf E Hc.
  destruct (committed_spec _ _ _ _ _ _ E Hc)
    as (-> & _ & _ & _ & _ & Hal & auction & _ & _ & _ & Hb & _).
  pose proof (placeBid_notifications now now' d w) as H. rewrite E in H.
  split; [|exact Hal]. rewrite H. clear H. f_equal.
  rewrite Hb.
  set (nb := mkBid _ _ _ _ _ _ _).
  change (AuctionService.auctionId d) with (auction_id nb).
  change (AuctionService.userId d) with (user_id nb).
  rewrite outbid_candidates by exact Hf.
  rewrite highest_map by reflexivity.
  destruct (highest _); reflexivity.
Qed.

(** On a store without the unique key, an auction started from a price of
    0: bidder 2 leads at 100, bidder 3 follows with 1,005, then bidder 3
    bids 100,551: the one told is bidder 2. On the seeded auction with the
    key the first bid tells nobody. *)
Lemma placeBid_notifies_highest_other_witness :
  let w1 := snd (AuctionService.placeBid 10 10
                   (AuctionService.mkBidData 1 2 100 normal 0)
                   (world_at 0 false)) in
  let w2 := snd (AuctionService.placeBid 20 20
                   (AuctionService.mkBidData 1 3 1005 normal 0) w1) in
  let w3 := snd (AuctionService.placeBid 30 30
                   (AuctionService.mkBidData 1 3 100551 normal 0) w2) in
  notifications (db w3) = notifications (db w2) ++ [mkNotification 2 outbid 1]
  /\ audit_logs (db w3) = []
  /\ notifications (db (snd (AuctionService.placeBid 10 10
        (AuctionService.mkBidData 1 2 35000000017500000 normal 0)
        (world0 true)))) = [].
Proof.
  intros w1 w2 w3.
  pose proof (placeBid_notifies_highest_other 30 30
                (AuctionService.mkBidData 1 3 100551 normal 0) w2 w3
                (Throw ER_BAD_FIELD_ERROR)
                ltac:(vm_compute; repeat constructor)
                ltac:(vm_compute; reflexivity) eq_refl) as H.
  destruct H as [H H']. split; [|split].
  - vm_compute in H. vm_compute. exact H.
  - vm_compute in H'. vm_compute. exact H'.
  - vm_compute. reflexivity.
Defined.

(* ------------------------------------------------------------------ *)
(** ** The registry of bidding agents *)

Lemma key_eqb (k key : Z * Z) :
  (fst k =? fst key) && (snd k =? snd key) = true <-> k = key.
Proof.
  destruct k as [k1 k2], key as [a b]. cbn [fst snd].
  rewrite andb_true_iff, !Z.eqb_eq. split.
  - intros [-> ->]. reflexivity.
  - intros E. injection E as -> ->. split; reflexivity.
Qed.

Lemma map_set_keys (key : Z * Z) (v : AutoBid) (m : list ((Z * Z) * AutoBid)) :
  map fst (AuctionService.map_set key v m)
  = if existsb (fun e => (fst (fst e) =? fst key) && (snd (fst e) =? snd key)) m
    then map fst m else map fst m ++ [key].
Proof.
  induction m as [|[k x] m IH]; [reflexivity|].
  cbn [AuctionService.map_set existsb fst].
  destruct ((fst k =? fst key) && (snd k =? snd key)) eqn:E; cbn [orb map fst].
  - reflexivity.
  - rewrite IH. destruct (existsb _ m); reflexivity.
Qed.

Lemma map_set_NoDup (key : Z * Z) (v : AutoBid) (m : list ((Z * Z) * AutoBid)) :
  NoDup (map fst m) -> NoDup (map fst (AuctionService.map_set key v m)).
Proof.
  intros Hnd. rewrite map_set_keys.
  destruct (existsb _ m) eqn:E; [exact Hnd|].
  apply NoDup_app; [exact Hnd|repeat constructor; intros []|].
  intros k Hk [<-|[]].
  apply in_map_iff in Hk. destruct Hk as (e & He & Hin).
  assert (Ht : existsb (fun e => (fst (fst e) =? fst key)
                                 && (snd (fst e) =? snd key)) m = true).
  { apply existsb_exists. exists e. split; [exact Hin|].
    apply key_eqb. exact He. }
  congruence.
Qed.

Lemma In_map_set (key : Z * Z) (v : AutoBid) (m : list ((Z * Z) * AutoBid))
  (k : Z * Z) (x : AutoBid) :
  NoDup (map fst m) ->
  In (k, x) (AuctionService.map_set key v m)
  <-> (k = key /\ x = v) \/ (k <> key /\ In (k, x) m).
Proof.
  induction m as [|[k0 x0] m IH]; intros Hnd.
  - cbn. split.
    + intros [E|[]]. injection E as <- <-. now left.
    + intros [[-> ->]|[_ []]]. now left.
  - cbn [AuctionService.map_set fst]. cbn [map fst] in Hnd.
    apply NoDup_cons_iff in Hnd. destruct Hnd as [Hnin Hnd].
    destruct ((fst k0 =? fst key) && (snd k0 =? snd key)) eqn:E.
    + apply key_eqb in E. subst k0. split.
      * intros [E|Hin].
        -- injection E as <- <-. now left.
        -- right. split; [|now right].
           intros ->. apply Hnin. apply in_map_iff. now exists (key, x).
      * intros [[-> ->]|[Hne [E|Hin]]].
        -- now left.
        -- injection E as E _. congruence.
        -- now right.
    + assert (Hne : k0 <> key).
      { intros ->. rewrite (proj2 (key_eqb key key) eq_refl) in E. discriminate. }
      split.
      * intros [E'|Hin].
        -- injection E' as <- <-. right. split; [exact Hne|now left].
        -- apply (IH Hnd) in Hin. destruct Hin as [H|[H1 H2]];
             [now left|right; split; [exact H1|now right]].
      * intros [[-> ->]|[Hk [E'|Hin]]].
        -- right. apply (IH Hnd). now left.
        -- now left.
        -- right. apply (IH Hnd). now right.
Qed.

(** X17. [setupAutoBid] throws on a ceiling that is not positive and then
    changes nothing. On a positive ceiling it returns and leaves the
    registry with exactly one agent for the pair of auction and user: the
    new ceiling, [currentBid] 0 and active, in place of any earlier agent of
    the pair; the agents of other pairs stay, and the keys stay distinct. No
    table is written and nothing is emitted. *)
Theorem setupAutoBid_registers (auction user maxAmt : Z) (w : World) :
  NoDup (map fst (autoBids w)) ->
  let w' := snd (AuctionService.setupAutoBid auction user maxAmt w) in
  (maxAmt <= 0 ->
   AuctionService.setupAutoBid auction user maxAmt w
   = (Throw Maximum_amount_must_be_greater_than_0, w))
  /\ (0 < maxAmt ->
      fst (AuctionService.setupAutoBid auction user maxAmt w) = Return tt
      /\ NoDup (map fst (autoBids w'))
      /\ (forall k v,
            In (k, v) (autoBids w')
            <-> (k = (auction, user) /\ v = mkAutoBid auction user maxAmt 0 true)
                \/ (k <> (auction, user) /\ In (k, v) (autoBids w)))
      /\ db w' = db w /\ emitted w' = emitted w
      /\ next_bid_id w' = next_bid_id w).
Proof.
  intros Hnd w'. subst w'. unfold AuctionService.setupAutoBid. split.
  - intros H. apply Z.leb_le in H. rewrite H. reflexivity.
  - intros H. assert (E : (maxAmt <=? 0) = false) by (apply Z.leb_gt; lia).
    rewrite E. cbn. split; [reflexivity|]. split; [|split].
    + apply map_set_NoDup. exact Hnd.
    + intros k v. apply In_map_set. exact Hnd.
    + repeat split.
Qed.

(** User 2 raises the ceiling of an agent for auction 1 from 400,000,000 to
    450,000,000 while user 3 holds an agent too. *)
Lemma setupAutoBid_registers_witness :
  let w0 := snd (AuctionService.setupAutoBid 1 2 400000000 (world0 true)) in
  let w1 := snd (AuctionService.setupAutoBid 1 3 420000000 w0) in
  let w2 := snd (AuctionService.setupAutoBid 1 2 450000000 w1) in
  In ((1, 2), mkAutoBid 1 2 450000000 0 true) (autoBids w2)
  /\ In ((1, 3), mkAutoBid 1 3 420000000 0 true) (autoBids w2)
  /\ ~ In ((1, 2), mkAutoBid 1 2 400000000 0 true) (autoBids w2).
Proof.
  intros w0 w1 w2.
  assert (Hnd : NoDup (map fst (autoBids w1))).
  { vm_compute. repeat constructor.
    - intros [E|[]]. discriminate.
    - intros []. }
  destruct (setupAutoBid_registers 1 2 450000000 w1 Hnd) as [_ H].
  destruct (H ltac:(lia)) as (_ & _ & Hin & _). fold w2 in Hin.
  split; [|split].
  - apply Hin. left. split; reflexivity.
  - apply Hin. right. split; [discriminate|].
    vm_compute. right. left. reflexivity.
  - intros Hc. apply Hin in Hc. destruct Hc as [[_ Hc]|[Hc _]].
    + discriminate.
    + now apply Hc.
Defined.

(* ------------------------------------------------------------------ *)
(** ** What the clock starts, and what it leaves alone *)

Lemma notifyAuctionStart_same_core (id : Z) :
  respects same_core (AuctionService.notifyAuctionStart id).
Proof. unfold AuctionService.notifyAuctionStart. repeat respects_step. Qed.

(** [startAuction] writes [started_row] on the rows of the auction, whatever
    their status, and touches no other table but [notifications]. *)
Lemma startAuction_spec (now id : Z) (w : World) :
  let w' := snd (AuctionService.startAuction now id w) in
  auctions (db w')
  = map (fun a => if a_id a =? id then started_row now a else a)
        (auctions (db w))
  /\ bids (db w') = bids (db w)
  /\ transactions (db w') = transactions (db w).
Proof.
  intros w'.
  assert (E : w' = snd (AuctionService.startAuction now id w)) by reflexivity.
  clearbody w'. unfold AuctionService.startAuction in E.
  unfold try_catch, bind at 1, update_auction, modify at 1 in E.
  unfold bind at 1, emit, modify at 1 in E.
  match type of E with
  | context [AuctionService.notifyAuctionStart id ?w1] =>
      pose proof (notifyAuctionStart_same_core id w1) as Hc;
      destruct (AuctionService.notifyAuctionStart id w1) as [[[]|e] w2]
  end.
  all: unfold same_core, core in Hc; cbn in Hc; unfold ret in E;
    cbn [fst snd] in E; subst w'.
  all: injection Hc as Hau _ _ _ Hbi Htr _ _ _ _ _.
  all: rewrite Hau, Hbi, Htr; repeat split.
Qed.

Lemma filter_id_single (l : list Auction) (auction : Auction) :
  NoDup (map a_id l) -> In auction l ->
  filter (fun a => a_id a =? a_id auction) l = [auction].
Proof.
  induction l as [|a l IH]; intros Hnd Hin; [destruct Hin|].
  cbn [map] in Hnd. apply NoDup_cons_iff in Hnd. destruct Hnd as [Hnin Hnd].
  cbn [filter]. destruct Hin as [->|Hin].
  - rewrite Z.eqb_refl. f_equal.
    assert (Hall : Forall (fun a => (a_id a =? a_id auction) = false) l).
    { apply Forall_forall. intros x Hx. apply Z.eqb_neq. intros E.
      apply Hnin. rewrite <- E. now apply in_map. }
    clear -Hall. induction Hall as [|a l Ha _ IH]; [reflexivity|].
    cbn [filter]. now rewrite Ha.
  - assert (E : (a_id a =? a_id auction) = false).
    { apply Z.eqb_neq. intros E. apply Hnin. rewrite E. now apply in_map. }
    rewrite E. now apply IH.
Qed.

Lemma filter_id_map (id : Z) (f : Auction -> Auction) (l : list Auction) :
  (forall a, a_id (f a) = a_id a) ->
  filter (fun a => a_id a =? id)
         (map (fun a => if a_id a =? id then f a else a) l)
  = map f (filter (fun a => a_id a =? id) l).
Proof.
  intros Hf. induction l as [|a l IH]; [reflexivity|].
  cbn [map filter]. destruct (a_id a =? id) eqn:E.
  - rewrite Hf, E. cbn [map]. now rewrite IH.
  - rewrite E. exact IH.
Qed.

(** X18. A tick starts a scheduled auction whose start time has come: after
    the tick its row is live with [start_time] the time of the tick and
    nothing else changed. The tick does not end it in the same pass,
    whatever its end time. *)
Theorem checkAuctionStatus_starts_due (now : Z) (w : World) (auction : Auction) :
  unique_auction_ids w ->
  In auction (auctions (db w)) ->
  status auction = scheduled ->
  start_time auction <= now ->
  filter (fun a => a_id a =? a_id auction)
         (auctions (db (snd (AuctionService.checkAuctionStatus now w))))
  = [started_row now auction].
Proof.
  intros Hu Hin Hs Hdue. set (id := a_id auction).
  rewrite checkAuctionStatus_loop.
  assert (Hact : In auction (activeAuctions w)).
  { apply filter_In. split; [exact Hin|]. rewrite Hs. reflexivity. }
  destruct (in_split _ _ Hact) as (l1 & l2 & Hsplit).
  assert (Hother : forall x, In x (l1 ++ l2) -> a_id x <> id).
  { intros x Hx E.
    assert (Hxa : In x (activeAuctions w))
      by (rewrite Hsplit; apply in_app_iff; apply in_app_iff in Hx;
          destruct Hx; [now left|now right; right]).
    assert (x = auction).
    { apply (unique_id_row (auctions (db w))); auto.
      apply filter_In in Hxa. tauto. }
    subst x.
    assert (Hnd : NoDup (activeAuctions w)).
    { apply NoDup_filter. eapply NoDup_map_inv. exact Hu. }
    rewrite Hsplit in Hnd. apply NoDup_remove_2 in Hnd. contradiction. }
  rewrite Hsplit. rewrite forEach_app by apply tick_body_returns.
  destruct (tick_body_others now id l1
              (fun x Hx => Hother x (in_or_app _ _ _ (or_introl Hx))))
    as [Hab1 _].
  specialize (Hab1 w).
  set (wa := snd (forEach l1 (tick_body now) w)) in *.
  cbn [forEach]. unfold bind at 1.
  assert (Hbx : tick_body now auction wa
                = (fst (tick_body now auction wa),
                   snd (AuctionService.startAuction now id wa))).
  { unfold tick_body. rewrite Hs. cbn [is_scheduled is_live andb when].
    apply Z.leb_le in Hdue. rewrite Hdue. cbn [when].
    unfold bind, ret. fold id.
    destruct (AuctionService.startAuction now id wa) as [[[]|e] wb']; reflexivity. }
  destruct (tick_body_returns now auction wa) as [[] Hret].
  rewrite Hbx in Hret |- *. cbn [fst] in Hret. rewrite Hret.
  set (wb := snd (AuctionService.startAuction now id wa)) in *.
  destruct (tick_body_others now id l2
              (fun x Hx => Hother x (in_or_app _ _ _ (or_intror Hx))))
    as [Hab2 _].
  specialize (Hab2 wb).
  unfold same_about, about in Hab1, Hab2.
  injection Hab1 as Hau1 _ _ _ _. injection Hab2 as Hau2 _ _ _ _.
  rewrite Hau2. subst wb.
  destruct (startAuction_spec now id wa) as (Hau & _). rewrite Hau.
  rewrite filter_id_map by reflexivity. rewrite Hau1.
  unfold id. rewrite filter_id_single; [reflexivity|exact Hu|exact Hin].
Qed.

(** An auction scheduled from 500 to 1000, met by a tick at time 2000. *)
Lemma checkAuctionStatus_starts_due_witness :
  let a := mkAuction 1 1 500 1000 None 320000000 350000000 5 0 scheduled
                     None None true 5 None in
  let w := mkWorld (mkTables [a] [mkProperty 1 1 350000000]
                      [mkUser 1 active true] [] [] [] [] [])
                   true 1 [] [] None in
  filter (fun a0 => a_id a0 =? 1)
         (auctions (db (snd (AuctionService.checkAuctionStatus 2000 w))))
  = [started_row 2000 a].
Proof.
  intros a w.
  apply (checkAuctionStatus_starts_due 2000 w a).
  - repeat constructor. intros [].
  - left. reflexivity.
  - reflexivity.
  - cbn. lia.
Defined.

(** X19. A tick changes nothing the world holds about an auction none of
    whose rows is due: not scheduled with its start time reached, and not
    live with its effective end time reached. *)
Theorem checkAuctionStatus_leaves_not_due (now id : Z) (w : World) :
  (forall a, In a (auctions (db w)) -> a_id a = id ->
             is_scheduled (status a) && (start_time a <=? now) = false
             /\ is_live (status a) && (effectiveEndTime a <=? now) = false) ->
  about id (snd (AuctionService.checkAuctionStatus now w)) = about id w.
Proof.
  intros Hnd. rewrite checkAuctionStatus_loop.
  assert (H : respects (same_about id)
                (forEach (activeAuctions w) (tick_body now))).
  { apply respects_forEach; prove_PreOrder. intros x Hx.
    apply filter_In in Hx. destruct Hx as [Hx _].
    destruct (Z.eq_dec (a_id x) id) as [E|Hne].
    - destruct (Hnd x Hx E) as [H1 H2]. unfold tick_body.
      rewrite H1, H2. cbn [when]. intros w1. reflexivity.
    - unfold tick_body. repeat respects_step. }
  exact (H w).
Qed.

(** The seeded auction, live until 1,000,000,000, at a tick one
    millisecond before. *)
Lemma checkAuctionStatus_leaves_not_due_witness :
  about 1 (snd (AuctionService.checkAuctionStatus 999999999 (world0 true)))
  = about 1 (world0 true).
Proof.
  apply (checkAuctionStatus_leaves_not_due 999999999 1 (world0 true)).
  intros a [<-|[]] _. split; reflexivity.
Defined.

(** X21. [endAuction] on an auction that [getAuctionDetails] does not find
    (no row, or a row whose property or owner is missing) returns without
    writing or emitting anything. *)
Theorem endAuction_unknown_is_noop (now id : Z) (w : World) :
  fst (AuctionService.getAuctionDetails id w) = Return None ->
  AuctionService.endAuction now id w = (Return tt, w).
Proof.
  intros H. unfold AuctionService.endAuction, try_catch, bind.
  unfold AuctionService.getAuctionDetails, gets in *. cbn [fst] in H.
  injection H as H. rewrite H. reflexivity.
Qed.

Lemma endAuction_unknown_is_noop_witness :
  AuctionService.endAuction 2000000000 7 (world0 true)
  = (Return tt, world0 true).
Proof. apply endAuction_unknown_is_noop. reflexivity. Defined.

(** X22. [startAuction] on an id without a row writes no table and notifies
    nobody, yet emits [auction_started] for that id. *)
Theorem startAuction_unknown_still_emits (now id : Z) (w : World) :
  (forall a, In a (auctions (db w)) -> a_id a <> id) ->
  AuctionService.startAuction now id w
  = (Return tt, with_emitted (fun l => l ++ [auction_started id]) w).
Proof.
  intros Hno. destruct w as [[au pr us wl bs tr no al] k n em ab c].
  cbn [db auctions] in Hno.
  assert (Hmap : forall f : Auction -> Auction,
             map (fun a => if a_id a =? id then f a else a) au = au).
  { intros f. rewrite <- (map_id au) at 2. apply map_ext_in. intros a Ha.
    specialize (Hno a Ha). apply Z.eqb_neq in Hno. now rewrite Hno. }
  assert (Hfind : find (fun a => a_id a =? id) au = None).
  { destruct (find _ au) eqn:E; [|reflexivity].
    apply find_some in E. destruct E as [Ha E]. apply Z.eqb_eq in E.
    now destruct (Hno a Ha). }
  unfold AuctionService.startAuction, AuctionService.notifyAuctionStart.
  run_m. rewrite Hmap, Hfind. reflexivity.
Qed.

Lemma startAuction_unknown_still_emits_witness :
  emitted (snd (AuctionService.startAuction 5 7 (world0 true)))
  = [auction_started 7]
  /\ db (snd (AuctionService.startAuction 5 7 (world0 true)))
     = db (world0 true).
Proof.
  rewrite (startAuction_unknown_still_emits 5 7 (world0 true)).
  - split; reflexivity.
  - intros a [<-|[]]. discriminate.
Defined.

(* ------------------------------------------------------------------ *)
(** ** Who is told of the end, and what the settlement request carries *)

Lemma getWinningBid_ext (id : Z) (w w1 : World) :
  bids (db w1) = bids (db w) -> users (db w1) = users (db w) ->
  AuctionService.getWinningBid id w1
  = (fst (AuctionService.getWinningBid id w), w1).
Proof.
  intros Hb Hu. unfold AuctionService.getWinningBid, gets, user_exists.
  cbn [fst]. now rewrite Hb, Hu.
Qed.

(** The loop of [notifyAuctionEnd] in closed form: what it reads is not
    what it writes. *)
Lemma notifyAuctionEnd_loop (id : Z) (res : AuctionResult)
  (winningBidId : option Z) (w : World) (l : list Z) :
  let named := is_sold res
               && match winningBidId with
                  | Some i => negb (i =? 0)
                  | None => false
                  end in
  let type u :=
    if named then
      match fst (AuctionService.getWinningBid id w) with
      | Return (Some wb) => if user_id wb =? u then won else property_sold
      | _ => property_sold
      end
    else auction_end in
  forall w1,
    bids (db w1) = bids (db w) -> users (db w1) = users (db w) ->
    let w2 := snd (forEach l (fun bidder =>
                     type <- (if named then
                                winningBid <- AuctionService.getWinningBid id ;;
                                match winningBid with
                                | Some wb => if user_id wb =? bidder
                                             then ret won
                                             else ret property_sold
                                | None => ret property_sold
                                end
                              else ret auction_end) ;;
                     AuctionService.createNotification bidder type id) w1) in
    notifications (db w2)
      = notifications (db w1) ++ map (fun u => mkNotification u (type u) id) l
    /\ emitted w2 = emitted w1 ++ map (fun u => notification u (type u) id) l.
Proof.
  intros named type.
  match goal with
  | |- context [forEach l ?b] => set (body := b)
  end.
  induction l as [|u l IH]; intros w1 Hb Hu.
  - cbn. now rewrite !app_nil_r.
  - set (w1' := with_emitted (fun e => e ++ [notification u (type u) id])
                  (with_db (with_notifications
                     (fun n => n ++ [mkNotification u (type u) id])) w1)).
    assert (E : body u w1 = (Return tt, w1')).
    { subst body w1' type. cbv beta. unfold bind at 1. destruct named.
      - unfold bind. rewrite (getWinningBid_ext id w w1 Hb Hu).
        unfold AuctionService.getWinningBid, gets. cbn [fst].
        destruct (hd_error _) as [wb|]; [destruct (user_id wb =? u)|];
          reflexivity.
      - reflexivity. }
    assert (E2 : forEach (u :: l) body w1 = forEach l body w1').
    { cbn [forEach]. unfold bind. now rewrite E. }
    rewrite E2. cbv zeta.
    destruct (IH w1') as [Hn He].
    { subst w1'. destruct w1 as [[]]. exact Hb. }
    { subst w1'. destruct w1 as [[]]. exact Hu. }
    rewrite Hn, He.
    subst w1'. destruct w1 as [[]]. cbn. now rewrite <- !app_assoc.
Qed.

Lemma distinct_In (l : list Z) (x : Z) : In x (distinct l) <-> In x l.
Proof.
  induction l as [|y l IH]; [reflexivity|].
  cbn [distinct In]. rewrite filter_In, IH, negb_true_iff, Z.eqb_neq.
  destruct (Z.eq_dec y x) as [->|Hne]; [tauto|].
  split; [tauto|]. intros [H|H]; [tauto|]. right. split; [exact H|congruence].
Qed.

Lemma distinct_NoDup (l : list Z) : NoDup (distinct l).
Proof.
  induction l as [|y l IH]; cbn [distinct]; constructor.
  - rewrite filter_In, Z.eqb_refl. intros [_ H]. discriminate.
  - now apply NoDup_filter.
Qed.

(** X23. [notifyAuctionEnd] writes one notification, and emits one message,
    for each distinct user who has a bid on the auction and a row in
    [users], in the order of their first bids: the user of the first such
    bid is told first, and a user who bids again is not told again. When
    the result is sold with a winning bid id, the type is won for the user
    of the bid [getWinningBid] returns and property_sold for the others;
    otherwise it is auction_end for all. *)
Theorem notifyAuctionEnd_one_per_bidder (id : Z) (res : AuctionResult)
  (winningBidId : option Z) (w : World) :
  let w' := snd (AuctionService.notifyAuctionEnd id res winningBidId w) in
  let rows :=
    filter (fun b => (auction_id b =? id) && user_exists (db w) (user_id b))
           (bids (db w)) in
  let bidders := distinct (map user_id rows) in
  let named := is_sold res
               && match winningBidId with
                  | Some i => negb (i =? 0)
                  | None => false
                  end in
  let type u :=
    if named then
      match fst (AuctionService.getWinningBid id w) with
      | Return (Some wb) => if user_id wb =? u then won else property_sold
      | _ => property_sold
      end
    else auction_end in
  NoDup bidders
  /\ (forall u, In u bidders <-> exists b, In b rows /\ user_id b = u)
  /\ hd_error bidders = option_map user_id (hd_error rows)
  /\ distinct [2; 3; 2] = [2; 3]
  /\ notifications (db w')
     = notifications (db w) ++ map (fun u => mkNotification u (type u) id) bidders
  /\ emitted w'
     = emitted w ++ map (fun u => notification u (type u) id) bidders.
Proof.
  intros w' rows bidders named type. split; [apply distinct_NoDup|].
  split.
  { intros u. unfold bidders. rewrite distinct_In, in_map_iff.
    split; intros (b & H1 & H2); exists b; tauto. }
  split; [unfold bidders; destruct rows; reflexivity|].
  split; [reflexivity|].
  subst w'. unfold AuctionService.notifyAuctionEnd.
  unfold bind at 1, gets at 1. fold rows. fold bidders.
  exact (notifyAuctionEnd_loop id res winningBidId w bidders w eq_refl eq_refl).
Qed.


(* ------------------------------------------------------------------ *)
(** ** Two invariants of every run: the bid counter and the price *)

#[local] Instance quiet_PreOrder : PreOrder quiet.
Proof.
  split.
  - intros w. split; reflexivity.
  - intros a b c [H1 H2] [H3 H4]. split; congruence.
Qed.

#[local] Instance same_count_gaps_PreOrder : PreOrder same_count_gaps.
Proof.
  split.
  - intros w. reflexivity.
  - intros a b c H1 H2. unfold same_count_gaps in *. congruence.
Qed.

Lemma price_le_refl (a : Auction) : price_le a a.
Proof. split; [reflexivity|lia]. Qed.

Lemma Forall2_map_r {A} (R : A -> A -> Prop) (f : A -> A) (l : list A) :
  (forall a, In a l -> R a (f a)) -> Forall2 R l (map f l).
Proof.
  induction l as [|a l IH]; intros H; cbn [map]; constructor.
  - apply H. now left.
  - apply IH. intros b Hb. apply H. now right.
Qed.

Lemma prices_le_ids (l l' : list Auction) :
  Forall2 price_le l l' -> map a_id l' = map a_id l.
Proof.
  induction 1 as [|a a' l l' (H & _) _ IH]; cbn; [reflexivity|congruence].
Qed.

#[local] Instance keeps_prices_PreOrder : PreOrder keeps_prices.
Proof.
  split.
  - intros w H. split; [exact H|].
    unfold prices_le. rewrite <- (map_id (auctions (db w))) at 2.
    apply Forall2_map_r. intros a _. apply price_le_refl.
  - intros a b c H1 H2 Ha.
    destruct (H1 Ha) as [Hb H1']. destruct (H2 Hb) as [Hc H2'].
    split; [exact Hc|]. unfold prices_le in *.
    revert H2'. generalize (auctions (db c)).
    induction H1' as [|x y l l' [Hxy Hp] _ IH]; intros l'' H2';
      inversion H2' as [|? z ? ? [Hyz Hq] H2'']; subst; constructor.
    + split; [congruence|lia].
    + now apply IH.
Qed.

(** *** Quiet computations *)

Lemma quiet_same_count_gaps (w w' : World) :
  quiet w w' -> same_count_gaps w w'.
Proof.
  intros [Hau Hb]. unfold same_count_gaps, count_gaps. rewrite Hb.
  set (G := fun x : Z * Z * Z * Q =>
              (fst (fst (fst x)),
               snd (fst x) - bid_rows (fst (fst (fst x))) (bids (db w)))).
  change (map (fun a => G (bidding_fields a)) (auctions (db w'))
          = map (fun a => G (bidding_fields a)) (auctions (db w))).
  rewrite <- !(map_map bidding_fields G). now rewrite Hau.
Qed.

Lemma map_eq_Forall2 {A B} (f : A -> B) (l l' : list A) :
  map f l' = map f l -> Forall2 (fun a a' => f a' = f a) l l'.
Proof.
  revert l'. induction l as [|a l IH]; intros [|a' l'] H; try discriminate.
  - constructor.
  - cbn in H. injection H as H1 H2. constructor; [exact H1|now apply IH].
Qed.

Lemma same_fields_prices (l l' : list Auction) :
  map bidding_fields l' = map bidding_fields l ->
  NoDup (map a_id l) ->
  Forall (fun a => 0 <= current_price a
                   /\ (0 <= bid_increment_percentage a)%Q) l ->
  (NoDup (map a_id l')
   /\ Forall (fun a => 0 <= current_price a
                       /\ (0 <= bid_increment_percentage a)%Q) l')
  /\ Forall2 price_le l l'.
Proof.
  intros Hau. apply map_eq_Forall2 in Hau.
  induction Hau as [|a a' l l' E _ IH]; intros Hu Hok.
  - repeat split; constructor.
  - unfold bidding_fields in E. injection E as Ei Ep Ec Eq.
    cbn [map] in Hu. apply NoDup_cons_iff in Hu. destruct Hu as [Hnin Hu].
    apply Forall_cons_iff in Hok. destruct Hok as [[Hp Hq] Hok].
    destruct (IH Hu Hok) as [[Hu' Hok'] Hle].
    assert (Hids : map a_id l' = map a_id l) by (now apply prices_le_ids).
    repeat split.
    + cbn [map]. constructor; [rewrite Ei, Hids; exact Hnin|exact Hu'].
    + constructor; [rewrite Ep, Eq; now split|exact Hok'].
    + constructor; [split; [exact Ei|lia]|exact Hle].
Qed.

Lemma quiet_keeps_prices (w w' : World) :
  quiet w w' -> keeps_prices w w'.
Proof.
  intros [Hau _] [Hu Hok]. now apply same_fields_prices.
Qed.

Lemma respects_quiet_gaps {A} (m : M A) :
  respects quiet m -> respects same_count_gaps m.
Proof. intros H w. apply quiet_same_count_gaps, H. Qed.

Lemma respects_quiet_prices {A} (m : M A) :
  respects quiet m -> respects keeps_prices m.
Proof. intros H w. apply quiet_keeps_prices, H. Qed.

Lemma same_rows_quiet (w w' : World) :
  auctions (db w') = auctions (db w) -> bids (db w') = bids (db w) ->
  quiet w w'.
Proof. intros H1 H2. split; congruence. Qed.

Lemma update_auction_quiet (id : Z) (f : Auction -> Auction) :
  (forall a, bidding_fields (f a) = bidding_fields a) ->
  respects quiet (update_auction id f).
Proof.
  intros Hf w. split; [|reflexivity]. cbn. rewrite map_map.
  apply map_ext. intros a. destruct (a_id a =? id); [apply Hf|reflexivity].
Qed.

Lemma emit_quiet (e : Emit) : respects quiet (emit e).
Proof. intros w. now apply same_rows_quiet. Qed.

Lemma createNotification_quiet (u : Z) (t : NotificationType) (a : Z) :
  respects quiet (AuctionService.createNotification u t a).
Proof. intros w. now apply same_rows_quiet. Qed.

#[local] Hint Resolve emit_quiet createNotification_quiet : respects.

Lemma notifyAuctionStart_quiet (id : Z) :
  respects quiet (AuctionService.notifyAuctionStart id).
Proof. unfold AuctionService.notifyAuctionStart. repeat respects_step. Qed.

Lemma notifyAuctionEnd_quiet (id : Z) (r : AuctionResult) (b : option Z) :
  respects quiet (AuctionService.notifyAuctionEnd id r b).
Proof.
  unfold AuctionService.notifyAuctionEnd, AuctionService.getWinningBid.
  repeat respects_step.
Qed.

Lemma createTransaction_quiet (id bidId : Z) :
  respects quiet (AuctionService.createTransaction id bidId).
Proof.
  unfold AuctionService.createTransaction, AuctionService.getAuctionDetails,
    AuctionService.getBidDetails.
  repeat respects_step. intros w. now apply same_rows_quiet.
Qed.

#[local] Hint Resolve notifyAuctionStart_quiet notifyAuctionEnd_quiet
  createTransaction_quiet : respects.

Lemma startAuction_quiet (now id : Z) :
  respects quiet (AuctionService.startAuction now id).
Proof.
  unfold AuctionService.startAuction. repeat respects_step.
  apply update_auction_quiet. intros a. reflexivity.
Qed.

Lemma endAuction_quiet (now id : Z) :
  respects quiet (AuctionService.endAuction now id).
Proof.
  unfold AuctionService.endAuction, AuctionService.getAuctionDetails,
    AuctionService.getWinningBid.
  repeat respects_step.
  all: apply update_auction_quiet; intros x; reflexivity.
Qed.

#[local] Hint Resolve startAuction_quiet endAuction_quiet : respects.

Lemma checkAuctionStatus_quiet (now : Z) :
  respects quiet (AuctionService.checkAuctionStatus now).
Proof. unfold AuctionService.checkAuctionStatus. repeat respects_step. Qed.

Lemma setupAutoBid_quiet (a u m : Z) :
  respects quiet (AuctionService.setupAutoBid a u m).
Proof.
  unfold AuctionService.setupAutoBid. repeat respects_step.
  intros w. now apply same_rows_quiet.
Qed.

(** *** Bids and requests *)

Lemma bid_rows_map (id : Z) (f : Bid -> Bid) (l : list Bid) :
  (forall b, auction_id (f b) = auction_id b) ->
  bid_rows id (map f l) = bid_rows id l.
Proof.
  intros Hf. unfold bid_rows. f_equal.
  induction l as [|b l IH]; [reflexivity|].
  cbn [map filter]. rewrite Hf.
  destruct (auction_id b =? id); cbn [List.length]; now rewrite IH.
Qed.

Lemma bid_rows_accepted (id : Z) (nb : Bid) (l : list Bid) :
  bid_rows id (accepted_bids nb l)
  = bid_rows id l + (if auction_id nb =? id then 1 else 0).
Proof.
  unfold accepted_bids, mark_winning, unmark_others.
  rewrite !bid_rows_map.
  - unfold bid_rows. rewrite filter_app, length_app. cbn [filter].
    destruct (auction_id nb =? id); cbn [List.length]; lia.
  - intros b. destruct (_ && _); reflexivity.
  - intros b. destruct (b_id b =? b_id nb); reflexivity.
Qed.

Lemma accepted_count_gaps (w w' : World) (nb : Bid) (f : Auction -> Auction) :
  (forall a, a_id (f a) = a_id a
             /\ current_bid_count (f a) = current_bid_count a + 1) ->
  bids (db w') = accepted_bids nb (bids (db w)) ->
  map (fun a => (a_id a, current_bid_count a)) (auctions (db w'))
  = map (fun a => (a_id a, current_bid_count a))
        (map (fun a => if a_id a =? auction_id nb then f a else a)
             (auctions (db w))) ->
  same_count_gaps w w'.
Proof.
  intros Hf Hb Hau. unfold same_count_gaps, count_gaps. rewrite Hb.
  set (G := fun x : Z * Z =>
              (fst x, snd x - bid_rows (fst x) (accepted_bids nb (bids (db w))))).
  change (map (fun a => G (a_id a, current_bid_count a)) (auctions (db w'))
          = map (fun a => (a_id a, current_bid_count a
                                   - bid_rows (a_id a) (bids (db w))))
                (auctions (db w))).
  rewrite <- (map_map (fun a => (a_id a, current_bid_count a)) G).
  rewrite Hau, !map_map. apply map_ext. intros a. subst G. cbv beta.
  cbn [fst snd]. rewrite bid_rows_accepted.
  destruct (a_id a =? auction_id nb) eqn:E.
  - destruct (Hf a) as [-> ->]. apply Z.eqb_eq in E.
    rewrite <- E, Z.eqb_refl. f_equal. lia.
  - rewrite Z.eqb_sym, E. f_equal. lia.
Qed.

Lemma placeBid_count_gaps (now now' : Z) (d : AuctionService.BidData) :
  respects same_count_gaps (AuctionService.placeBid now now' d).
Proof.
  intros w. pose proof (placeBid_spec now now' d w) as H.
  destruct (AuctionService.placeBid now now' d w) as [[bidId|e] w']; cbn [snd];
    [contradiction|].
  destruct H as [(_ & _ & _ & _ & _ & _ & auction & _ & _ & _ & Hb & Hau)|H].
  - eapply accepted_count_gaps with
      (f := set_price_and_count (AuctionService.bd_amount d)); [|exact Hb|].
    + intros a. split; reflexivity.
    + rewrite Hau. unfold accepted_auctions, extended, priced. cbn [auction_id].
      destruct (extends now auction); [|reflexivity].
      rewrite !map_map. apply map_ext. intros a.
      destruct (a_id a =? AuctionService.auctionId d) eqn:E; cbn; rewrite E;
        reflexivity.
  - apply quiet_same_count_gaps.
    destruct H as [(-> & _)|(_ & ->)]; now apply same_rows_quiet.
Qed.

Lemma postBid_count_gaps (now : Z) (req : BidsRoute.Request) :
  respects same_count_gaps (BidsRoute.postBid now req).
Proof. apply respects_postBid; typeclasses eauto. Qed.

(** A priced store: the price of the auction is raised to an amount not
    under the price of its only row. *)
Lemma priced_keeps_prices (w w' : World) (id amt : Z) (auction : Auction)
  (g : Auction -> Auction) :
  (forall a, bidding_fields (g a) = bidding_fields a) ->
  In auction (auctions (db w)) -> a_id auction = id ->
  current_price auction <= amt ->
  auctions (db w') = map g (priced id amt (auctions (db w))) ->
  keeps_prices w w'.
Proof.
  intros Hg Hin Hid Hamt Hau [Hu Hok].
  assert (Hrow : forall a, In a (auctions (db w)) ->
            price_le a (g (if a_id a =? id then set_price_and_count amt a else a))
            /\ 0 <= current_price
                      (g (if a_id a =? id then set_price_and_count amt a else a))
            /\ (0 <= bid_increment_percentage
                       (g (if a_id a =? id then set_price_and_count amt a
                           else a)))%Q).
  { intros a Ha. pose proof (proj1 (Forall_forall _ _) Hok a Ha) as [Hp Hq].
    set (a' := if a_id a =? id then set_price_and_count amt a else a).
    pose proof (Hg a') as E. unfold bidding_fields in E.
    injection E as Ei Ep _ Eq. rewrite Ep, Eq. unfold price_le. rewrite Ei, Ep.
    subst a'. destruct (a_id a =? id) eqn:E.
    - apply Z.eqb_eq in E.
      assert (a = auction) by (eapply unique_id_row; eauto; congruence).
      subst a. cbn. repeat split; (assumption || lia).
    - repeat split; (assumption || lia). }
  assert (Hle : prices_le w w').
  { unfold prices_le. rewrite Hau. unfold priced. rewrite map_map.
    apply Forall2_map_r. intros a Ha. apply (Hrow a Ha). }
  split; [|exact Hle]. split.
  - unfold unique_auction_ids. rewrite (prices_le_ids _ _ Hle). exact Hu.
  - rewrite Hau. unfold priced. rewrite map_map. apply Forall_forall.
    intros x Hx. apply in_map_iff in Hx. destruct Hx as (a & <- & Ha).
    destruct (Hrow a Ha) as (_ & H1 & H2). now split.
Qed.

Lemma placeBid_keeps_prices (now now' : Z) (d : AuctionService.BidData) :
  respects keeps_prices (AuctionService.placeBid now now' d).
Proof.
  intros w. pose proof (placeBid_spec now now' d w) as H.
  destruct (AuctionService.placeBid now now' d w) as [[bidId|e] w']; cbn [snd];
    [contradiction|].
  destruct H as [(_ & _ & _ & _ & _ & _ & auction & Ha & _ & Hmin & _ & Hau)|H].
  - intros Hok.
    unfold AuctionService.getAuctionDetails, gets in Ha. cbn [fst] in Ha.
    injection Ha as Ha. apply hd_error_filter_true in Ha.
    destruct Ha as [Hid Hin]. apply andb_prop in Hid.
    destruct Hid as [Hid _]. apply Z.eqb_eq in Hid.
    pose proof (proj1 (Forall_forall _ _) (proj2 Hok) auction Hin) as [Hp Hq].
    pose proof (not_too_low _ _ _ Hp Hq Hmin) as Hge.
    unfold accepted_auctions in Hau.
    destruct (extends now auction).
    + eapply priced_keeps_prices with
        (amt := AuctionService.bd_amount d)
        (g := fun a => if a_id a =? AuctionService.auctionId d
                       then set_extended_end_time
                              (now' + extendThreshold auction) a
                       else a); [|exact Hin|exact Hid| |exact Hau|exact Hok].
      * intros a. destruct (a_id a =? _); reflexivity.
      * lia.
    + eapply priced_keeps_prices with
        (amt := AuctionService.bd_amount d) (g := fun a => a);
        [|exact Hin|exact Hid| | |exact Hok].
      * reflexivity.
      * lia.
      * now rewrite map_id.
  - apply quiet_keeps_prices.
    destruct H as [(-> & _)|(_ & ->)]; now apply same_rows_quiet.
Qed.

Lemma postBid_keeps_prices (now : Z) (req : BidsRoute.Request) :
  respects keeps_prices (BidsRoute.postBid now req).
Proof. apply respects_postBid; typeclasses eauto. Qed.

#[local] Hint Resolve placeBid_count_gaps placeBid_keeps_prices : respects.

Lemma processAutoBids_count_gaps (now now' id amt : Z) :
  respects same_count_gaps (AuctionService.processAutoBids now now' id amt).
Proof.
  unfold AuctionService.processAutoBids.
  repeat respects_step.
  rename a into entries. generalize amt.
  induction entries as [|[key autoBid] l IH]; intros amt';
    cbn [AuctionService.autoBids_loop].
  - repeat respects_step.
  - destruct (_ <=? _); [|apply IH].
    repeat respects_step.
    apply respects_quiet_gaps. intros w. now apply same_rows_quiet.
Qed.

Lemma processAutoBids_keeps_prices (now now' id amt : Z) :
  respects keeps_prices (AuctionService.processAutoBids now now' id amt).
Proof.
  unfold AuctionService.processAutoBids.
  repeat respects_step.
  rename a into entries. generalize amt.
  induction entries as [|[key autoBid] l IH]; intros amt';
    cbn [AuctionService.autoBids_loop].
  - repeat respects_step.
  - destruct (_ <=? _); [|apply IH].
    repeat respects_step.
    apply respects_quiet_prices. intros w. now apply same_rows_quiet.
Qed.

Lemma step_count_gaps (op : Op) (w : World) : same_count_gaps w (step op w).
Proof.
  destruct op; cbn [step].
  - apply placeBid_count_gaps.
  - apply respects_quiet_gaps, setupAutoBid_quiet.
  - apply respects_quiet_gaps, checkAuctionStatus_quiet.
  - apply postBid_count_gaps.
  - apply respects_quiet_gaps, startAuction_quiet.
  - apply respects_quiet_gaps, endAuction_quiet.
  - apply processAutoBids_count_gaps.
Qed.

Lemma step_keeps_prices (op : Op) (w : World) : keeps_prices w (step op w).
Proof.
  destruct op; cbn [step].
  - apply placeBid_keeps_prices.
  - apply respects_quiet_prices, setupAutoBid_quiet.
  - apply respects_quiet_prices, checkAuctionStatus_quiet.
  - apply postBid_keeps_prices.
  - apply respects_quiet_prices, startAuction_quiet.
  - apply respects_quiet_prices, endAuction_quiet.
  - apply processAutoBids_keeps_prices.
Qed.

(** X25. Along every sequence of engine operations the gap between an
    auction's [current_bid_count] and the number of its rows in [bids] stays
    what it was; so in a run from a store where each counter equals that
    number, it does so at every later point. *)
Theorem bid_count_tracks_bid_rows (ops : list Op) (w : World) :
  count_gaps (run ops w) = count_gaps w
  /\ ((forall a, In a (auctions (db w)) ->
         current_bid_count a = bid_rows (a_id a) (bids (db w))) ->
      forall a, In a (auctions (db (run ops w))) ->
        current_bid_count a = bid_rows (a_id a) (bids (db (run ops w)))).
Proof.
  assert (H : count_gaps (run ops w) = count_gaps w).
  { revert w. induction ops as [|op ops IH]; intros w; cbn [run fold_left].
    - reflexivity.
    - change (count_gaps (run ops (step op w)) = count_gaps w).
      rewrite IH. apply step_count_gaps. }
  split; [exact H|]. intros H0 a Ha.
  assert (Hz : Forall (fun x : Z * Z => snd x = 0) (count_gaps w)).
  { apply Forall_forall. intros x Hx. unfold count_gaps in Hx.
    apply in_map_iff in Hx. destruct Hx as (a0 & <- & Ha0). cbn.
    specialize (H0 a0 Ha0). lia. }
  rewrite <- H in Hz.
  pose proof (proj1 (Forall_forall _ _) Hz
                (a_id a, current_bid_count a
                         - bid_rows (a_id a) (bids (db (run ops w))))) as Hx.
  cbn [snd] in Hx.
  assert (In (a_id a, current_bid_count a
                      - bid_rows (a_id a) (bids (db (run ops w))))
             (count_gaps (run ops w))).
  { unfold count_gaps. apply in_map_iff. now exists a. }
  specialize (Hx H1). lia.
Qed.



(* ------------------------------------------------------------------ *)
(** ** What the reading route answers *)

(** X28. [GET /auction/:auctionId] never answers with rows. An id that does
    not parse as a number is answered 400; every other request is answered
    500 with the error of naming [db], before any test of who asks. The
    world is left as it was. *)
Theorem getAuctionBids_answers (req : AuctionBidsRoute.Request) (w : World) :
  AuctionBidsRoute.getAuctionBids req w
  = (Return match AuctionBidsRoute.auctionId req with
            | None => AuctionBidsRoute.Invalid_auction_ID
            | Some _ =>
                AuctionBidsRoute.Failed_to_fetch_auction_bids ReferenceError_db
            end, w)
  /\ forall rows,
       fst (AuctionBidsRoute.getAuctionBids req w)
       <> Return (AuctionBidsRoute.Data rows).
Proof.
  unfold AuctionBidsRoute.getAuctionBids, try_catch, ret, throw.
  destruct (AuctionBidsRoute.auctionId req); split;
    (reflexivity || discriminate).
Qed.

(* ------------------------------------------------------------------ *)
(** ** What a pass of the agents leaves of the registry *)

Lemma map_set_same_fields (key : Z * Z) (v : AutoBid)
  (m : list ((Z * Z) * AutoBid)) :
  NoDup (map fst m) ->
  In (agent_fields (key, v)) (map agent_fields m) ->
  map agent_fields (AuctionService.map_set key v m) = map agent_fields m.
Proof.
  induction m as [|[k x] m IH]; intros Hnd Hin; [destruct Hin|].
  cbn [map fst] in Hnd. apply NoDup_cons_iff in Hnd. destruct Hnd as [Hnin Hnd].
  cbn [AuctionService.map_set fst].
  destruct ((fst k =? fst key) && (snd k =? snd key)) eqn:E.
  - apply key_eqb in E. subst k. cbn [map]. f_equal.
    destruct Hin as [Hin|Hin]; [now symmetry|].
    exfalso. apply Hnin. apply in_map_iff in Hin.
    destruct Hin as ([k' x'] & E' & Hin'). unfold agent_fields in E'.
    cbn [fst snd] in E'. injection E' as -> _ _ _ _.
    apply in_map_iff. now exists (key, x').
  - cbn [map]. f_equal. apply IH; [exact Hnd|].
    destruct Hin as [Hin|Hin]; [|exact Hin].
    unfold agent_fields in Hin. cbn [fst snd] in Hin. injection Hin as -> _ _ _ _.
    rewrite (proj2 (key_eqb key key) eq_refl) in E. discriminate.
Qed.

Lemma map_fst_agent_fields (m m' : list ((Z * Z) * AutoBid)) :
  map agent_fields m' = map agent_fields m -> map fst m' = map fst m.
Proof.
  intros H.
  apply (f_equal (map (fun x : Z * Z * Z * Z * Z * bool =>
                         fst (fst (fst (fst x)))))) in H.
  rewrite !map_map in H. exact H.
Qed.

(** The loop of [processAutoBids]: whatever it visits from the registry, it
    writes back with the same key, ceiling and flag. *)
Lemma autoBids_loop_keeps_agents (now now' id : Z)
  (l : list ((Z * Z) * AutoBid)) :
  forall (amt : Z) (w : World),
    NoDup (map fst (autoBids w)) ->
    (forall e, In e l -> In (agent_fields e) (map agent_fields (autoBids w))) ->
    map agent_fields
        (autoBids (snd (AuctionService.autoBids_loop now now' id l amt w)))
    = map agent_fields (autoBids w).
Proof.
  induction l as [|[key autoBid] l IH]; intros amt w Hnd Hl;
    cbn [AuctionService.autoBids_loop]; [reflexivity|].
  destruct (_ <=? _); [|apply IH; [exact Hnd|intros e He; apply Hl; now right]].
  unfold bind at 1.
  pose proof (placeBid_spec now now'
                (AuctionService.mkBidData id (ab_userId autoBid)
                   (AuctionService.calculateNextBid amt) auto 0) w) as H.
  destruct (AuctionService.placeBid _ _ _ w) as [[bidId|e] w1];
    [contradiction|].
  cbn [snd].
  destruct H as [(_ & _ & _ & Hab & _)|[(-> & _)|(_ & ->)]];
    [now rewrite Hab|reflexivity|reflexivity].
Qed.

(** X15. A pass of [processAutoBids] over a registry with distinct keys
    returns without throwing and leaves every agent in its place with its
    key, auction, user, ceiling and active flag: only [currentBid] can
    change, and no agent is added, removed or switched off. *)
Theorem processAutoBids_keeps_agents (now now' id newBidAmount : Z) (w : World) :
  NoDup (map fst (autoBids w)) ->
  fst (AuctionService.processAutoBids now now' id newBidAmount w) = Return tt
  /\ map agent_fields
         (autoBids (snd (AuctionService.processAutoBids now now' id
                           newBidAmount w)))
     = map agent_fields (autoBids w).
Proof.
  intros Hnd. unfold AuctionService.processAutoBids.
  unfold try_catch, bind, gets.
  set (entries := AuctionService.sort_desc _).
  pose proof (autoBids_loop_keeps_agents now now' id entries newBidAmount w Hnd)
    as H.
  assert (Hl : forall e, In e entries ->
               In (agent_fields e) (map agent_fields (autoBids w))).
  { intros e He. apply in_map. subst entries. apply In_sort_desc in He.
    apply filter_In in He. tauto. }
  specialize (H Hl).
  destruct (AuctionService.autoBids_loop now now' id entries newBidAmount w)
    as [[[]|e] w1]; unfold ret; cbn [fst snd] in *; split;
    (reflexivity || exact H).
Qed.

(** On the seeded auction bidder 2's agent, of ceiling
    40,000,000,000,000,000, is run against bidder 3's committed bid of
    35,000,000,017,500,000: the bid it computes is thrown back, the agent
    keeps its ceiling and its [currentBid] of 0. *)
Lemma processAutoBids_keeps_agents_witness :
  let w1 := snd (AuctionService.setupAutoBid 1 2 40000000000000000
                   (world0 true)) in
  let w2 := snd (AuctionService.placeBid 10 10
                   (AuctionService.mkBidData 1 3 35000000017500000 normal 0)
                   w1) in
  let w3 := snd (AuctionService.processAutoBids 20 20 1 35000000017500000 w2) in
  map (fun e => currentBid (snd e)) (autoBids w3) = [0]
  /\ map agent_fields (autoBids w3) = map agent_fields (autoBids w2).
Proof.
  intros w1 w2 w3. split; [vm_compute; reflexivity|].
  apply (processAutoBids_keeps_agents 20 20 1 35000000017500000 w2).
  vm_compute. repeat constructor. intros [].
Defined.

(* ------------------------------------------------------------------ *)
(** ** The bid an agent computes against the minimum [placeBid] asks *)

Lemma calculateNextBid_upper (p : Z) :
  0 < p -> 5 * AuctionService.calculateNextBid p <= 12 * p + 10.
Proof.
  intros Hp. unfold AuctionService.calculateNextBid, fadd, fmul.
  set (r5 := round (5 # 100)).
  assert (H5 : (0 <= r5 <= 1 # 10)%Q).
  { split; [apply round_nonneg; unfold Qle; cbn; lia|].
    eapply Qle_trans; [apply round_double; unfold Qle; cbn; lia|].
    unfold Qle; cbn; lia. }
  assert (HP : (0 < inject_Z p)%Q) by (unfold Qlt, inject_Z; cbn; lia).
  set (P := inject_Z p) in *.
  assert (Hx0 : (0 <= P * r5)%Q) by (apply Qmult_le_0_compat; [lra|tauto]).
  assert (Hx1 : (P * r5 <= P * (1 # 10))%Q)
    by (apply Qmult_le_l; [exact HP|tauto]).
  pose proof (round_nonneg _ Hx0) as Hr0.
  pose proof (round_double _ Hx0) as Hr1.
  set (x := round (P * r5)) in *.
  pose proof (Qle_ceiling x) as Hc0.
  pose proof (Qceiling_lt x) as Hc1.
  set (c := Qceiling x) in *.
  assert (Hc1' : (inject_Z c < x + 1)%Q).
  { unfold Z.sub in Hc1. rewrite inject_Z_plus in Hc1.
    change (inject_Z (Z.opp 1)) with (-1 # 1)%Q in Hc1. lra. }
  assert (Hs0 : (0 <= P + inject_Z c)%Q) by lra.
  pose proof (round_double _ Hs0) as Hy.
  pose proof (Qfloor_le (round (P + inject_Z c))) as Hf.
  set (f := Qfloor _) in *.
  assert (H : (5 * inject_Z f <= 12 * P + 10)%Q) by lra.
  unfold P in H. unfold Qle, Qmult, Qplus, inject_Z in H. cbn [Qnum Qden] in H.
  lia.
Qed.

(** X16. The amount [calculateNextBid] computes from a positive price is
    below the minimum [placeBid] asks at that price, whatever the
    percentage: the minimum is the text of the price followed by the text
    of the increment, at least ten times the price once read as a number,
    and the next bid is the price plus 5 %. A bid of an agent at the amount
    of the bid just committed is thrown back as too low. *)
Theorem calculateNextBid_below_minimum (p : Z) (pct : Q) :
  0 < p -> (0 <= pct)%Q ->
  lt_Number_String (AuctionService.calculateNextBid p)
                   (AuctionService.calculateMinBid p pct) = true.
Proof.
  intros Hp Hq. pose proof (calculateNextBid_upper p Hp) as Hn.
  unfold lt_Number_String, ToNumber, AuctionService.calculateMinBid.
  set (inc := Qceiling _).
  assert (Hi : 0 <= inc).
  { unfold inc. rewrite <- Qceiling_Z with (z := 0). apply Qceiling_resp_le.
    apply round_nonneg. apply Qmult_le_0_compat.
    - apply round_nonneg. unfold Qle. cbn. lia.
    - apply round_nonneg. unfold Qdiv. apply Qmult_le_0_compat.
      + apply round_nonneg. exact Hq.
      + unfold Qle. cbn. lia. }
  destruct (parse_int_concat p inc ltac:(lia) Hi) as (k & Hk & E).
  rewrite E. cbn [option_map]. apply negb_true_iff.
  destruct (Qle_bool _ _) eqn:H; [|reflexivity]. exfalso.
  apply Qle_bool_iff in H.
  assert (H10 : 10 <= 10 ^ k).
  { change 10 with (10 ^ 1) at 1. apply Z.pow_le_mono_r; lia. }
  assert (HN : (0 <= inject_Z (p * 10 ^ k + inc))%Q).
  { unfold Qle, inject_Z. cbn [Qnum Qden]. nia. }
  pose proof (round_half _ HN) as Hh.
  assert (H2 : (inject_Z (p * 10 ^ k + inc)
                <= 2 * inject_Z (AuctionService.calculateNextBid p))%Q).
  { eapply Qle_trans; [exact Hh|]. apply Qmult_le_l; [reflexivity|exact H]. }
  unfold Qle, Qmult, inject_Z in H2. cbn [Qnum Qden] in H2. nia.
Qed.

Lemma calculateNextBid_below_minimum_witness :
  AuctionService.calculateNextBid 35000000017500000 = 36750000018375000
  /\ AuctionService.calculateMinBid 35000000017500000 5
     = "350000000175000001750000000875000"%string
  /\ lt_Number_String (AuctionService.calculateNextBid 35000000017500000)
       (AuctionService.calculateMinBid 35000000017500000 5) = true.
Proof.
  split; [vm_compute; reflexivity|]. split; [vm_compute; reflexivity|].
  apply (calculateNextBid_below_minimum 35000000017500000 5).
  - lia.
  - unfold Qle. simpl. lia.
Defined.

(* ------------------------------------------------------------------ *)
(** ** The gates *)

(** X30. Whoever passes [adminAuth] passes [authorize] for every list of
    roles, although admin is not among them; [authorize] with no role lets
    through exactly those [adminAuth] lets through; and adding roles to a
    gate never shuts out a user it let through. *)
Theorem authorize_lets_admin_through (roles more : list string)
  (account_type : option string) :
  (Auth.adminAuth account_type = Auth.next ->
   Auth.authorize roles account_type = Auth.next)
  /\ (Auth.authorize [] account_type = Auth.next
      <-> Auth.adminAuth account_type = Auth.next)
  /\ (Auth.authorize roles account_type = Auth.next ->
      Auth.authorize (roles ++ more) account_type = Auth.next).
Proof.
  unfold Auth.authorize, Auth.adminAuth.
  destruct account_type as [t|]; [|repeat split; discriminate].
  rewrite existsb_app. cbn [existsb].
  destruct (String.eqb t "admin"), (existsb (String.eqb t) roles),
    (existsb (String.eqb t) more); cbn; repeat split;
    (reflexivity || discriminate || auto).
Qed.

(* ------------------------------------------------------------------ *)
(** ** The winning bid carries the price, at every point of a run *)

#[local] Instance keeps_bidding_ok_PreOrder : PreOrder keeps_bidding_ok.
Proof.
  split.
  - intros w H. exact H.
  - intros a b c H1 H2 H. apply H2, H1, H.
Qed.

Lemma reads_ext (w w' : World) :
  bids (db w') = bids (db w) -> users (db w') = users (db w) ->
  forall id,
    fst (AuctionService.getWinningBid id w')
    = fst (AuctionService.getWinningBid id w)
    /\ fst (AuctionService.getBidDetails id w')
       = fst (AuctionService.getBidDetails id w).
Proof.
  intros Hb Hu id.
  unfold AuctionService.getWinningBid, AuctionService.getBidDetails, gets,
    user_exists. cbn [fst]. now rewrite Hb, Hu.
Qed.

Lemma quiet_keeps_bidding_ok (w w' : World) :
  quiet w w' -> same_bids w w' -> same_owners w w' -> keeps_bidding_ok w w'.
Proof.
  intros [Hau _] [Hb Hn] [_ Hu] (Hf & Hpos & Hw).
  pose proof (reads_ext w w' Hb Hu) as Hr.
  split; [|split].
  - unfold fresh_ids in *. now rewrite Hb, Hn.
  - lia.
  - intros a' Ha' Hc.
    apply (in_map bidding_fields) in Ha'. rewrite Hau in Ha'.
    apply in_map_iff in Ha'. destruct Ha' as (a & E & Ha).
    unfold bidding_fields in E. injection E as Ei Ep Ec _.
    destruct (Hw a Ha) as (wb & H1 & H2 & H3 & H4); [lia|].
    exists wb. rewrite <- Ei, <- Ep.
    destruct (Hr (a_id a)) as [-> _]. destruct (Hr (b_id wb)) as [_ ->].
    now repeat split.
Qed.

Lemma respects_quiet_bidding_ok {A} (m : M A) :
  respects quiet m -> respects same_bids m -> respects same_owners m ->
  respects keeps_bidding_ok m.
Proof. intros H1 H2 H3 w. now apply quiet_keeps_bidding_ok. Qed.

Lemma filter_unmark_other (id id' : Z) (p : Bid -> bool) (l : list Bid) :
  id' <> id -> (forall b, p b = true -> auction_id b = id') ->
  filter p (unmark_auction id l) = filter p l.
Proof.
  intros Hne Hp. induction l as [|b l IH]; [reflexivity|].
  cbn [unmark_auction map filter]. fold (unmark_auction id l). rewrite IH.
  destruct (auction_id b =? id) eqn:E; [|reflexivity].
  apply Z.eqb_eq in E.
  destruct (p (set_is_winning false b)) eqn:P1;
    [apply Hp in P1; cbn in P1; congruence|].
  destruct (p b) eqn:P2; [apply Hp in P2; congruence|reflexivity].
Qed.

Lemma hd_error_In {A} (l : list A) (x : A) : hd_error l = Some x -> In x l.
Proof. destruct l; [discriminate|]. intros H. injection H as ->. now left. Qed.

Lemma getBidDetails_unmark (id k : Z) (wb : Bid) (l l2 : list Bid) :
  auction_id wb <> id ->
  hd_error (filter (fun b => b_id b =? k) l) = Some wb ->
  hd_error (filter (fun b => b_id b =? k) (unmark_auction id l ++ l2))
  = Some wb.
Proof.
  intros Hne. induction l as [|b l IH]; [discriminate|].
  cbn [unmark_auction map filter app]. fold (unmark_auction id l).
  destruct (b_id b =? k) eqn:E.
  - cbn [hd_error]. intros H. injection H as ->.
    apply Z.eqb_neq in Hne. rewrite Hne, E. reflexivity.
  - intros H. destruct (auction_id b =? id); cbn [set_is_winning b_id];
      rewrite E; now apply IH.
Qed.

(** The statements of a committed bid keep the store as [endAuction]
    relies on it. *)
Lemma accepted_keeps_bidding_ok (w w' : World) (nb : Bid) :
  bidding_ok w ->
  b_id nb = next_bid_id w ->
  next_bid_id w' = next_bid_id w + 1 ->
  user_exists (db w) (user_id nb) = true ->
  users (db w') = users (db w) ->
  bids (db w') = accepted_bids nb (bids (db w)) ->
  map bidding_fields (auctions (db w'))
  = map bidding_fields (priced (auction_id nb) (amount nb) (auctions (db w))) ->
  bidding_ok w'.
Proof.
  intros (Hf & Hpos & Hw) Hid Hn' Hux Hu Hb Hau.
  assert (Hfr : Forall (fun b => b_id b < b_id nb) (bids (db w)))
    by (rewrite Hid; exact Hf).
  split; [eapply fresh_ids_accepted; eauto|]. split; [lia|].
  intros a' Ha' Hc.
  apply (in_map bidding_fields) in Ha'. rewrite Hau in Ha'.
  apply in_map_iff in Ha'. destruct Ha' as (x & Ex & Hx).
  unfold priced in Hx. apply in_map_iff in Hx. destruct Hx as (a & <- & Ha).
  rewrite accepted_bids_shape in Hb by exact Hfr.
  unfold AuctionService.getWinningBid, AuctionService.getBidDetails, gets.
  cbn [fst]. unfold user_exists in *. rewrite Hb, Hu.
  destruct (a_id a =? auction_id nb) eqn:E.
  - unfold bidding_fields in Ex. cbn in Ex. injection Ex as Ei Ep _ _.
    apply Z.eqb_eq in E.
    exists (set_is_winning true nb). rewrite <- Ei, E, <- Ep.
    rewrite !filter_app, rev_app_distr.
    cbn [filter set_is_winning auction_id is_winning user_id b_id amount].
    rewrite !Z.eqb_refl, Hux. cbn [andb rev app hd_error].
    rewrite filter_unmark_fresh by exact Hfr.
    repeat split; try reflexivity. lia.
  - unfold bidding_fields in Ex. injection Ex as Ei Ep Ec _.
    apply Z.eqb_neq in E.
    destruct (Hw a Ha) as (wb & H1 & H2 & H3 & H4); [lia|].
    unfold AuctionService.getWinningBid, AuctionService.getBidDetails, gets
      in H1, H4. cbn [fst] in H1, H4. injection H1 as H1. injection H4 as H4.
    assert (Hwb : auction_id wb = a_id a).
    { apply hd_error_In in H1. apply in_rev in H1. apply filter_In in H1.
      destruct H1 as [_ H1]. apply andb_prop in H1. destruct H1 as [H1 _].
      apply andb_prop in H1. destruct H1 as [H1 _]. now apply Z.eqb_eq. }
    exists wb. rewrite <- Ei, <- Ep. repeat split; try assumption.
    + rewrite filter_app. cbn [filter set_is_winning auction_id].
      assert (E' : (auction_id nb =? a_id a) = false)
        by (apply Z.eqb_neq; congruence).
      rewrite E'. cbn [andb]. rewrite app_nil_r.
      rewrite filter_unmark_other with (id' := a_id a).
      * unfold user_exists in H1. now rewrite H1.
      * exact E.
      * intros b Hb'. apply andb_prop in Hb'. destruct Hb' as [Hb' _].
        apply andb_prop in Hb'. destruct Hb' as [Hb' _]. now apply Z.eqb_eq.
    + f_equal. apply getBidDetails_unmark; [congruence|exact H4].
Qed.

Lemma next_id_keeps_bidding_ok (w : World) :
  keeps_bidding_ok w (with_next_bid_id (next_bid_id w + 1) w).
Proof.
  intros (Hf & Hpos & Hw). split; [now apply fresh_ids_next|].
  split; [cbn; lia|]. destruct w as [[]]. exact Hw.
Qed.

Lemma placeBid_keeps_bidding_ok (now now' : Z) (d : AuctionService.BidData) :
  respects keeps_bidding_ok (AuctionService.placeBid now now' d).
Proof.
  intros w. pose proof (placeBid_spec now now' d w) as H.
  pose proof (placeBid_frame now now' d w) as [_ Hu].
  destruct (AuctionService.placeBid now now' d w) as [[bidId|e] w'] eqn:E;
    cbn [snd] in *; [contradiction|].
  destruct H as [(-> & Hn & _ & _ & _ & _ & auction & _ & _ & _ & Hb & Hau)
                |[(-> & _)|(_ & ->)]];
    [|reflexivity|apply next_id_keeps_bidding_ok].
  pose proof (placeBid_user_exists _ _ _ _ _ _ E eq_refl) as Hux.
  intros Hok. eapply accepted_keeps_bidding_ok; [exact Hok| | | | |exact Hb|].
  - reflexivity.
  - exact Hn.
  - exact Hux.
  - exact Hu.
  - rewrite Hau. unfold accepted_auctions, extended. cbn [auction_id amount].
    destruct (extends now auction); [|reflexivity].
    rewrite map_map. apply map_ext. intros a.
    destruct (a_id a =? AuctionService.auctionId d); reflexivity.
Qed.

Lemma postBid_keeps_bidding_ok (now : Z) (req : BidsRoute.Request) :
  respects keeps_bidding_ok (BidsRoute.postBid now req).
Proof. apply respects_postBid; typeclasses eauto. Qed.

#[local] Hint Resolve placeBid_keeps_bidding_ok : respects.

Lemma processAutoBids_keeps_bidding_ok (now now' id amt : Z) :
  respects keeps_bidding_ok (AuctionService.processAutoBids now now' id amt).
Proof.
  unfold AuctionService.processAutoBids.
  repeat respects_step.
  rename a into entries. generalize amt.
  induction entries as [|[key autoBid] l IH]; intros amt';
    cbn [AuctionService.autoBids_loop].
  - repeat respects_step.
  - destruct (_ <=? _); [|apply IH].
    repeat respects_step.
    apply respects_quiet_bidding_ok; intros w; split; reflexivity.
Qed.

Lemma checkAuctionStatus_same_owners (now : Z) :
  respects same_owners (AuctionService.checkAuctionStatus now).
Proof. unfold AuctionService.checkAuctionStatus. repeat respects_step. Qed.

Lemma setupAutoBid_same_owners (a u m : Z) :
  respects same_owners (AuctionService.setupAutoBid a u m).
Proof.
  unfold AuctionService.setupAutoBid. repeat respects_step.
  intros w. split; reflexivity.
Qed.

Lemma step_keeps_bidding_ok (op : Op) (w : World) :
  keeps_bidding_ok w (step op w).
Proof.
  destruct op; cbn [step].
  - apply placeBid_keeps_bidding_ok.
  - apply respects_quiet_bidding_ok;
      [apply setupAutoBid_quiet|apply setupAutoBid_same_bids
      |apply setupAutoBid_same_owners].
  - apply respects_quiet_bidding_ok;
      [apply checkAuctionStatus_quiet|apply checkAuctionStatus_same_bids
      |apply checkAuctionStatus_same_owners].
  - apply postBid_keeps_bidding_ok.
  - apply respects_quiet_bidding_ok;
      [apply startAuction_quiet|apply startAuction_same_bids
      |apply startAuction_same_owners].
  - apply respects_quiet_bidding_ok;
      [apply endAuction_quiet|apply endAuction_same_bids
      |apply endAuction_same_owners].
  - apply processAutoBids_keeps_bidding_ok.
Qed.

(** X27. In a run of engine operations from a store where bid ids are below
    a positive counter and every auction row that counts a bid has a winning
    bid at its current price, the same holds at the end: for each auction
    row with a positive [current_bid_count], [getWinningBid] returns a bid
    whose amount is the row's [current_price], whose id is not 0 and which
    [getBidDetails] finds under that id. A store without bids and with all
    counters at 0 is such a store. *)
Theorem winning_bid_carries_price (ops : list Op) (w : World) :
  bidding_ok w ->
  forall a, In a (auctions (db (run ops w))) -> 0 < current_bid_count a ->
    exists wb,
      fst (AuctionService.getWinningBid (a_id a) (run ops w))
        = Return (Some wb)
      /\ amount wb = current_price a
      /\ b_id wb <> 0
      /\ fst (AuctionService.getBidDetails (b_id wb) (run ops w))
         = Return (Some wb).
Proof.
  intros Hok.
  assert (H : bidding_ok (run ops w)).
  { revert w Hok. induction ops as [|op ops IH]; intros w Hok;
      cbn [run fold_left]; [exact Hok|].
    apply (IH (step op w)). now apply step_keeps_bidding_ok. }
  exact (proj2 (proj2 H)).
Qed.

(** A bid on the seeded auction at its minimum, a request on the REST path,
    then the clock at the deadline: the auction row counts one bid and the
    winning bid is that bid, at the price. *)
Lemma winning_bid_carries_price_witness :
  let ops := [place_bid 10 10
                (AuctionService.mkBidData 1 2 35000000017500000 normal 0);
              post_bid 20 (BidsRoute.mkRequest (Some 3) 1 400000000 None 0);
              tick 1000000000] in
  let w := run ops (world0 true) in
  exists a wb,
    In a (auctions (db w)) /\ current_bid_count a = 1
    /\ fst (AuctionService.getWinningBid 1 w) = Return (Some wb)
    /\ amount wb = current_price a /\ b_id wb = 1.
Proof.
  intros ops w.
  assert (Hok : bidding_ok (world0 true)).
  { split; [constructor|]. split; [reflexivity|].
    intros a [<-|[]] Hc. discriminate Hc. }
  set (a := mkAuction 1 1 0 1000000000 None 320000000 35000000017500000 5 1
                      ended (Some sold) (Some 1) true 5 (Some 1000000000)).
  assert (Hin : In a (auctions (db w))) by (vm_compute; left; reflexivity).
  destruct (winning_bid_carries_price ops (world0 true) Hok a Hin
              ltac:(reflexivity)) as (wb & H1 & H2 & _ & _).
  exists a, wb. split; [exact Hin|]. split; [reflexivity|].
  split; [exact H1|]. split; [exact H2|].
  vm_compute in H1. injection H1 as <-. reflexivity.
Defined.
